(** * Open-Unmix separator (model/umx.py): a shallow embedding

    The development follows the layout of [model/umx.py]:

    - [Py]: the fragment of Python's error model that the file relies on
      (exceptions as values of an error monad);
    - [Bandwidth]: [bandwidth_to_max_bin] together with the NumPy calls it
      is made of ([np.linspace], [np.where], [np.max]);
    - [Tensor]: shaped tensors with the indexing, broadcasting and
      reshaping operations used by the two classes;
    - [OpenUnmix]: the constructor, [freeze] and [forward] of the network
      module;
    - [UMX]: [UMXSeparator] with [load_model], [forward], [to_dict] and
      [separate].

    The properties follow in the same order, first those of the
    specification ([BandwidthFacts], [OpenUnmixFacts], [UMXFacts]), then
    further ones read off the code ([BandwidthProps], [OpenUnmixProps],
    [UMXProps]): error and edge behaviour, what the loops write, and how
    the functions compose.

    Floating point numbers are idealised as rationals ([Q]): every
    property below is about indices, shapes, control flow and signs. *)

From Stdlib Require Import ZArith QArith Qminmax Qround Lqa Lia List.
From stdpp Require Import base option list gmap strings.

Open Scope Z_scope.

(** ** Exceptions *)

Module Py.

Inductive exn : Type :=
| ValueError     (* NumPy: empty reduction, negative sample count *)
| IndexError     (* indexing out of range *)
| KeyError       (* missing dictionary key *)
| RuntimeError   (* torch: shape mismatch *)
| OSError        (* a weights file that cannot be read *)
| CannotUseEM    (* [Exception("Cannot use EM if only one target is
                    estimated. ...")] of [UMXSeparator.forward] *)
| OutOfFuel.     (* not a Python exception: the iteration bound of the
                    model of a [while] loop was reached *)

Inductive result (A : Type) : Type :=
| Ok (a : A)
| Raise (e : exn).

Arguments Ok {A} a.
Arguments Raise {A} e.

Definition bind {A B} (m : result A) (k : A -> result B) : result B :=
  match m with
  | Ok a => k a
  | Raise e => Raise e
  end.

Definition is_ok {A} (m : result A) : bool :=
  match m with Ok _ => true | Raise _ => false end.

End Py.

Import Py.

#[global] Instance result_ret : MRet result := @Ok.
#[global] Instance result_bind : MBind result := fun A B k m => Py.bind m k.

(** ** Bandwidth limiter *)

Module Bandwidth.

(** [np.arange(0, num)] as natural indices. *)
Definition arange0 (num : Z) : list nat := seq 0 (Z.to_nat num).

(** [y[-1] = stop] on a one-dimensional array. *)
Definition set_last (y : list Q) (stop : Q) : list Q :=
  match y with
  | [] => []
  | _ => removelast y ++ [stop]
  end.

(** [np.linspace(start, stop, num, endpoint=True)]:
    [div = num - 1]; [step = (stop - start) / div]; the samples are
    [arange(0, num) * step + start] when [div > 0] and
    [arange(0, num) * (stop - start) + start] otherwise; with more than
    one sample the last one is overwritten by [stop]. A negative [num]
    is a [ValueError]. *)
Definition linspace (start stop : Q) (num : Z) : result (list Q) :=
  if num <? 0 then Raise ValueError
  else
    let div := num - 1 in
    let delta := (stop - start)%Q in
    let step := (delta / inject_Z div)%Q in
    let y :=
      map (fun i : nat =>
             if 0 <? div
             then (inject_Z (Z.of_nat i) * step + start)%Q
             else (inject_Z (Z.of_nat i) * delta + start)%Q)
          (arange0 num) in
    Ok (if 1 <? num then set_last y stop else y).

(** [np.where(freqs <= bandwidth)[0]], scanning from index [i]. *)
Fixpoint where_le_from (i : nat) (freqs : list Q) (bandwidth : Q) : list nat :=
  match freqs with
  | [] => []
  | f :: rest =>
      if Qle_bool f bandwidth
      then i :: where_le_from (S i) rest bandwidth
      else where_le_from (S i) rest bandwidth
  end.

Definition where_le (freqs : list Q) (bandwidth : Q) : list nat :=
  where_le_from 0 freqs bandwidth.

(** [np.max]: a [ValueError] on the empty array. *)
Definition np_max (idx : list nat) : result nat :=
  match idx with
  | [] => Raise ValueError
  | i :: rest => Ok (fold_left Nat.max rest i)
  end.

(** [bandwidth_to_max_bin(rate, n_fft, bandwidth)]. *)
Definition bandwidth_to_max_bin (rate : Q) (n_fft : Z) (bandwidth : Q) : result Z :=
  freqs ← linspace 0 (rate / 2) (n_fft / 2 + 1);
  m ← np_max (where_le freqs bandwidth);
  Ok (Z.of_nat m + 1).

End Bandwidth.

(** ** Tensors *)

Module Tensor.

(** A tensor is a shape together with the entry found at each
    multi-index; only the entries whose index lies within the shape are
    meaningful. *)
Record tensor : Type := mk {
  shape : list nat;
  at_ : list nat → Q;
}.

Definition ndim (t : tensor) : nat := length (shape t).

Definition numel (s : list nat) : nat := foldr Nat.mul 1%nat s.

(** [idx] addresses an entry of a tensor of shape [s]. *)
Definition in_bounds (s idx : list nat) : Prop := Forall2 lt idx s.

Definition zeros (s : list nat) : tensor := mk s (fun _ => 0%Q).

(** [torch.tensor(v)]: a zero-dimensional tensor. *)
Definition scalar (v : Q) : tensor := mk [] (fun _ => v).

(** Position of axis [a] in the axis list [dims]. *)
Fixpoint index_of (a : nat) (dims : list nat) : nat :=
  match dims with
  | [] => 0
  | d :: rest => if (d =? a)%nat then 0 else S (index_of a rest)
  end.

Definition is_permutation (dims : list nat) (n : nat) : bool :=
  (length dims =? n)%nat &&
  forallb (fun a => existsb (Nat.eqb a) dims) (seq 0 n).

(** [t.permute(dims)]: axis [i] of the result is axis [dims[i]] of [t]. *)
Definition permute (dims : list nat) (t : tensor) : result tensor :=
  if is_permutation dims (ndim t) then
    Ok (mk (map (fun d => nth d (shape t) 0%nat) dims)
           (fun idx =>
              at_ t (map (fun a => nth (index_of a dims) idx 0%nat)
                         (seq 0 (ndim t)))))
  else Raise RuntimeError.

(** [t[..., :n]]: the last axis cut down to its first [n] entries. *)
Definition narrow_last (n : nat) (t : tensor) : result tensor :=
  match reverse (shape t) with
  | [] => Raise IndexError
  | d :: r => Ok (mk (reverse r ++ [Nat.min d n]) (at_ t))
  end.

(** Broadcasting of two shapes, aligned at their last axes. The lists are
    the reversed shapes. *)
Fixpoint broadcast_rev (a b : list nat) : option (list nat) :=
  match a, b with
  | [], _ => Some b
  | _, [] => Some a
  | x :: a', y :: b' =>
      if (x =? y)%nat then cons x <$> broadcast_rev a' b'
      else if (x =? 1)%nat then cons y <$> broadcast_rev a' b'
      else if (y =? 1)%nat then cons x <$> broadcast_rev a' b'
      else None
  end.

Definition broadcast_shapes (a b : list nat) : option (list nat) :=
  reverse <$> broadcast_rev (reverse a) (reverse b).

(** The entry of an operand of shape [s] read for the entry [idx] of the
    broadcast result: shape and index are aligned at their last axes,
    leading axes of the index are dropped and axes of size one are read
    at 0. *)
Definition bcast_index (s idx : list nat) : list nat :=
  reverse (zip_with (fun d i => if (d =? 1)%nat then 0%nat else i)
                    (reverse s) (reverse idx)).

(** An elementwise binary operation with broadcasting. *)
Definition map2 (f : Q → Q → Q) (a b : tensor) : result tensor :=
  match broadcast_shapes (shape a) (shape b) with
  | Some s =>
      Ok (mk s (fun idx => f (at_ a (bcast_index (shape a) idx))
                             (at_ b (bcast_index (shape b) idx))))
  | None => Raise RuntimeError
  end.

Definition add := map2 Qplus.
Definition mul := map2 Qmult.

(** The in-place forms [a += b] and [a *= b]: the broadcast shape has to
    be the shape of [a]. *)
Definition map2_inplace (f : Q → Q → Q) (a b : tensor) : result tensor :=
  match broadcast_shapes (shape a) (shape b) with
  | Some s =>
      if decide (s = shape a) then map2 f a b else Raise RuntimeError
  | None => Raise RuntimeError
  end.

Definition iadd := map2_inplace Qplus.
Definition imul := map2_inplace Qmult.

Definition map1 (f : Q → Q) (t : tensor) : tensor :=
  mk (shape t) (fun idx => f (at_ t idx)).

(** [F.relu]. *)
Definition relu : tensor → tensor := map1 (Qmax 0).

(** Row-major position of a multi-index, and back. *)
Definition ravel (s idx : list nat) : nat :=
  fold_left (fun acc di => (acc * fst di + snd di)%nat) (zip s idx) 0%nat.

Fixpoint unravel (s : list nat) (n : nat) : list nat :=
  match s with
  | [] => []
  | _ :: rest => (n / numel rest)%nat :: unravel rest (n mod numel rest)%nat
  end.

(** [t.reshape(s)] for an explicit shape [s]. *)
Definition reshape (s : list nat) (t : tensor) : result tensor :=
  if (numel s =? numel (shape t))%nat then
    Ok (mk s (fun idx => at_ t (unravel (shape t) (ravel s idx))))
  else Raise RuntimeError.

(** [t.reshape(-1, m)]: the first axis is inferred, which needs [m > 0]
    and [m] to divide the number of entries. *)
Definition reshape_infer (m : nat) (t : tensor) : result tensor :=
  if ((0 <? m) && (numel (shape t) mod m =? 0))%nat then
    reshape [(numel (shape t) / m)%nat; m] t
  else Raise RuntimeError.

(** [torch.cat([a, b], -1)]. *)
Definition cat_last (a b : tensor) : result tensor :=
  match reverse (shape a), reverse (shape b) with
  | da :: ra, db :: rb =>
      if decide (ra = rb) then
        Ok (mk (reverse ra ++ [(da + db)%nat])
               (fun idx =>
                  match reverse idx with
                  | i :: ri =>
                      if (i <? da)%nat then at_ a idx
                      else at_ b (reverse ri ++ [(i - da)%nat])
                  | [] => 0%Q
                  end))
      else Raise RuntimeError
  | _, _ => Raise RuntimeError
  end.

(** [t[k]] for [k >= 0], and [t[-1]]. *)
Definition index0 (k : nat) (t : tensor) : result tensor :=
  match shape t with
  | d :: rest =>
      if (k <? d)%nat then Ok (mk rest (fun idx => at_ t (k :: idx)))
      else Raise IndexError
  | [] => Raise IndexError
  end.

Definition index_last0 (t : tensor) : result tensor :=
  match shape t with
  | d :: rest => index0 (d - 1) t
  | [] => Raise IndexError
  end.

(** [t.squeeze(0)]: drops the first axis when its size is one and leaves
    the tensor alone otherwise. *)
Definition squeeze0 (t : tensor) : tensor :=
  match shape t with
  | 1%nat :: rest => mk rest (fun idx => at_ t (0%nat :: idx))
  | _ => t
  end.

(** [t[..., j] = v]: [v] is broadcast to the shape of [t] without its
    last axis. *)
Definition setitem_last (j : nat) (t v : tensor) : result tensor :=
  match reverse (shape t) with
  | [] => Raise IndexError
  | d :: r =>
      if (j <? d)%nat then
        match broadcast_shapes (reverse r) (shape v) with
        | Some s =>
            if decide (s = reverse r) then
              Ok (mk (shape t)
                     (fun idx =>
                        match reverse idx with
                        | i :: ri =>
                            if (i =? j)%nat
                            then at_ v (bcast_index (shape v) (reverse ri))
                            else at_ t idx
                        | [] => at_ t idx
                        end))
            else Raise RuntimeError
        | None => Raise RuntimeError
        end
      else Raise IndexError
  end.

(** [t[sample, cur_frame]] for an index tensor [cur_frame] of frame
    numbers. *)
Definition getitem_frames (sample : nat) (cur_frame : list nat) (t : tensor)
  : result tensor :=
  match shape t with
  | d0 :: d1 :: rest =>
      if (sample <? d0)%nat && forallb (fun f => (f <? d1)%nat) cur_frame then
        Ok (mk (length cur_frame :: rest)
               (fun idx =>
                  match idx with
                  | p :: r => at_ t (sample :: nth p cur_frame 0%nat :: r)
                  | [] => 0%Q
                  end))
      else Raise IndexError
  | _ => Raise IndexError
  end.

(** [t[sample, cur_frame] = v]. *)
Definition setitem_frames (sample : nat) (cur_frame : list nat) (t v : tensor)
  : result tensor :=
  match shape t with
  | d0 :: d1 :: rest =>
      if (sample <? d0)%nat && forallb (fun f => (f <? d1)%nat) cur_frame then
        match broadcast_shapes (length cur_frame :: rest) (shape v) with
        | Some s =>
            if decide (s = length cur_frame :: rest) then
              Ok (mk (shape t)
                     (fun idx =>
                        match idx with
                        | i :: f :: r =>
                            if (i =? sample)%nat && existsb (Nat.eqb f) cur_frame
                            then at_ v (bcast_index (shape v)
                                          (index_of f cur_frame :: r))
                            else at_ t idx
                        | _ => at_ t idx
                        end))
            else Raise RuntimeError
        | None => Raise RuntimeError
        end
      else Raise IndexError
  | _ => Raise IndexError
  end.

(** [t.shape[i]]. *)
Definition size (i : nat) (t : tensor) : result nat :=
  match shape t !! i with
  | Some d => Ok d
  | None => Raise IndexError
  end.

End Tensor.

(** ** The network module *)

Module OpenUnmix.
Import Tensor.

(** The entries a layer computes from its input depend on learned weights
    (and on [tanh], sigmoids and square roots): they are kept opaque, as
    a function from the input tensor to the entry at each index. What
    the model tracks exactly is the shape discipline of each layer. *)
Definition values : Type := tensor → list nat → Q.

Record Linear : Type := mkLinear {
  in_features : nat;
  out_features : nat;
  linear_values : values;
}.

Record BatchNorm1d : Type := mkBatchNorm1d {
  num_features : nat;
  bn_values : values;
}.

Record LSTM : Type := mkLSTM {
  input_size : nat;
  lstm_hidden_size : nat;
  num_layers : nat;
  bidirectional : bool;
  lstm_values : values;
}.

(** [Linear.forward]: the last axis has to hold [in_features] entries and
    is replaced by [out_features]. *)
Definition Linear_forward (l : Linear) (x : tensor) : result tensor :=
  match reverse (shape x) with
  | d :: r =>
      if (d =? in_features l)%nat
      then Ok (mk (reverse r ++ [out_features l]) (linear_values l x))
      else Raise RuntimeError
  | [] => Raise RuntimeError
  end.

(** [BatchNorm1d.forward]: a 2D [(N, C)] or 3D [(N, C, L)] input; in
    training mode more than one value per channel is required; [C] has to
    be [num_features]. The shape is kept. *)
Definition BatchNorm1d_forward (training : bool) (b : BatchNorm1d) (x : tensor)
  : result tensor :=
  match shape x with
  | [n; c] | [n; c; _] =>
      if training && (numel (shape x) / c =? 1)%nat then Raise ValueError
      else if (c =? num_features b)%nat
           then Ok (mk (shape x) (bn_values b x))
           else Raise RuntimeError
  | _ => Raise ValueError
  end.

(** [LSTM.forward(x)[0]]: the output sequence for a 2D (unbatched) or 3D
    input whose last axis holds [input_size] entries; the last axis of the
    output holds [hidden_size] entries per direction. *)
Definition LSTM_forward (l : LSTM) (x : tensor) : result tensor :=
  match shape x with
  | [_; _] | [_; _; _] =>
      match reverse (shape x) with
      | d :: r =>
          if (d =? input_size l)%nat
          then Ok (mk (reverse r ++
                         [((if bidirectional l then 2 else 1) * lstm_hidden_size l)%nat])
                      (lstm_values l x))
          else Raise RuntimeError
      | [] => Raise RuntimeError
      end
  | _ => Raise ValueError
  end.

(** The values of the seven layers, as initialised or as loaded. *)
Record Weights : Type := mkWeights {
  w_fc1 : values; w_bn1 : values; w_lstm : values;
  w_fc2 : values; w_bn2 : values; w_fc3 : values; w_bn3 : values;
}.

(** An [OpenUnmix] instance. *)
Record t : Type := mkOpenUnmix {
  nb_output_bins : nat;
  nb_bins : nat;
  hidden_size : nat;
  fc1 : Linear;
  bn1 : BatchNorm1d;
  lstm : LSTM;
  fc2 : Linear;
  bn2 : BatchNorm1d;
  fc3 : Linear;
  bn3 : BatchNorm1d;
  input_mean : tensor;
  input_scale : tensor;
  output_scale : tensor;
  output_mean : tensor;
  training : bool;
}.

(** A one-dimensional tensor holding the entries of [l]. *)
Definition vector (l : list Q) : tensor :=
  mk [length l]
     (fun idx => match idx with [i] => nth i l 0%Q | _ => 0%Q end).

Definition ones (n : nat) : tensor := mk [n] (fun _ => 1%Q).

(** [OpenUnmix.__init__]. [max_bin] is used when it is truthy, that is
    neither [None] nor 0. A freshly built module is in training mode. *)
Definition init (w : Weights)
    (nb_bins_arg nb_channels hidden nb_layers : nat) (unidirectional : bool)
    (input_mean_arg input_scale_arg : option (list Q)) (max_bin : option nat) : t :=
  let nb_output_bins := nb_bins_arg in
  let nb_bins :=
    match max_bin with
    | Some (S n) => S n
    | _ => nb_output_bins
    end in
  let lstm_hidden := if unidirectional then hidden else (hidden / 2)%nat in
  let fc2_hiddensize := (hidden * 2)%nat in
  {| nb_output_bins := nb_output_bins;
     nb_bins := nb_bins;
     hidden_size := hidden;
     fc1 := mkLinear (nb_bins * nb_channels) hidden (w_fc1 w);
     bn1 := mkBatchNorm1d hidden (w_bn1 w);
     lstm := mkLSTM hidden lstm_hidden nb_layers (negb unidirectional) (w_lstm w);
     fc2 := mkLinear fc2_hiddensize hidden (w_fc2 w);
     bn2 := mkBatchNorm1d hidden (w_bn2 w);
     fc3 := mkLinear hidden (nb_output_bins * nb_channels) (w_fc3 w);
     bn3 := mkBatchNorm1d (nb_output_bins * nb_channels) (w_bn3 w);
     input_mean :=
       match input_mean_arg with
       | Some a => vector (map Qopp (take nb_bins a))
       | None => zeros [nb_bins]
       end;
     input_scale :=
       match input_scale_arg with
       | Some a => vector (map (fun v => 1 / v)%Q (take nb_bins a))
       | None => ones nb_bins
       end;
     output_scale := ones nb_output_bins;
     output_mean := ones nb_output_bins;
     training := true |}.

(** [module.eval()]. *)
Definition eval (m : t) : t :=
  {| nb_output_bins := nb_output_bins m; nb_bins := nb_bins m;
     hidden_size := hidden_size m;
     fc1 := fc1 m; bn1 := bn1 m; lstm := lstm m; fc2 := fc2 m;
     bn2 := bn2 m; fc3 := fc3 m; bn3 := bn3 m;
     input_mean := input_mean m; input_scale := input_scale m;
     output_scale := output_scale m; output_mean := output_mean m;
     training := false |}.

(** The entries of a stored state: new values for the layers and,
    where present, for the four parameter vectors. *)
Record state_dict : Type := mkStateDict {
  sd_weights : Weights;
  sd_input_mean : option (list nat → Q);
  sd_input_scale : option (list nat → Q);
  sd_output_scale : option (list nat → Q);
  sd_output_mean : option (list nat → Q);
}.

Definition load_values (v : option (list nat → Q)) (p : tensor) : tensor :=
  match v with
  | Some f => mk (shape p) f
  | None => p
  end.

(** [module.load_state_dict(sd, strict=False)] for a state whose entries
    have the shapes of the module's parameters: the values change, the
    shapes and the layer sizes stay. *)
Definition load_state_dict (m : t) (sd : state_dict) : t :=
  let w := sd_weights sd in
  {| nb_output_bins := nb_output_bins m; nb_bins := nb_bins m;
     hidden_size := hidden_size m;
     fc1 := mkLinear (in_features (fc1 m)) (out_features (fc1 m)) (w_fc1 w);
     bn1 := mkBatchNorm1d (num_features (bn1 m)) (w_bn1 w);
     lstm := mkLSTM (input_size (lstm m)) (lstm_hidden_size (lstm m))
                    (num_layers (lstm m)) (bidirectional (lstm m)) (w_lstm w);
     fc2 := mkLinear (in_features (fc2 m)) (out_features (fc2 m)) (w_fc2 w);
     bn2 := mkBatchNorm1d (num_features (bn2 m)) (w_bn2 w);
     fc3 := mkLinear (in_features (fc3 m)) (out_features (fc3 m)) (w_fc3 w);
     bn3 := mkBatchNorm1d (num_features (bn3 m)) (w_bn3 w);
     input_mean := load_values (sd_input_mean sd) (input_mean m);
     input_scale := load_values (sd_input_scale sd) (input_scale m);
     output_scale := load_values (sd_output_scale sd) (output_scale m);
     output_mean := load_values (sd_output_mean sd) (output_mean m);
     training := training m |}.

(** [nb_frames, nb_samples, nb_channels, nb_bins = x.data.shape]. *)
Definition unpack4 (s : list nat) : result (nat * nat * nat * nat) :=
  match s with
  | [a; b; c; d] => Ok (a, b, c, d)
  | _ => Raise ValueError
  end.

Section Forward.

(** [torch.tanh] on one entry. *)
Variable tanh : Q → Q.

(** [OpenUnmix.forward]. *)
Definition forward (m : t) (x : tensor) : result tensor :=
  (* permute so that batch is last for lstm *)
  x ← permute [3; 0; 1; 2]%nat x;
  (* get current spectrogram shape *)
  '(nb_frames, nb_samples, nb_channels, _) ← unpack4 (shape x);
  let mix := x in                                   (* x.detach().clone() *)
  (* crop *)
  x ← narrow_last (nb_bins m) x;
  (* shift and scale input *)
  x ← add x (input_mean m);
  x ← mul x (input_scale m);
  (* to (nb_frames*nb_samples, nb_channels*nb_bins), then encode *)
  x ← reshape_infer (nb_channels * nb_bins m) x;
  x ← Linear_forward (fc1 m) x;
  (* normalize every instance in a batch *)
  x ← BatchNorm1d_forward (training m) (bn1 m) x;
  x ← reshape [nb_frames; nb_samples; hidden_size m] x;
  (* squash range to [-1, 1] *)
  let x := map1 tanh x in
  (* stacked LSTM *)
  lstm_out ← LSTM_forward (lstm m) x;
  (* lstm skip connection *)
  x ← cat_last x lstm_out;
  (* first dense stage + batch norm *)
  x ← reshape_infer (List.last (shape x) 0%nat) x;
  x ← Linear_forward (fc2 m) x;
  x ← BatchNorm1d_forward (training m) (bn2 m) x;
  let x := relu x in
  (* second dense stage + batch norm *)
  x ← Linear_forward (fc3 m) x;
  x ← BatchNorm1d_forward (training m) (bn3 m) x;
  (* reshape back to original dim *)
  x ← reshape [nb_frames; nb_samples; nb_channels; nb_output_bins m] x;
  (* apply output scaling *)
  x ← imul x (output_scale m);
  x ← iadd x (output_mean m);
  (* since the output is non-negative, RELU can be applied *)
  x ← mul (relu x) mix;
  (* permute back to (nb_samples, nb_channels, nb_bins, nb_frames) *)
  permute [1; 2; 3; 0]%nat x.

End Forward.

Local Open Scope nat_scope.

(** Concrete data used to exercise the model: layers whose values are
    constant, a state that leaves the parameter vectors alone, an
    all-ones input of a given shape and the identity in place of
    [tanh]. *)
Definition sample_weights : Weights :=
  mkWeights (λ _ _, 0%Q) (λ _ _, 0%Q) (λ _ _, 0%Q) (λ _ _, 0%Q)
            (λ _ _, 0%Q) (λ _ _, 0%Q) (λ _ _, (-3)%Q).

Definition sample_state : state_dict :=
  mkStateDict sample_weights None None None None.

Definition sample_tanh : Q → Q := λ q, q.

Definition all_ones (s : list nat) : tensor := mk s (λ _, 1%Q).

(** [OpenUnmix(nb_bins=4, nb_channels=2, hidden_size=4, max_bin=3)],
    loaded and put in evaluation mode. *)
Definition sample_module : t :=
  eval (load_state_dict
          (init sample_weights 4 2 4 3 false None None (Some 3)) sample_state).

(** The layer sizes and parameter shapes of a module fit together for
    inputs with [C] channels. *)
Record configured (m : t) (C : nat) : Prop := {
  cfg_bins_pos : 0 < nb_bins m;
  cfg_bins_le : nb_bins m ≤ nb_output_bins m;
  cfg_hidden : 0 < hidden_size m;
  cfg_fc1_in : in_features (fc1 m) = nb_bins m * C;
  cfg_fc1_out : out_features (fc1 m) = hidden_size m;
  cfg_bn1 : num_features (bn1 m) = hidden_size m;
  cfg_lstm_in : input_size (lstm m) = hidden_size m;
  cfg_lstm_out :
    (if bidirectional (lstm m) then 2 else 1) * lstm_hidden_size (lstm m)
    = hidden_size m;
  cfg_fc2_in : in_features (fc2 m) = hidden_size m * 2;
  cfg_fc2_out : out_features (fc2 m) = hidden_size m;
  cfg_bn2 : num_features (bn2 m) = hidden_size m;
  cfg_fc3_in : in_features (fc3 m) = hidden_size m;
  cfg_fc3_out : out_features (fc3 m) = nb_output_bins m * C;
  cfg_bn3 : num_features (bn3 m) = nb_output_bins m * C;
  cfg_input_mean : shape (input_mean m) = [nb_bins m];
  cfg_input_scale : shape (input_scale m) = [nb_bins m];
  cfg_output_scale : shape (output_scale m) = [nb_output_bins m];
  cfg_output_mean : shape (output_mean m) = [nb_output_bins m];
}.

(** A module together with the gradient flags of its parameters:
    [requires_grad name] tells whether the parameter called [name] is
    tracked for differentiation. *)
Record tracked : Type := mkTracked {
  module : t;
  requires_grad : string → bool;
}.

(** [OpenUnmix.freeze]: gradient tracking is switched off for every
    parameter, then the module is put in evaluation mode. *)
Definition freeze (m : tracked) : tracked :=
  {| module := eval (module m); requires_grad := λ _, false |}.

End OpenUnmix.

(** ** The separator *)

Module UMX.
Import Tensor.

(** *** Tensors as objects

    The estimators receive tensor objects and may write into them, so
    the tensors they can reach live in a store; a call to a collaborator
    is recorded in a trace. *)

Abbreviation loc := nat (only parsing).

Inductive event : Type :=
| EvEstimate (target : string) (arg : loc) (seen : tensor)
    (* [target_module(arg)], with the entries held by [arg] at the call *)
| EvWiener (sample : nat) (cur_frame : list nat) (nb_stacked : nat)
           (num_iter : Z) (softmask residual : bool).
    (* [wiener(spectrograms[sample, cur_frame], mix_stft[sample, cur_frame],
               num_iter, softmask=softmask, residual=residual)];
       [nb_stacked] is the size of the source axis of the first argument *)

Record state : Type := mkState {
  st_heap : gmap nat tensor;
  st_trace : list event;
}.

(** Computations that read and write the state and may raise. *)
Definition M (A : Type) : Type := state → state * result A.

#[global] Instance M_ret : MRet M := λ A a st, (st, Ok a).
#[global] Instance M_bind : MBind M := λ A B k m st,
  match m st with
  | (st', Ok a) => k a st'
  | (st', Raise e) => (st', Raise e)
  end.

Definition lift {A} (r : result A) : M A := λ st, (st, r).
Definition raise {A} (e : exn) : M A := λ st, (st, Raise e).

Definition load (l : loc) : M tensor := λ st,
  match st_heap st !! l with
  | Some t => (st, Ok t)
  | None => (st, Raise RuntimeError)
  end.

Definition alloc (t : tensor) : M loc := λ st,
  let l := fresh (dom (st_heap st)) in
  (mkState (<[l := t]> (st_heap st)) (st_trace st), Ok l).

Definition log (e : event) : M unit := λ st,
  (mkState (st_heap st) (st_trace st ++ [e]), Ok tt).

(** [t.detach().clone()]: [detach] shares the storage of [t], [clone]
    copies it into a new tensor. *)
Definition detach_clone (l : loc) : M loc :=
  t ← load l;
  alloc t.

(** *** Estimators

    What [forward] calls for each target: a callable that is handed a
    tensor object and returns one. It may write into the store. *)
Record estimator : Type := mkEstimator {
  estimate : loc → gmap nat tensor → gmap nat tensor * result loc;
}.

(** An estimator touches, among the tensors that exist when it is
    called, at most its argument. *)
Definition frame_ok (e : estimator) : Prop :=
  ∀ arg h h' r, estimate e arg h = (h', r) →
    ∀ l, l ≠ arg → is_Some (h !! l) → h' !! l = h !! l.

(** An [OpenUnmix] module as an estimator: [OpenUnmix.forward] reads its
    input and returns a new tensor. *)
Definition module_estimator (tanh : Q → Q) (m : OpenUnmix.t) : estimator :=
  mkEstimator (λ arg h,
    match h !! arg with
    | None => (h, Raise RuntimeError)
    | Some x =>
        match OpenUnmix.forward tanh m x with
        | Ok y => let l := fresh (dom h) in (<[l := y]> h, Ok l)
        | Raise e => (h, Raise e)
        end
    end).

Definition run_estimator (e : estimator) (arg : loc) : M loc := λ st,
  let '(h', r) := estimate e arg (st_heap st) in
  (mkState h' (st_trace st), r).

Definition call_estimator (target : string) (e : estimator) (arg : loc) : M loc :=
  seen ← load arg;
  _ ← log (EvEstimate target arg seen);
  run_estimator e arg.

(** *** Dictionaries with insertion order *)

Fixpoint dict_set {V} (k : string) (v : V) (d : list (string * V))
  : list (string * V) :=
  match d with
  | [] => [(k, v)]
  | (k', v') :: rest =>
      if decide (k' = k) then (k, v) :: rest
      else (k', v') :: dict_set k v rest
  end.

Fixpoint dict_get {V} (k : string) (d : list (string * V)) : result V :=
  match d with
  | [] => Raise KeyError
  | (k', v) :: rest => if decide (k' = k) then Ok v else dict_get k rest
  end.

Definition dict_keys {V} (d : list (string * V)) : list string := d.*1.

(** *** The separator object *)

(** The part of the configuration that the class reads; the sample rate
    and the channel count are set by the base class. *)
Record config : Type := mkConfig {
  sample_rate : Q;
  num_channels : nat;
  stft_window_size : Z;
  stft_hop_size : Z;
  stft_center : bool;
  audio_mono : bool;
  model_bandwidth : Q;
  train_hidden_size : nat;
}.

Record UMXSeparator : Type := mkUMXSeparator {
  _model_cfg : config;
  _residual : bool;
  _window_size : Z;
  _hop_size : Z;
  _max_freq_bins : Z;
  _wiener_win_len : option Z;
  _num_iter : Z;
  _softmask : bool;
  _target_models : list (string * estimator);
}.

(** [UMXSeparator.__init__]; the defaults are [residual=True],
    [wiener_win_len=300], [num_iter=0], [softmask=False]. *)
Definition init (model_cfg : config) (residual : bool)
    (wiener_win_len : option Z) (num_iter : Z) (softmask : bool)
  : result UMXSeparator :=
  max_freq_bins ← Bandwidth.bandwidth_to_max_bin
                    (sample_rate model_cfg) (stft_window_size model_cfg)
                    (model_bandwidth model_cfg);
  Ok {| _model_cfg := model_cfg;
        _residual := residual;
        _window_size := stft_window_size model_cfg;
        _hop_size := stft_hop_size model_cfg;
        _max_freq_bins := max_freq_bins;
        _wiener_win_len := wiener_win_len;
        _num_iter := num_iter;
        _softmask := softmask;
        _target_models := [] |}.

Definition set_target_models (self : UMXSeparator)
    (d : list (string * estimator)) : UMXSeparator :=
  {| _model_cfg := _model_cfg self; _residual := _residual self;
     _window_size := _window_size self; _hop_size := _hop_size self;
     _max_freq_bins := _max_freq_bins self;
     _wiener_win_len := _wiener_win_len self; _num_iter := _num_iter self;
     _softmask := _softmask self; _target_models := d |}.

Section Collaborators.

(** [torch.tanh] on one entry, the initial layer values of a new module,
    and the states stored under [<target>_best.pth] in the model
    directory. *)
Variable tanh : Q → Q.
Variable fresh_weights : OpenUnmix.Weights.
Variable torch_load : string → option OpenUnmix.state_dict.

(** The transforms made by [make_filterbanks], [ComplexNorm] and the
    [wiener] filter of the signal-processing package. *)
Variable stft : tensor → tensor.
Variable istft : tensor → nat → tensor.
Variable complexnorm : tensor → tensor.
Variable wiener : tensor → tensor → Z → bool → bool → tensor.

(** The body of the loop of [load_model]. *)
Fixpoint load_targets (self : UMXSeparator) (targets : list string)
    (target_models : list (string * estimator))
  : result (list (string * estimator)) :=
  match targets with
  | [] => Ok target_models
  | target :: rest =>
      let target_unmix :=
        OpenUnmix.init fresh_weights
          (Z.to_nat (_window_size self / 2 + 1))
          (num_channels (_model_cfg self))
          (train_hidden_size (_model_cfg self))
          3 false None None
          (Some (Z.to_nat (_max_freq_bins self))) in
      match torch_load target with
      | None => Raise OSError
      | Some state_dict =>
          let target_unmix := OpenUnmix.load_state_dict target_unmix state_dict in
          let target_unmix := OpenUnmix.eval target_unmix in
          load_targets self rest
            (dict_set target (module_estimator tanh target_unmix) target_models)
      end
  end.

(** [UMXSeparator.load_model]; [targets=None] stands for
    [['piano', 'orch']]. *)
Definition load_model (self : UMXSeparator) (targets : option (list string))
  : result UMXSeparator :=
  let targets :=
    match targets with
    | None => ["piano"; "orch"]%string
    | Some l => l
    end in
  target_models ← load_targets self targets [];
  Ok (set_target_models self target_models).

(** Lines 249-253 of [forward]: the loop over the targets. *)
Fixpoint estimate_targets (self : UMXSeparator) (X : loc) (j : nat)
    (names : list string) (spectrograms : tensor) : M tensor :=
  match names with
  | [] => mret spectrograms
  | target_name :: rest =>
      target_module ← lift (dict_get target_name (_target_models self));
      (* apply current model to get the source spectrogram *)
      arg ← detach_clone X;
      out ← call_estimator target_name target_module arg;
      target_spectrogram ← load out;
      spectrograms ← lift (setitem_last j spectrograms target_spectrogram);
      estimate_targets self X (S j) rest spectrograms
  end.

(** What the first half of [forward] hands to the second. *)
Record prepared : Type := mkPrepared {
  p_mix : tensor;
  p_nb_samples : nat;
  p_nb_sources : nat;
  p_spectrograms : tensor;
  p_mix_stft : tensor;
}.

(** Lines 235-262 of [forward]: transform, magnitude, per-target
    estimation and the two transpositions. *)
Definition forward_front (self : UMXSeparator) (mix : loc) : M prepared :=
  mixv ← load mix;
  let nb_sources := length (_target_models self) in
  nb_samples ← lift (size 0 mixv);
  (* getting the STFT of mix *)
  let mix_stft := stft mixv in
  X ← alloc (complexnorm mix_stft);
  Xv ← load X;
  (* initializing spectrograms variable *)
  let spectrograms := zeros (shape Xv ++ [nb_sources]) in
  spectrograms ← estimate_targets self X 0 (dict_keys (_target_models self))
                   spectrograms;
  (* (nb_samples, nb_frames, nb_bins, {1,nb_channels}, nb_sources) *)
  spectrograms ← lift (permute [0; 3; 2; 1; 4]%nat spectrograms);
  (* (nb_samples, nb_frames, nb_bins, nb_channels, 2) *)
  mix_stft ← lift (permute [0; 3; 2; 1; 4]%nat mix_stft);
  mret (mkPrepared mixv nb_samples nb_sources spectrograms mix_stft).

(** [torch.arange(pos, stop)] for [pos >= 0]. *)
Definition arange (pos : nat) (stop : Z) : list nat :=
  seq pos (Z.to_nat (stop - Z.of_nat pos)).

(** Lines 289-299: the [while] loop over the frames of one sample. At
    most [fuel] iterations are made. *)
Fixpoint wiener_loop (fuel : nat) (self : UMXSeparator) (p : prepared)
    (sample nb_frames : nat) (wiener_win_len : Z) (pos : nat)
    (targets_stft : tensor) : M tensor :=
  if (pos <? nb_frames)%nat then
    match fuel with
    | O => raise OutOfFuel
    | S fuel =>
        let cur_frame :=
          arange pos (Z.min (Z.of_nat nb_frames)
                            (Z.of_nat pos + wiener_win_len)) in
        match last cur_frame with
        | None => raise IndexError
        | Some l =>
            let pos := (l + 1)%nat in
            s ← lift (getitem_frames sample cur_frame (p_spectrograms p));
            m ← lift (getitem_frames sample cur_frame (p_mix_stft p));
            _ ← log (EvWiener sample cur_frame (List.last (shape s) 0%nat)
                              (_num_iter self) (_softmask self) (_residual self));
            let w := wiener s m (_num_iter self) (_softmask self)
                            (_residual self) in
            targets_stft ← lift (setitem_frames sample cur_frame targets_stft w);
            wiener_loop fuel self p sample nb_frames wiener_win_len pos
                        targets_stft
        end
    end
  else mret targets_stft.

(** Lines 283-299: the loop over the samples. *)
Fixpoint refine_samples (self : UMXSeparator) (p : prepared)
    (nb_frames : nat) (samples : list nat) (targets_stft : tensor) : M tensor :=
  match samples with
  | [] => mret targets_stft
  | sample :: rest =>
      let pos := 0%nat in
      let wiener_win_len :=
        match _wiener_win_len self with
        | Some w => w
        | None => Z.of_nat nb_frames
        end in
      targets_stft ← wiener_loop nb_frames self p sample nb_frames
                       wiener_win_len pos targets_stft;
      refine_samples self p nb_frames rest targets_stft
  end.

(** The source count after line 267. *)
Definition effective_sources (self : UMXSeparator) : nat :=
  if _residual self
  then (length (_target_models self) + 1)%nat
  else length (_target_models self).

(** Lines 264-307 of [forward]. *)
Definition forward_back (self : UMXSeparator) (p : prepared)
  : M (tensor * tensor) :=
  (* create an additional target if we need to build a residual *)
  let nb_sources :=
    if _residual self then (p_nb_sources p + 1)%nat else p_nb_sources p in
  if (nb_sources =? 1)%nat && (0 <? _num_iter self) then raise CannotUseEM
  else
    nb_frames ← lift (size 1 (p_spectrograms p));
    let targets_stft := zeros (shape (p_mix_stft p) ++ [nb_sources]) in
    targets_stft ← refine_samples self p nb_frames
                     (seq 0 (p_nb_samples p)) targets_stft;
    (* (nb_samples, nb_targets, channel, fft_size, n_frames, 2) *)
    targets_stft ← lift (permute [0; 5; 3; 2; 1; 4]%nat targets_stft);
    (* inverse STFT *)
    length ← lift (size 2 (p_mix p));
    let estimates := istft targets_stft length in
    mret (estimates, targets_stft).

(** [UMXSeparator.forward]. *)
Definition forward (self : UMXSeparator) (mix : loc) : M (tensor * tensor) :=
  p ← forward_front self mix;
  forward_back self p.

(** [estimates[k, :, ...]] and [estimates[-1, :, ...]]: the slice over
    the second axis needs a tensor of at least two axes. *)
Definition slice_target (k : nat) (estimates : tensor) : result tensor :=
  if (2 <=? ndim estimates)%nat then index0 k estimates else Raise IndexError.

Definition slice_last (estimates : tensor) : result tensor :=
  if (2 <=? ndim estimates)%nat then index_last0 estimates else Raise IndexError.

(** Lines 320-322 of [to_dict]. *)
Fixpoint per_target (k : nat) (names : list string) (estimates : tensor)
    (estimates_dict : gmap string tensor) : result (gmap string tensor) :=
  match names with
  | [] => Ok estimates_dict
  | target :: rest =>
      e ← slice_target k estimates;
      per_target (S k) rest estimates (<[target := e]> estimates_dict)
  end.

(** Lines 331-333: the sum for one key. *)
Fixpoint sum_targets (estimates_dict : gmap string tensor)
    (names : list string) (acc : tensor) : result tensor :=
  match names with
  | [] => Ok acc
  | target :: rest =>
      e ← match estimates_dict !! target with
          | Some e => Ok e
          | None => Raise KeyError
          end;
      acc ← add acc e;
      sum_targets estimates_dict rest acc
  end.

(** Lines 329-334: the loop over the keys of the aggregation. *)
Fixpoint aggregate (estimates_dict : gmap string tensor)
    (items : list (string * list string))
    (new_estimates : gmap string tensor) : result (gmap string tensor) :=
  match items with
  | [] => Ok new_estimates
  | (key, names) :: rest =>
      v ← sum_targets estimates_dict names (scalar 0);
      aggregate estimates_dict rest (<[key := v]> new_estimates)
  end.

(** [UMXSeparator.to_dict]. *)
Definition to_dict (self : UMXSeparator) (estimates : tensor)
    (aggregate_dict : option (gmap string (list string)))
  : result (gmap string tensor) :=
  estimates_dict ← per_target 0 (dict_keys (_target_models self)) estimates ∅;
  (* in the case of residual, we added another source *)
  estimates_dict ←
    (if _residual self
     then e ← slice_last estimates; Ok (<["residual"%string := e]> estimates_dict)
     else Ok estimates_dict);
  match aggregate_dict with
  | Some aggregate_dict =>
      aggregate estimates_dict (map_to_list aggregate_dict) ∅
  | None => Ok estimates_dict
  end.

(** [UMXSeparator.separate]. *)
Definition separate (self : UMXSeparator) (mix : loc)
  : M (gmap string tensor) :=
  '(estimates, _) ← forward self mix;
  lift (to_dict self (squeeze0 estimates) None).

End Collaborators.

(** *** Concrete collaborators

    Stand-ins with the shapes documented in [forward], used to run the
    model: the transform keeps one frame per time step and three bins,
    the filter returns one slice per source (one more with the
    residual), the inverse transform reads one entry per source. *)

Definition sample_stft (mix : tensor) : tensor :=
  match shape mix with
  | [s; c; t] => OpenUnmix.all_ones [s; c; 3; t; 2]%nat
  | _ => zeros []
  end.

Definition sample_complexnorm (y : tensor) : tensor :=
  match shape y with
  | [s; c; b; f; _] => OpenUnmix.all_ones [s; c; b; f]
  | _ => zeros []
  end.

Definition sample_wiener (v x : tensor) (num_iter : Z) (softmask residual : bool)
  : tensor :=
  match shape v, shape x with
  | [k; b; _; n], [_; _; c; two] =>
      mk [k; b; c; two; if residual then (n + 1)%nat else n]
         (λ idx, inject_Z (Z.of_nat (List.last idx 0%nat)) + 1)%Q
  | _, _ => zeros []
  end.

Definition sample_istft (y : tensor) (length : nat) : tensor :=
  match shape y with
  | [s; n; c; _; _; _] =>
      mk [s; n; c; length]
         (λ idx, match idx with
                 | [i; j; k; _] => at_ y [i; j; k; 0; 0; 0]%nat
                 | _ => 0%Q
                 end)
  | _ => zeros []
  end.

(** An estimator that overwrites the tensor it is given and returns
    it. *)
Definition scribbler : estimator :=
  mkEstimator (λ arg h,
    match h !! arg with
    | Some x => (<[arg := zeros (shape x)]> h, Ok arg)
    | None => (h, Raise RuntimeError)
    end).

Definition sample_config : config :=
  {| sample_rate := 8000; num_channels := 2; stft_window_size := 4;
     stft_hop_size := 1; stft_center := true; audio_mono := false;
     model_bandwidth := 2000; train_hidden_size := 4%nat |}.

Definition sample_torch_load (target : string) : option OpenUnmix.state_dict :=
  Some OpenUnmix.sample_state.

(** A separator as [__init__] and [load_model] build it. *)
Definition sample_separator (residual : bool) (wiener_win_len : option Z)
    (num_iter : Z) (targets : option (list string)) : result UMXSeparator :=
  self ← init sample_config residual wiener_win_len num_iter false;
  load_model OpenUnmix.sample_tanh OpenUnmix.sample_weights sample_torch_load
             self targets.

(** The store holding a mixture of one sample, two channels and six time
    steps at location 0. *)
Definition sample_state : state :=
  mkState {[ 0%nat := OpenUnmix.all_ones [1; 2; 6]%nat ]} [].

Definition sample_forward (self : UMXSeparator) : M (tensor * tensor) :=
  forward sample_stft sample_istft sample_complexnorm sample_wiener self 0%nat.

(** *** What the statements about the separator are made of *)

Local Open Scope nat_scope.

(** Separators and data to run the model on: the separator of the
    samples above (falling back to an empty one should its construction
    raise), one whose two estimators overwrite their argument, operands
    for the refinement loops and a stack of three estimates. *)
Definition fallback_separator : UMXSeparator :=
  mkUMXSeparator sample_config true 4 1 2 (Some 300%Z) 0 false [].

Definition sample_self (residual : bool) (wiener_win_len : option Z)
    (num_iter : Z) (targets : option (list string)) : UMXSeparator :=
  match sample_separator residual wiener_win_len num_iter targets with
  | Ok self => self
  | Raise _ => fallback_separator
  end.

Definition scribbling_separator : UMXSeparator :=
  set_target_models (sample_self true (Some 4%Z) 0 None)
                    [("piano"%string, scribbler); ("orch"%string, scribbler)].

Definition sample_prepared : prepared :=
  mkPrepared (OpenUnmix.all_ones [1; 2; 6]) 1 2
             (zeros [1; 6; 3; 2; 2]) (zeros [1; 6; 3; 2; 2]).

Definition sample_estimates : tensor :=
  mk [3; 2; 6] (λ idx, inject_Z (Z.of_nat (hd 0 idx))).

(** The state only grows at fresh locations, as far as the tensors that
    existed in [st] are concerned. *)
Definition preserves (st st' : state) : Prop :=
  ∀ l, is_Some (st_heap st !! l) → st_heap st' !! l = st_heap st !! l.

(** The calls made by the loop over the targets: one per target name, in
    order, each on its own new tensor and each seeing [Xv]. *)
Definition estimate_events (Xv : tensor) (names : list string) (args : list loc)
  : list event :=
  zip_with (λ name arg, EvEstimate name arg Xv) names args.

(** The errors of the tensor operations are index and shape errors. *)
Definition tensor_error (e : exn) : Prop := e = IndexError ∨ e = RuntimeError.

(** The event logged for the chunk [cur_frame] of [sample]. *)
Definition wiener_event (self : UMXSeparator) (p : prepared) (sample : nat)
    (cur_frame : list nat) : event :=
  EvWiener sample cur_frame
           (List.last (length cur_frame :: drop 2 (shape (p_spectrograms p))) 0)
           (_num_iter self) (_softmask self) (_residual self).

(** The chunks of frame numbers that the [while] loop goes through from
    [pos] on, as long as no step raises. *)
Fixpoint chunking (fuel nb_frames : nat) (wiener_win_len : Z) (pos : nat)
  : list (list nat) :=
  if (pos <? nb_frames)%nat then
    match fuel with
    | O => []
    | S fuel =>
        let cur_frame :=
          arange pos (Z.min (Z.of_nat nb_frames)
                            (Z.of_nat pos + wiener_win_len)) in
        match last cur_frame with
        | None => []
        | Some l => cur_frame :: chunking fuel nb_frames wiener_win_len (l + 1)
        end
    end
  else [].

(** [chunks] cuts the frame numbers from [pos] up to [nb_frames] into
    consecutive non-empty pieces of [w] frames each, the last one
    possibly shorter. *)
Definition is_chunking_from (pos nb_frames : nat) (w : Z)
    (chunks : list (list nat)) : Prop :=
  concat chunks = seq pos (nb_frames - pos) ∧
  Forall (λ c, c ≠ []) chunks ∧
  ∀ i c, chunks !! i = Some c →
         (Z.of_nat (length c) ≤ w)%Z ∧
         (S i < length chunks → Z.of_nat (length c) = w).

(** The operands of the refinement loops have the shapes documented in
    [forward], and the filter returns one slice per source for the
    frames it is given. *)
Record refinable (wiener : tensor → tensor → Z → bool → bool → tensor)
    (self : UMXSeparator) (p : prepared) (nb_samples nb_frames : nat)
    (rest_s rest_m : list nat)
    (nsrc : nat) : Prop := {
  rf_spectrograms : shape (p_spectrograms p) = nb_samples :: nb_frames :: rest_s;
  rf_mix_stft : shape (p_mix_stft p) = nb_samples :: nb_frames :: rest_m;
  rf_wiener : ∀ s m k,
    shape s = k :: rest_s → shape m = k :: rest_m →
    shape (wiener s m (_num_iter self) (_softmask self) (_residual self))
    = k :: rest_m ++ [nsrc];
}.

(** The events of the whole refinement: for each sample in turn, one call
    per chunk. *)
Definition refinement_events (self : UMXSeparator) (p : prepared)
    (samples : list nat) (chunks : list (list nat)) : list event :=
  concat (map (λ sample, map (wiener_event self p sample) chunks) samples).

(** An event is a call to an estimator. *)
Definition is_estimate (ev : event) : Prop :=
  match ev with
  | EvEstimate _ _ _ => True
  | EvWiener _ _ _ _ _ _ => False
  end.

(** An event is a call to the filter made by the refinement of [p]. *)
Definition is_wiener_of (self : UMXSeparator) (p : prepared) (ev : event) : Prop :=
  ∃ sample cur, ev = wiener_event self p sample cur.

(** The sum, entry by entry, of the tensors [ts], starting from 0. *)
Definition elementwise_sum (ts : list tensor) (idx : list nat) : Q :=
  fold_left Qplus (map (λ t, at_ t idx) ts) 0%Q.

(** The module that [load_model] builds for a target whose stored state
    is [sd]. *)
Definition restored (fresh_weights : OpenUnmix.Weights) (self : UMXSeparator)
    (sd : OpenUnmix.state_dict) : OpenUnmix.t :=
  OpenUnmix.eval
    (OpenUnmix.load_state_dict
       (OpenUnmix.init fresh_weights
          (Z.to_nat (_window_size self / 2 + 1))
          (num_channels (_model_cfg self))
          (train_hidden_size (_model_cfg self))
          3 false None None
          (Some (Z.to_nat (_max_freq_bins self))))
       sd).

(** Given a tensor object holding [Xv], the estimator returns a tensor of
    the shape of [Xv]. *)
Definition estimates_like (e : estimator) (Xv : tensor) : Prop :=
  ∀ h arg, h !! arg = Some Xv →
    ∃ h' out y, estimate e arg h = (h', Ok out) ∧ h' !! out = Some y ∧
                shape y = shape Xv.

(** Given a tensor object holding [Xv], the estimator returns a tensor
    object holding [y]. *)
Definition returns (e : estimator) (Xv y : tensor) : Prop :=
  ∀ h arg, h !! arg = Some Xv →
    ∃ h' out, estimate e arg h = (h', Ok out) ∧ h' !! out = Some y.

(** The shapes documented in [forward]: a mixture
    [(nb_samples, nb_channels, nb_timesteps)], its transform
    [(nb_samples, nb_channels, nb_bins, nb_frames, 2)], the magnitude
    [(nb_samples, {1, nb_channels}, nb_bins, nb_frames)], estimators that
    keep the shape of the magnitude and touch no other tensor, and a
    filter that returns one slice per source. *)
Record shapes_fit (stft : tensor → tensor) (complexnorm : tensor → tensor)
    (wiener : tensor → tensor → Z → bool → bool → tensor)
    (self : UMXSeparator) (mixv : tensor) (S C C' B F T : nat) : Prop := {
  sf_mix : shape mixv = [S; C; T];
  sf_stft : shape (stft mixv) = [S; C; B; F; 2];
  sf_norm : shape (complexnorm (stft mixv)) = [S; C'; B; F];
  sf_estimators : ∀ name e, (name, e) ∈ _target_models self →
    frame_ok e ∧ estimates_like e (complexnorm (stft mixv));
  sf_wiener : ∀ s m k,
    shape s = [k; B; C'; length (_target_models self)] →
    shape m = [k; B; C; 2] →
    shape (wiener s m (_num_iter self) (_softmask self) (_residual self))
    = [k; B; C; 2; effective_sources self];
}.

(** The calls to the filter made by the refinement: for each sample in
    turn, one per chunk. *)
Definition filter_events (self : UMXSeparator) (samples : list nat)
    (chunks : list (list nat)) : list event :=
  concat (map (λ sample,
                 map (λ cur, EvWiener sample cur (length (_target_models self))
                                      (_num_iter self) (_softmask self)
                                      (_residual self))
                     chunks)
              samples).

(** The chunk length used by the loop over the frames (lines 285-288). *)
Definition window (self : UMXSeparator) (nb_frames : nat) : Z :=
  match _wiener_win_len self with
  | Some w => w
  | None => Z.of_nat nb_frames
  end.

End UMX.

(* ===================================================================== *)
(** * Properties *)
(* ===================================================================== *)

(** ** Bandwidth limiter *)

Module BandwidthFacts.
Import Bandwidth.

Lemma elem_of_where_le_from (freqs : list Q) bw k i :
  i ∈ where_le_from k freqs bw ↔
  (k ≤ i)%nat ∧ ∃ f, freqs !! (i - k)%nat = Some f ∧ (f <= bw)%Q.
Proof.
  revert k. induction freqs as [|f0 rest IH]; intros k; simpl.
  - split; [intros H; inversion H | intros (_ & f & Hf & _); discriminate].
  - destruct (Qle_bool f0 bw) eqn:E.
    + rewrite elem_of_cons, IH. split.
      * intros [-> | (Hk & f & Hf & Hle)].
        -- split; [lia|]. exists f0. rewrite Nat.sub_diag. simpl.
           split; [done | by apply Qle_bool_iff].
        -- split; [lia|]. exists f. split; [|done].
           replace (i - k)%nat with (S (i - S k)) by lia. done.
      * intros (Hk & f & Hf & Hle).
        destruct (decide (i = k)) as [->|Hne]; [by left | right].
        split; [lia|]. exists f. split; [|done].
        replace (i - k)%nat with (S (i - S k)) in Hf by lia. done.
    + rewrite IH. split.
      * intros (Hk & f & Hf & Hle). split; [lia|]. exists f. split; [|done].
        replace (i - k)%nat with (S (i - S k)) by lia. done.
      * intros (Hk & f & Hf & Hle).
        destruct (decide (i = k)) as [->|Hne].
        -- rewrite Nat.sub_diag in Hf. simpl in Hf. injection Hf as <-.
           apply Qle_bool_iff in Hle. congruence.
        -- split; [lia|]. exists f. split; [|done].
           replace (i - k)%nat with (S (i - S k)) in Hf by lia. done.
Qed.

Lemma elem_of_where_le (freqs : list Q) bw i :
  i ∈ where_le freqs bw ↔ ∃ f, freqs !! i = Some f ∧ (f <= bw)%Q.
Proof.
  unfold where_le. rewrite elem_of_where_le_from, Nat.sub_0_r.
  split; [intros [_ H]; done | intros H; split; [lia | done]].
Qed.

Lemma fold_max_ge (l : list nat) a : (a ≤ fold_left Nat.max l a)%nat.
Proof.
  revert a. induction l as [|x l IH]; intros a; simpl; [lia|].
  specialize (IH (Nat.max a x)). lia.
Qed.

Lemma fold_max_elem (l : list nat) a :
  fold_left Nat.max l a = a ∨ fold_left Nat.max l a ∈ l.
Proof.
  revert a. induction l as [|x l IH]; intros a; simpl; [by left|].
  destruct (IH (Nat.max a x)) as [H | H].
  - rewrite H. destruct (Nat.max_spec a x) as [[_ ->] | [_ ->]].
    + right. by left.
    + by left.
  - right. by right.
Qed.

Lemma fold_max_upper (l : list nat) a j :
  j ∈ l → (j ≤ fold_left Nat.max l a)%nat.
Proof.
  revert a. induction l as [|x l IH]; intros a Hj; simpl.
  - inversion Hj.
  - apply elem_of_cons in Hj as [-> | Hj].
    + pose proof (fold_max_ge l (Nat.max a x)). lia.
    + by apply IH.
Qed.

(** [np.max] returns the greatest element, and fails exactly on the empty
    array. *)
Lemma np_max_greatest (l : list nat) m :
  np_max l = Ok m ↔ m ∈ l ∧ ∀ j, j ∈ l → (j ≤ m)%nat.
Proof.
  destruct l as [|a l]; simpl.
  - split; [discriminate | intros [H _]; inversion H].
  - split.
    + intros [= <-]. split.
      * destruct (fold_max_elem l a) as [-> | H]; [by left | by right].
      * intros j [-> | Hj]%elem_of_cons;
          [apply fold_max_ge | by apply fold_max_upper].
    + intros [Hm Hup]. f_equal. apply Nat.le_antisymm.
      * apply Hup. destruct (fold_max_elem l a) as [-> | H]; [by left | by right].
      * apply elem_of_cons in Hm as [-> | Hm];
          [apply fold_max_ge | by apply fold_max_upper].
Qed.

Lemma np_max_nonempty (l : list nat) i : i ∈ l → ∃ m, np_max l = Ok m.
Proof. destruct l; [intros H; inversion H | simpl; eauto]. Qed.

(** The grid for at least two samples: [num - 1] evenly spaced points
    followed by the end point itself. *)
Lemma linspace_two_or_more start stop num :
  1 < num →
  linspace start stop num =
  Ok (map (fun i : nat =>
             (inject_Z (Z.of_nat i) * ((stop - start) / inject_Z (num - 1)) + start)%Q)
          (seq 0 (Z.to_nat num - 1)) ++ [stop]).
Proof.
  intros Hnum. unfold linspace, arange0.
  destruct (num <? 0) eqn:E0; [lia|].
  destruct (1 <? num) eqn:E1; [|lia].
  destruct (0 <? num - 1) eqn:E2; [|lia].
  f_equal.
  replace (Z.to_nat num) with (S (Z.to_nat num - 1)) at 1 by lia.
  rewrite seq_S, map_app. simpl.
  unfold set_last.
  destruct (map _ (seq 0 (Z.to_nat num - 1)) ++ [_]) eqn:Hl.
  - by destruct (map _ (seq 0 (Z.to_nat num - 1))).
  - rewrite <- Hl. by rewrite removelast_last.
Qed.

Lemma linspace_one start stop :
  linspace start stop 1 = Ok [(inject_Z 0 * (stop - start) + start)%Q].
Proof. reflexivity. Qed.

Lemma linspace_zero start stop : linspace start stop 0 = Ok [].
Proof. reflexivity. Qed.

Lemma linspace_negative start stop num :
  num < 0 → linspace start stop num = Raise ValueError.
Proof. intros H. unfold linspace. destruct (num <? 0) eqn:E; [done | lia]. Qed.

Lemma linspace_length start stop num freqs :
  linspace start stop num = Ok freqs → length freqs = Z.to_nat num.
Proof.
  destruct (Z_lt_le_dec 1 num) as [H|H].
  - rewrite linspace_two_or_more by done. intros [= <-].
    rewrite length_app, length_map, length_seq. simpl. lia.
  - destruct (Z_lt_le_dec num 0) as [H0|H0].
    + by rewrite linspace_negative.
    + assert (num = 0 ∨ num = 1) as [-> | ->] by lia; intros [= <-]; done.
Qed.

(** Every sample of a grid of at least two points sits at [j] steps from
    the start. *)
Lemma linspace_lookup_even start stop num freqs j f :
  1 < num →
  linspace start stop num = Ok freqs →
  freqs !! j = Some f →
  (f == inject_Z (Z.of_nat j) * ((stop - start) / inject_Z (num - 1)) + start)%Q.
Proof.
  intros Hnum. rewrite linspace_two_or_more by done. intros [= <-] Hj.
  apply lookup_app_Some in Hj as [Hj | [Hlen Hj]].
  - apply list_lookup_fmap_Some_1 in Hj as (i & -> & Hi).
    apply lookup_seq in Hi as [-> _]. simpl. reflexivity.
  - rewrite length_map, length_seq in Hlen, Hj.
    apply list_lookup_singleton_Some in Hj as [Hj <-].
    assert (Z.of_nat j = num - 1) as -> by lia.
    assert (~ inject_Z (num - 1) == 0)%Q.
    { intros Heq. unfold Qeq in Heq. simpl in Heq. lia. }
    field. done.
Qed.


Lemma linspace_lookup_first start stop num freqs :
  1 < num →
  linspace start stop num = Ok freqs →
  ∃ f, freqs !! 0%nat = Some f ∧ (f == start)%Q.
Proof.
  intros Hnum Hl.
  assert (0 < length freqs)%nat as Hlen.
  { rewrite (linspace_length _ _ _ _ Hl). lia. }
  apply lookup_lt_is_Some_2 in Hlen as [f Hf]. exists f. split; [done|].
  rewrite (linspace_lookup_even _ _ _ _ _ _ Hnum Hl Hf). simpl.
  unfold inject_Z. ring.
Qed.

(** With a non-negative end point no sample of the grid starting at 0 is
    negative. *)
Lemma linspace_from_zero_nonneg stop num freqs f :
  (0 <= stop)%Q →
  linspace 0 stop num = Ok freqs →
  f ∈ freqs → (0 <= f)%Q.
Proof.
  intros Hstop Hl [j Hj]%list_elem_of_lookup.
  destruct (Z_lt_le_dec 1 num) as [H|H].
  - rewrite (linspace_lookup_even _ _ _ _ _ _ H Hl Hj).
    assert (0 < inject_Z (num - 1))%Q.
    { unfold Qlt. simpl. lia. }
    assert (0 <= (stop - 0) / inject_Z (num - 1))%Q.
    { apply Qle_shift_div_l; [done | lra]. }
    assert (0 <= inject_Z (Z.of_nat j))%Q.
    { unfold Qle. simpl. lia. }
    assert (0 <= inject_Z (Z.of_nat j) * ((stop - 0) / inject_Z (num - 1)))%Q
      by (by apply Qmult_le_0_compat).
    lra.
  - destruct (Z_lt_le_dec num 0) as [H0|H0].
    + by rewrite linspace_negative in Hl.
    + assert (num = 0 ∨ num = 1) as [-> | ->] by lia;
        injection Hl as <-; [done|].
      destruct j; [|done]. injection Hj as <-.
      unfold inject_Z. unfold Qle. simpl. lia.
Qed.




(** C10: with a non-negative sample rate and a bandwidth strictly below 0
    no grid frequency passes the threshold: the index set is empty and
    the maximum over it raises, so no bin index is returned. *)
Theorem bandwidth_to_max_bin_negative_bandwidth (rate : Q) (n_fft : Z) (bandwidth : Q) :
  (0 <= rate)%Q → (bandwidth < 0)%Q →
  bandwidth_to_max_bin rate n_fft bandwidth = Raise ValueError ∧
  (0 ≤ n_fft / 2 + 1 →
   ∃ freqs, linspace 0 (rate / 2) (n_fft / 2 + 1) = Ok freqs ∧
            length freqs = Z.to_nat (n_fft / 2 + 1) ∧
            (∀ f, f ∈ freqs → (0 <= f)%Q) ∧
            where_le freqs bandwidth = [] ∧
            np_max (where_le freqs bandwidth) = Raise ValueError).
Proof.
  intros Hrate Hbw.
  assert (0 <= rate / 2)%Q as Hstop.
  { apply Qle_shift_div_l; [reflexivity | lra]. }
  assert (∀ freqs, linspace 0 (rate / 2) (n_fft / 2 + 1) = Ok freqs →
                   where_le freqs bandwidth = []) as Hempty.
  { intros freqs Hg. apply elem_of_nil_inv. intros i Hi.
    apply elem_of_where_le in Hi as (f & Hf & Hle).
    pose proof (linspace_from_zero_nonneg _ _ _ f Hstop Hg
                  (list_elem_of_lookup_2 _ _ _ Hf)).
    lra. }
  split.
  - unfold bandwidth_to_max_bin.
    destruct (linspace 0 (rate / 2) (n_fft / 2 + 1)) as [freqs|e] eqn:Hg.
    + simpl. by rewrite (Hempty freqs eq_refl).
    + unfold linspace in Hg. by destruct (_ <? 0); inversion Hg.
  - intros Hnum.
    destruct (linspace 0 (rate / 2) (n_fft / 2 + 1)) as [freqs|e] eqn:Hg.
    + exists freqs. split; [done|].
      split; [by apply (linspace_length _ _ _ _ Hg)|].
      split; [intros f; by apply (linspace_from_zero_nonneg _ _ _ f Hstop Hg)|].
      rewrite (Hempty freqs eq_refl). done.
    + exfalso. unfold linspace in Hg.
      destruct (_ <? 0) eqn:E; [lia | inversion Hg].
Qed.

Lemma bandwidth_to_max_bin_negative_bandwidth_witness :
  bandwidth_to_max_bin 8000 1024 (-1) = Raise ValueError.
Proof.
  apply (bandwidth_to_max_bin_negative_bandwidth 8000 1024 (-1));
    [discriminate | reflexivity].
Defined.

(** A negative sample rate turns the grid around: a negative bandwidth
    then selects bins. *)
Example bandwidth_to_max_bin_negative_rate :
  bandwidth_to_max_bin (-8000) 1024 (-1) = Ok 513.
Proof. vm_compute. reflexivity. Qed.

End BandwidthFacts.

(** ** Tensors *)

Module TensorFacts.
Import Tensor.

Lemma in_bounds_reverse s idx :
  in_bounds s idx ↔ in_bounds (reverse s) (reverse idx).
Proof.
  unfold in_bounds. split; intros H.
  - by apply Forall2_reverse.
  - apply Forall2_reverse in H. by rewrite !reverse_involutive in H.
Qed.

(** Reading an operand at the broadcast index stays within its shape. *)
Lemma broadcast_rev_in_bounds_r a b s idx :
  broadcast_rev a b = Some s →
  Forall2 lt idx s →
  Forall2 lt (zip_with (fun d i => if (d =? 1)%nat then 0%nat else i) b idx) b.
Proof.
  revert b s idx. induction a as [|x a IH]; intros b s idx Hb Hidx.
  - destruct b; simpl in Hb; injection Hb as <-.
    + constructor.
    + clear -Hidx. induction Hidx as [|i d idx s Hi _ IH']; simpl; [constructor|].
      constructor; [|done]. destruct (d =? 1)%nat eqn:E; [|done].
      apply Nat.eqb_eq in E. lia.
  - destruct b as [|y b]; [constructor|]. simpl in Hb.
    assert (∃ s', broadcast_rev a b = Some s' ∧
                  ∃ d, s = d :: s' ∧ (y = d ∨ y = 1%nat)) as (s' & Hs' & d & -> & Hy).
    { destruct (x =? y)%nat eqn:E1; [apply Nat.eqb_eq in E1; subst x|
        destruct (x =? 1)%nat eqn:E2; [|destruct (y =? 1)%nat eqn:E3; [|done]]];
        destruct (broadcast_rev a b) as [s'|]; try done;
        injection Hb as <-; eexists; (split; [done|]); eexists; (split; [done|]).
      - by left.
      - by left.
      - apply Nat.eqb_eq in E3. by right. }
    inversion Hidx as [|i d' idx' s'' Hi Hrest]; subst. simpl.
    constructor; [|by eapply IH].
    destruct (y =? 1)%nat eqn:E; [apply Nat.eqb_eq in E; lia|].
    apply Nat.eqb_neq in E. destruct Hy; [lia | done].
Qed.

Lemma broadcast_rev_comm a b : broadcast_rev a b = broadcast_rev b a.
Proof.
  revert b. induction a as [|x a IH]; intros [|y b]; simpl; try done.
  rewrite IH. destruct (x =? y)%nat eqn:E1.
  - apply Nat.eqb_eq in E1. subst. by rewrite Nat.eqb_refl.
  - rewrite (Nat.eqb_sym y x), E1.
    destruct (x =? 1)%nat eqn:E2, (y =? 1)%nat eqn:E3; try done.
    apply Nat.eqb_eq in E2, E3. subst. by rewrite Nat.eqb_refl in E1.
Qed.

Lemma bcast_index_in_bounds_r a b s idx :
  broadcast_shapes a b = Some s →
  in_bounds s idx → in_bounds b (bcast_index b idx).
Proof.
  unfold broadcast_shapes, bcast_index. intros Hb Hidx.
  destruct (broadcast_rev (reverse a) (reverse b)) as [rs|] eqn:E; [|done].
  injection Hb as <-.
  apply in_bounds_reverse. rewrite reverse_involutive.
  apply in_bounds_reverse in Hidx. rewrite reverse_involutive in Hidx.
  by eapply broadcast_rev_in_bounds_r.
Qed.

Lemma bcast_index_in_bounds_l a b s idx :
  broadcast_shapes a b = Some s →
  in_bounds s idx → in_bounds a (bcast_index a idx).
Proof.
  unfold broadcast_shapes. rewrite broadcast_rev_comm.
  apply (bcast_index_in_bounds_r b a).
Qed.

Lemma broadcast_rev_same s : broadcast_rev s s = Some s.
Proof.
  induction s as [|d s IH]; [done|]. simpl. by rewrite Nat.eqb_refl, IH.
Qed.

Lemma broadcast_shapes_same s : broadcast_shapes s s = Some s.
Proof.
  unfold broadcast_shapes. rewrite broadcast_rev_same. simpl.
  by rewrite reverse_involutive.
Qed.

Lemma broadcast_rev_nil_r a : broadcast_rev a [] = Some a.
Proof. by destruct a. Qed.

(** Broadcasting a vector over the last axis. *)
Lemma broadcast_shapes_last s d : broadcast_shapes (s ++ [d]) [d] = Some (s ++ [d]).
Proof.
  unfold broadcast_shapes. rewrite reverse_snoc. simpl.
  rewrite Nat.eqb_refl, broadcast_rev_nil_r. simpl.
  by rewrite reverse_cons, reverse_involutive.
Qed.

Lemma numel_app s1 s2 : numel (s1 ++ s2) = (numel s1 * numel s2)%nat.
Proof.
  induction s1 as [|d s1 IH]; simpl; [lia|]. rewrite IH. lia.
Qed.

Open Scope nat_scope.

Lemma narrow_last_shape x s d n :
  shape x = s ++ [d] →
  ∃ y, narrow_last n x = Ok y ∧ shape y = s ++ [Nat.min d n] ∧ at_ y = at_ x.
Proof.
  intros H. unfold narrow_last. rewrite H, reverse_snoc, reverse_involutive.
  eexists. split; [done|]. done.
Qed.

Lemma map2_shape f a b s :
  broadcast_shapes (shape a) (shape b) = Some s →
  ∃ y, map2 f a b = Ok y ∧ shape y = s.
Proof. intros H. unfold map2. rewrite H. eexists. split; done. Qed.

Lemma map2_inplace_shape f a b :
  broadcast_shapes (shape a) (shape b) = Some (shape a) →
  ∃ y, map2_inplace f a b = Ok y ∧ shape y = shape a.
Proof.
  intros H. unfold map2_inplace. rewrite H.
  destruct (decide _); [|done]. by apply map2_shape.
Qed.

Lemma reshape_shape s x :
  numel s = numel (shape x) → ∃ y, reshape s x = Ok y ∧ shape y = s.
Proof.
  intros H. unfold reshape. rewrite H, Nat.eqb_refl. eexists. split; done.
Qed.

Lemma reshape_infer_shape m x n :
  0 < m → numel (shape x) = n * m →
  ∃ y, reshape_infer m x = Ok y ∧ shape y = [n; m].
Proof.
  intros Hm H. unfold reshape_infer.
  assert ((0 <? m) = true) as -> by (apply Nat.ltb_lt; lia).
  rewrite H, Nat.Div0.mod_mul, Nat.div_mul by lia. simpl.
  apply reshape_shape. simpl. lia.
Qed.

Lemma cat_last_shape a b s da db :
  shape a = s ++ [da] → shape b = s ++ [db] →
  ∃ y, cat_last a b = Ok y ∧ shape y = s ++ [da + db].
Proof.
  intros Ha Hb. unfold cat_last.
  rewrite Ha, Hb, !reverse_snoc. destruct (decide _); [|done].
  rewrite reverse_involutive. eexists. split; done.
Qed.

Lemma permute_3012 x a b c d :
  shape x = [a; b; c; d] →
  permute [3; 0; 1; 2] x =
  Ok (mk [d; a; b; c]
         (λ idx, at_ x [nth 1 idx 0; nth 2 idx 0; nth 3 idx 0; nth 0 idx 0])).
Proof. intros H. unfold permute, ndim. rewrite H. reflexivity. Qed.

Lemma permute_1230 x a b c d :
  shape x = [a; b; c; d] →
  permute [1; 2; 3; 0] x =
  Ok (mk [b; c; d; a]
         (λ idx, at_ x [nth 3 idx 0; nth 0 idx 0; nth 1 idx 0; nth 2 idx 0])).
Proof. intros H. unfold permute, ndim. rewrite H. reflexivity. Qed.

Lemma bind_Ok {A B} (r : result A) (k : A → result B) y :
  r ≫= k = Ok y → ∃ a, r = Ok a ∧ k a = Ok y.
Proof. destruct r as [a|e]; [eauto | discriminate]. Qed.



Lemma in_bounds_4_intro a b c d i j k l :
  i < a → j < b → k < c → l < d → in_bounds [a; b; c; d] [i; j; k; l].
Proof. intros. repeat constructor; done. Qed.


End TensorFacts.

(** ** The network module *)

Module OpenUnmixFacts.
Import Tensor OpenUnmix TensorFacts.
Open Scope nat_scope.

Lemma Linear_forward_shape l x s :
  shape x = s ++ [in_features l] →
  ∃ y, Linear_forward l x = Ok y ∧ shape y = s ++ [out_features l].
Proof.
  intros H. unfold Linear_forward.
  rewrite H, reverse_snoc, Nat.eqb_refl, reverse_involutive.
  eexists. split; done.
Qed.

Lemma BatchNorm1d_forward_shape tr b x n :
  shape x = [n; num_features b] → 0 < num_features b →
  (tr = false ∨ n ≠ 1) →
  ∃ y, BatchNorm1d_forward tr b x = Ok y ∧ shape y = [n; num_features b].
Proof.
  intros H Hc Htr. unfold BatchNorm1d_forward. rewrite H.
  assert (numel [n; num_features b] / num_features b = n) as ->.
  { simpl. rewrite Nat.mul_1_r. apply Nat.div_mul. lia. }
  assert (tr && (n =? 1) = false) as ->.
  { destruct Htr as [-> | Hn]; [done|].
    apply Nat.eqb_neq in Hn. rewrite Hn. by destruct tr. }
  rewrite Nat.eqb_refl. eexists. split; done.
Qed.

Lemma LSTM_forward_shape l x a b :
  shape x = [a; b; input_size l] →
  ∃ y, LSTM_forward l x = Ok y ∧
       shape y = [a; b; (if bidirectional l then 2 else 1) * lstm_hidden_size l].
Proof.
  intros H. unfold LSTM_forward. rewrite H. simpl.
  rewrite Nat.eqb_refl. eexists. split; done.
Qed.

Tactic Notation "step" open_constr(L) "as" ident(y) ident(Hy) :=
  edestruct L as (y & -> & Hy); [..|cbn [mbind result_bind Py.bind]].

Section Forward.

Variable tanh : Q → Q.

(** A module whose sizes fit together maps an input with matching channel
    and bin counts to an output of the same shape. *)
Lemma forward_configured_shape m (x : tensor) S C F :
  configured m C →
  shape x = [S; C; nb_output_bins m; F] →
  0 < S → 0 < C → 0 < F →
  (training m = false ∨ 1 < F * S) →
  ∃ y, forward tanh m x = Ok y ∧ shape y = shape x.
Proof.
  intros [Hbp Hble Hh H1i H1o Hb1 Hli Hlo H2i H2o Hb2 H3i H3o Hb3 Him His Hos Hom]
         Hx HS HC HF Htrain.
  destruct x as [sx vx]. simpl in Hx. subst sx.
  unfold forward, add, mul, iadd, imul.
  rewrite (permute_3012 (mk [S; C; nb_output_bins m; F] vx) S C (nb_output_bins m) F eq_refl).
  cbn [mbind result_bind Py.bind shape unpack4].
  step (narrow_last_shape _ [F;S;C]) as x Hx; [reflexivity|].
  destruct Hx as [Hx _]. simpl in Hx. rewrite Nat.min_r in Hx by done.
  step (map2_shape Qplus x (input_mean m)) as x0 Hx0.
  { rewrite Hx, Him. apply (broadcast_shapes_last [F;S;C]). }
  step (map2_shape Qmult x0 (input_scale m)) as x1 Hx1.
  { rewrite Hx0, His. apply (broadcast_shapes_last [F;S;C]). }
  step (reshape_infer_shape (C * nb_bins m) x1 (F * S)) as x2 Hx2.
  { nia. }
  { rewrite Hx1. simpl. nia. }
  step (Linear_forward_shape (fc1 m) x2 [F * S]) as x3 Hx3.
  { rewrite Hx2, H1i. simpl. do 2 f_equal. lia. }
  simpl in Hx3. rewrite H1o, <- Hb1 in Hx3.
  step (BatchNorm1d_forward_shape (training m) (bn1 m) x3 (F * S)) as x4 Hx4.
  { done. } { lia. } { destruct Htrain; [by left | right; lia]. }
  rewrite Hb1 in Hx4.
  step (reshape_shape [F; S; hidden_size m] x4) as x5 Hx5.
  { rewrite Hx4. simpl. lia. }
  step (LSTM_forward_shape (lstm m) (map1 tanh x5) F S) as x6 Hx6.
  { simpl. by rewrite Hx5, Hli. }
  rewrite Hlo in Hx6.
  step (cat_last_shape (map1 tanh x5) x6 [F; S] (hidden_size m) (hidden_size m)) as x7 Hx7.
  { done. } { done. }
  rewrite Hx7. simpl List.last.
  step (reshape_infer_shape (hidden_size m + hidden_size m) x7 (F * S)) as x8 Hx8.
  { lia. } { rewrite Hx7. simpl. lia. }
  step (Linear_forward_shape (fc2 m) x8 [F * S]) as x9 Hx9.
  { rewrite Hx8, H2i. simpl. do 2 f_equal. lia. }
  simpl in Hx9. rewrite H2o, <- Hb2 in Hx9.
  step (BatchNorm1d_forward_shape (training m) (bn2 m) x9 (F * S)) as x10 Hx10.
  { done. } { lia. } { destruct Htrain; [by left | right; lia]. }
  rewrite Hb2, <- H3i in Hx10.
  step (Linear_forward_shape (fc3 m) (relu x10) [F * S]) as x11 Hx11.
  { done. }
  simpl in Hx11. rewrite H3o, <- Hb3 in Hx11.
  step (BatchNorm1d_forward_shape (training m) (bn3 m) x11 (F * S)) as x12 Hx12.
  { done. } { nia. } { destruct Htrain; [by left | right; lia]. }
  rewrite Hb3 in Hx12.
  step (reshape_shape [F; S; C; nb_output_bins m] x12) as x13 Hx13.
  { rewrite Hx12. simpl. lia. }
  step (map2_inplace_shape Qmult x13 (output_scale m)) as x14 Hx14.
  { rewrite Hx13, Hos. apply (broadcast_shapes_last [F;S;C]). }
  rewrite Hx13 in Hx14.
  step (map2_inplace_shape Qplus x14 (output_mean m)) as x15 Hx15.
  { rewrite Hx14, Hom. apply (broadcast_shapes_last [F;S;C]). }
  rewrite Hx14 in Hx15.
  step (map2_shape Qmult (relu x15) (mk [F; S; C; nb_output_bins m] _)) as x16 Hx16.
  { simpl. rewrite Hx15. apply broadcast_shapes_same. }
  rewrite (permute_1230 _ _ _ _ _ Hx16).
  eexists. split; done.
Qed.

Lemma shape_load_values v p : shape (load_values v p) = shape p.
Proof. by destruct v. Qed.

(** Loading a state and switching mode keep the sizes. *)
Lemma configured_load_state_dict m sd C :
  configured m C → configured (load_state_dict m sd) C.
Proof.
  intros []. split; simpl; rewrite ?shape_load_values; done.
Qed.

Lemma configured_eval m C : configured m C → configured (eval m) C.
Proof. intros []. split; done. Qed.

(** The sizes chosen by the constructor fit together when [max_bin] does
    not exceed the bin count, the hidden size is positive and, for a
    bidirectional LSTM, even, and given normalisation arrays cover the
    cropped bins. *)
Lemma init_configured w nb_bins_arg nb_channels hidden nb_layers unidirectional
      input_mean_arg input_scale_arg max_bin :
  let m := init w nb_bins_arg nb_channels hidden nb_layers unidirectional
                input_mean_arg input_scale_arg max_bin in
  0 < nb_bins_arg →
  match max_bin with Some k => k ≤ nb_bins_arg | None => True end →
  match input_mean_arg with Some a => nb_bins m ≤ length a | None => True end →
  match input_scale_arg with Some a => nb_bins m ≤ length a | None => True end →
  0 < hidden → (unidirectional = true ∨ Nat.even hidden = true) →
  configured m nb_channels.
Proof.
  intros m HB Hmax Hmean Hscale Hh Hlstm.
  assert (0 < nb_bins m ∧ nb_bins m ≤ nb_bins_arg) as [Hnb0 Hnb1].
  { subst m. simpl. destruct max_bin as [[|k]|]; lia. }
  split; try reflexivity; try done.
  - subst m. cbn [lstm bidirectional lstm_hidden_size hidden_size init].
    destruct unidirectional; cbn [negb]; [lia|].
    destruct Hlstm as [|Hev]; [done|].
    apply Nat.even_spec in Hev as [k ->].
    replace (2 * k / 2) with k; [lia|].
    symmetry. rewrite Nat.mul_comm. apply Nat.div_mul. lia.
  - destruct input_mean_arg as [a|]; [|done].
    subst m. simpl in *. rewrite length_map, length_take. f_equal. lia.
  - destruct input_scale_arg as [a|]; [|done].
    subst m. simpl in *. rewrite length_map, length_take. f_equal. lia.
Qed.

(** C7, as amended: a module built by the constructor with a positive
    hidden size that is even unless the LSTM is unidirectional, with
    [max_bin] unset or at most [nb_bins], and with normalisation arrays
    (when given) covering the cropped bins, maps every input of shape
    [(nb_samples, nb_channels, nb_bins, nb_frames)], all four sizes
    positive and [nb_channels], [nb_bins] those of the constructor, to a
    tensor of exactly that shape, also when [max_bin < nb_bins] crops the
    internal input; in training mode more than one frame-sample pair is
    needed. *)
Theorem forward_preserves_shape w nb_bins_arg nb_channels hidden nb_layers
      unidirectional input_mean_arg input_scale_arg max_bin sd (train : bool)
      (x : tensor) nb_samples nb_frames :
  let m0 := load_state_dict
              (init w nb_bins_arg nb_channels hidden nb_layers unidirectional
                    input_mean_arg input_scale_arg max_bin) sd in
  let m := if train then m0 else eval m0 in
  shape x = [nb_samples; nb_channels; nb_bins_arg; nb_frames] →
  0 < nb_samples → 0 < nb_channels → 0 < nb_bins_arg → 0 < nb_frames →
  match max_bin with Some k => k ≤ nb_bins_arg | None => True end →
  match input_mean_arg with Some a => nb_bins m ≤ length a | None => True end →
  match input_scale_arg with Some a => nb_bins m ≤ length a | None => True end →
  0 < hidden → (unidirectional = true ∨ Nat.even hidden = true) →
  (train = false ∨ 1 < nb_frames * nb_samples) →
  nb_output_bins m = nb_bins_arg ∧
  (∀ k, max_bin = Some (S k) → nb_bins m = S k) ∧
  ∃ y, forward tanh m x = Ok y ∧
       shape y = [nb_samples; nb_channels; nb_bins_arg; nb_frames].
Proof.
  intros m0 m Hx HS HC HB HF Hmax Hmean Hscale Hh Hlstm Htrain.
  set (mi := init w nb_bins_arg nb_channels hidden nb_layers unidirectional
                  input_mean_arg input_scale_arg max_bin) in *.
  assert (nb_bins m = nb_bins mi) as Hnb by (subst m m0; by destruct train).
  rewrite Hnb in Hmean, Hscale.
  pose proof (init_configured w nb_bins_arg nb_channels hidden nb_layers
                unidirectional input_mean_arg input_scale_arg max_bin
                HB Hmax Hmean Hscale Hh Hlstm) as Hcfg.
  fold mi in Hcfg.
  assert (configured m nb_channels) as Hcfgm.
  { subst m m0. destruct train;
      [|apply configured_eval]; by apply configured_load_state_dict. }
  assert (nb_output_bins m = nb_bins_arg) as Hout
      by (subst m m0; by destruct train).
  assert (training m = train) as Htr by (subst m m0; by destruct train).
  split; [done|]. split; [intros k ->; by rewrite Hnb|].
  rewrite <- Hx.
  apply forward_configured_shape
    with (S := nb_samples) (C := nb_channels) (F := nb_frames); try done.
  - by rewrite Hout.
  - by rewrite Htr.
Qed.

End Forward.

Lemma forward_preserves_shape_witness :
  ∃ y, forward sample_tanh sample_module (all_ones [1; 2; 4; 5]) = Ok y ∧
       shape y = [1; 2; 4; 5].
Proof.
  destruct (forward_preserves_shape sample_tanh sample_weights 4 2 4 3 false
              None None (Some 3) sample_state false (all_ones [1; 2; 4; 5]) 1 5)
    as (_ & _ & H);
    [reflexivity | lia | lia | lia | lia | simpl; lia | exact I | exact I
     | lia | right; reflexivity | left; reflexivity | exact H].
Defined.

(** C7 as stated fails: a single-channel input with the right number of
    bins, given to a module built for two channels, does not come back
    with its shape; the first dense layer rejects it. *)
Lemma forward_preserves_shape_counterexample :
  let m := eval (init sample_weights 4 2 4 3 false None None None) in
  let x := all_ones [1; 1; 4; 5] in
  shape x = [1; 1; nb_output_bins m; 5] ∧
  forward sample_tanh m x = Raise RuntimeError ∧
  ¬ ∃ y, forward sample_tanh m x = Ok y ∧ shape y = shape x.
Proof.
  assert (forward sample_tanh
            (eval (init sample_weights 4 2 4 3 false None None None))
            (all_ones [1; 1; 4; 5]) = Raise RuntimeError) as H
      by (vm_compute; reflexivity).
  cbv zeta. split; [reflexivity|]. split; [exact H|].
  intros (y & Hy & _). rewrite H in Hy. discriminate.
Qed.

(** The other conditions of the amended statement are needed as well: an
    odd hidden size with a bidirectional LSTM, a [max_bin] above the bin
    count, and a single frame-sample pair in training mode all make
    [forward] raise. *)
Example forward_odd_hidden_size :
  forward sample_tanh (eval (init sample_weights 4 2 3 3 false None None None))
          (all_ones [1; 2; 4; 5]) = Raise RuntimeError.
Proof. vm_compute. reflexivity. Qed.

Example forward_max_bin_too_large :
  forward sample_tanh
          (eval (init sample_weights 4 2 4 3 false None None (Some 5)))
          (all_ones [1; 2; 4; 5]) = Raise RuntimeError.
Proof. vm_compute. reflexivity. Qed.

Example forward_training_single_pair :
  forward sample_tanh (init sample_weights 4 2 4 3 false None None None)
          (all_ones [1; 2; 4; 1]) = Raise ValueError.
Proof. vm_compute. reflexivity. Qed.



End OpenUnmixFacts.

(** ** The separator *)

Module UMXFacts.
Import Tensor UMX TensorFacts.
Open Scope nat_scope.

(** Inversion of a bind in the state-and-exception monad. *)
Lemma M_bind_inv {A B} (m : M A) (k : A → M B) st st' r :
  (m ≫= k) st = (st', r) →
  (∃ st1 a, m st = (st1, Ok a) ∧ k a st1 = (st', r)) ∨
  (∃ e, m st = (st', Raise e) ∧ r = Raise e).
Proof.
  unfold mbind, M_bind. destruct (m st) as [st1 [a|e]]; intros H.
  - left. eauto.
  - right. injection H as <- <-. eauto.
Qed.

Lemma M_bind_Ok {A B} (m : M A) (k : A → M B) st st1 a :
  m st = (st1, Ok a) → (m ≫= k) st = k a st1.
Proof. intros H. unfold mbind, M_bind. by rewrite H. Qed.

Lemma M_bind_Raise {A B} (m : M A) (k : A → M B) st st1 e :
  m st = (st1, Raise e) → (m ≫= k) st = (st1, Raise e).
Proof. intros H. unfold mbind, M_bind. by rewrite H. Qed.

Lemma lift_inv {A} (r0 : result A) st st' r :
  lift r0 st = (st', r) → st' = st ∧ r = r0.
Proof. by intros [= <- <-]. Qed.

Lemma load_inv l st st' r :
  load l st = (st', r) →
  st' = st ∧ (∀ t, r = Ok t → st_heap st !! l = Some t).
Proof.
  unfold load. destruct (st_heap st !! l) eqn:E; intros [= <- <-];
    split; try done. by intros t' [= <-].
Qed.

Lemma preserves_refl st : preserves st st.
Proof. by intros l _. Qed.

Lemma preserves_trans st1 st2 st3 :
  preserves st1 st2 → preserves st2 st3 → preserves st1 st3.
Proof.
  intros H12 H23 l Hl. rewrite <- (H12 l Hl). apply H23.
  by rewrite (H12 l Hl).
Qed.

Lemma alloc_spec t st :
  ∃ l, alloc t st = (mkState (<[l := t]> (st_heap st)) (st_trace st), Ok l) ∧
       st_heap st !! l = None.
Proof.
  unfold alloc. eexists. split; [done|].
  apply not_elem_of_dom, is_fresh.
Qed.

Lemma dict_get_elem {V} (d : list (string * V)) k v :
  dict_get k d = Ok v → (k, v) ∈ d.
Proof.
  induction d as [|[k' v'] d IH]; simpl; [done|].
  destruct (decide (k' = k)) as [->|].
  - intros [= ->]. by left.
  - intros H. right. by apply IH.
Qed.

Lemma detach_clone_spec X Xv st :
  st_heap st !! X = Some Xv →
  ∃ arg, detach_clone X st
         = (mkState (<[arg := Xv]> (st_heap st)) (st_trace st), Ok arg) ∧
         st_heap st !! arg = None.
Proof.
  intros HX. destruct (alloc_spec Xv st) as (arg & Halloc & Hfresh).
  exists arg. split; [|done]. unfold detach_clone.
  rewrite (M_bind_Ok (load X) _ st st Xv); [done|].
  unfold load. by rewrite HX.
Qed.

Lemma call_estimator_spec name e arg seen st :
  st_heap st !! arg = Some seen →
  call_estimator name e arg st =
  (mkState (estimate e arg (st_heap st)).1
           (st_trace st ++ [EvEstimate name arg seen]),
   (estimate e arg (st_heap st)).2).
Proof.
  intros Harg. unfold call_estimator.
  rewrite (M_bind_Ok (load arg) _ st st seen) by (unfold load; by rewrite Harg).
  unfold mbind, M_bind, log, run_estimator. simpl.
  by destruct (estimate e arg (st_heap st)).
Qed.

Lemma estimate_targets_frame self X Xv names :
  (∀ name e, (name, e) ∈ _target_models self → frame_ok e) →
  ∀ j spectrograms st st' r,
  st_heap st !! X = Some Xv →
  estimate_targets self X j names spectrograms st = (st', r) →
  preserves st st' ∧
  ∃ args, st_trace st' = st_trace st ++ estimate_events Xv names args ∧
          Forall (λ arg, st_heap st !! arg = None) args ∧
          (is_ok r = true → length args = length names).
Proof.
  intros Hframe. induction names as [|name rest IH];
    intros j spectrograms st st' r HX Hrun.
  - injection Hrun as <- <-. split; [apply preserves_refl|].
    exists []. by rewrite app_nil_r.
  - cbn [estimate_targets] in Hrun.
    destruct (dict_get name (_target_models self)) as [e|err] eqn:Hget.
    2: { rewrite (M_bind_Raise _ _ st st err) in Hrun by done.
         injection Hrun as <- <-. split; [apply preserves_refl|].
         exists []. by rewrite app_nil_r. }
    rewrite (M_bind_Ok _ _ st st e) in Hrun by done.
    destruct (detach_clone_spec X Xv st HX) as (arg & Hdc & Hfresh).
    rewrite (M_bind_Ok _ _ _ _ _ Hdc) in Hrun.
    set (st1 := mkState (<[arg := Xv]> (st_heap st)) (st_trace st)) in *.
    assert (st_heap st1 !! arg = Some Xv) as Harg by apply lookup_insert_eq.
    pose proof (call_estimator_spec name e arg Xv st1 Harg) as Hcall.
    destruct (estimate e arg (st_heap st1)) as [h2 rout] eqn:Hest.
    cbn [fst snd] in Hcall.
    set (st2 := mkState h2 (st_trace st1 ++ [EvEstimate name arg Xv])) in *.
    assert (preserves st st2) as Hpres2.
    { intros l Hl. subst st2; cbn [st_heap].
      assert (l ≠ arg) as Hne
        by (intros Heq; rewrite Heq, Hfresh in Hl; by destruct Hl).
      rewrite (Hframe name e (dict_get_elem _ _ _ Hget) arg _ _ _ Hest l Hne).
      - subst st1; cbn [st_heap]. by rewrite lookup_insert_ne.
      - subst st1; cbn [st_heap]. by rewrite lookup_insert_ne. }
    assert (estimate_events Xv (name :: rest) [arg] = [EvEstimate name arg Xv])
      as Hone.
    { unfold estimate_events. cbn [zip_with]. by rewrite zip_with_nil_r. }
    assert (st_trace st2 = st_trace st ++ [EvEstimate name arg Xv])
      as Htr2 by done.
    destruct rout as [out|err].
    2: { rewrite (M_bind_Raise _ _ _ _ _ Hcall) in Hrun.
         injection Hrun as <- <-. split; [done|].
         exists [arg]. rewrite Hone. split; [done|]. split; [by constructor|done]. }
    rewrite (M_bind_Ok _ _ _ _ _ Hcall) in Hrun.
    apply M_bind_inv in Hrun as [(st3 & tsp & Hload & Hrun) | (err & Hload & ->)].
    2: { apply load_inv in Hload as [-> _]. split; [done|].
         exists [arg]. rewrite Hone. split; [done|]. split; [by constructor|done]. }
    apply load_inv in Hload as [-> _].
    apply M_bind_inv in Hrun as [(st3 & sp & Hset & Hrun) | (err & Hset & ->)].
    2: { apply lift_inv in Hset as [-> _]. split; [done|].
         exists [arg]. rewrite Hone. split; [done|]. split; [by constructor|done]. }
    apply lift_inv in Hset as [-> _].
    assert (st_heap st2 !! X = Some Xv) as HX2.
    { rewrite (Hpres2 X); [done | by rewrite HX]. }
    destruct (IH _ _ _ _ _ HX2 Hrun) as (Hpres & args & Htr & Hargs & Hlen).
    split; [by eapply preserves_trans|].
    exists (arg :: args). split; [|split].
    + rewrite Htr, Htr2. unfold estimate_events. cbn [zip_with].
      by rewrite <- app_assoc.
    + constructor; [done|].
      eapply Forall_impl; [exact Hargs|]. intros a Ha. cbn beta in Ha.
      destruct (st_heap st !! a) eqn:Ea; [|done].
      rewrite (Hpres2 a) in Ha; [by rewrite Ea in Ha | by rewrite Ea].
    + intros Hok. cbn [length]. by rewrite Hlen.
Qed.

(** *** The refinement loops *)

Lemma getitem_frames_shape sample cur t y :
  getitem_frames sample cur t = Ok y →
  shape y = length cur :: drop 2 (shape t).
Proof.
  unfold getitem_frames. destruct (shape t) as [|d0 [|d1 rest]]; try done.
  destruct (_ && _); [|done]. by intros [= <-].
Qed.

Lemma setitem_frames_shape sample cur t v y :
  setitem_frames sample cur t v = Ok y → shape y = shape t.
Proof.
  unfold setitem_frames. destruct (shape t) as [|d0 [|d1 rest]]; try done.
  destruct (_ && _); [|done]. destruct (broadcast_shapes _ _); [|done].
  destruct (decide _); [|done]. by intros [= <-].
Qed.

Lemma getitem_frames_error sample cur t e :
  getitem_frames sample cur t = Raise e → tensor_error e.
Proof.
  unfold getitem_frames. destruct (shape t) as [|d0 [|d1 rest]];
    try (intros [= <-]; by left).
  destruct (_ && _); [done|]. intros [= <-]. by left.
Qed.

Lemma setitem_frames_error sample cur t v e :
  setitem_frames sample cur t v = Raise e → tensor_error e.
Proof.
  unfold setitem_frames. destruct (shape t) as [|d0 [|d1 rest]];
    try (intros [= <-]; by left).
  destruct (_ && _); [|intros [= <-]; by left].
  destruct (broadcast_shapes _ _); [|intros [= <-]; by right].
  destruct (decide _); [done|]. intros [= <-]. by right.
Qed.

Lemma permute_error dims t e : permute dims t = Raise e → tensor_error e.
Proof.
  unfold permute. destruct (is_permutation _ _); [done|].
  intros [= <-]. by right.
Qed.

Lemma size_error i t e : size i t = Raise e → tensor_error e.
Proof.
  unfold size. destruct (shape t !! i); [done|]. intros [= <-]. by left.
Qed.

Section Loops.

Variable wiener : tensor → tensor → Z → bool → bool → tensor.

Lemma wiener_loop_outcome self p sample nb_frames w fuel :
  ∀ pos ts st st' r,
  wiener_loop wiener fuel self p sample nb_frames w pos ts st = (st', r) →
  st_heap st' = st_heap st ∧
  (∃ chunks, st_trace st' = st_trace st ++ map (wiener_event self p sample) chunks) ∧
  (∀ e, r = Raise e → tensor_error e ∨ e = OutOfFuel) ∧
  (∀ ts', r = Ok ts' → shape ts' = shape ts).
Proof.
  induction fuel as [|fuel IH]; intros pos ts st st' r Hrun; simpl in Hrun.
  - destruct (pos <? nb_frames); injection Hrun as <- <-.
    + split; [done|]. split; [exists []; by rewrite app_nil_r|].
      split; [intros e [= <-]; by right | done].
    + split; [done|]. split; [exists []; by rewrite app_nil_r|].
      split; [done | by intros ts' [= <-]].
  - destruct (pos <? nb_frames).
    2: { injection Hrun as <- <-.
         split; [done|]. split; [exists []; by rewrite app_nil_r|].
         split; [done | by intros ts' [= <-]]. }
    set (cur := arange pos _) in *.
    destruct (last cur) as [l|].
    2: { injection Hrun as <- <-.
         split; [done|]. split; [exists []; by rewrite app_nil_r|].
         split; [intros e [= <-]; left; by left | done]. }
    destruct (getitem_frames sample cur (p_spectrograms p)) as [s|e] eqn:Hs.
    2: { rewrite (M_bind_Raise _ _ st st e) in Hrun by done.
         injection Hrun as <- <-.
         split; [done|]. split; [exists []; by rewrite app_nil_r|].
         split; [|done]. intros e' [= <-]. left.
         by eapply getitem_frames_error. }
    rewrite (M_bind_Ok _ _ st st s) in Hrun by done.
    destruct (getitem_frames sample cur (p_mix_stft p)) as [m|e] eqn:Hm.
    2: { rewrite (M_bind_Raise _ _ st st e) in Hrun by done.
         injection Hrun as <- <-.
         split; [done|]. split; [exists []; by rewrite app_nil_r|].
         split; [|done]. intros e' [= <-]. left.
         by eapply getitem_frames_error. }
    rewrite (M_bind_Ok _ _ st st m) in Hrun by done.
    set (ev := EvWiener _ _ _ _ _ _) in Hrun.
    assert (ev = wiener_event self p sample cur) as Hev.
    { subst ev. unfold wiener_event. by rewrite (getitem_frames_shape _ _ _ _ Hs). }
    set (st1 := mkState (st_heap st) (st_trace st ++ [ev])).
    rewrite (M_bind_Ok _ _ st st1 tt) in Hrun by done.
    destruct (setitem_frames sample cur ts _) as [ts1|e] eqn:Hset.
    2: { rewrite (M_bind_Raise _ _ st1 st1 e) in Hrun by done.
         injection Hrun as <- <-.
         split; [done|].
         split; [exists [cur]; subst st1; cbn [st_trace map]; by rewrite Hev|].
         split; [|done]. intros e' [= <-]. left.
         by eapply setitem_frames_error. }
    rewrite (M_bind_Ok _ _ st1 st1 ts1) in Hrun by done.
    destruct (IH _ _ _ _ _ Hrun) as (Hheap & (chunks & Htr) & Herr & Hshape).
    split; [done|]. split; [|split; [done|]].
    + exists (cur :: chunks). rewrite Htr. subst st1. cbn [st_trace map].
      by rewrite Hev, <- app_assoc.
    + intros ts' Hr. rewrite (Hshape ts' Hr).
      by eapply setitem_frames_shape.
Qed.

End Loops.

Lemma arange_chunk pos nb_frames w :
  pos < nb_frames → (1 ≤ w)%Z →
  let len := Nat.min (nb_frames - pos) (Z.to_nat w) in
  arange pos (Z.min (Z.of_nat nb_frames) (Z.of_nat pos + w)) = seq pos len ∧
  last (seq pos len) = Some (pos + len - 1) ∧ 1 ≤ len.
Proof.
  intros Hpos Hw len. unfold arange.
  assert (Z.to_nat (Z.min (Z.of_nat nb_frames) (Z.of_nat pos + w) - Z.of_nat pos)
          = len) as -> by lia.
  split; [done|]. assert (1 ≤ len) as Hlen by lia. split; [|done].
  destruct len as [|n]; [lia|].
  rewrite seq_S, last_snoc. f_equal. lia.
Qed.

Lemma chunking_is_chunking nb_frames w :
  (1 ≤ w)%Z →
  ∀ fuel pos, pos ≤ nb_frames → nb_frames - pos ≤ fuel →
  is_chunking_from pos nb_frames w (chunking fuel nb_frames w pos).
Proof.
  intros Hw. induction fuel as [|fuel IH]; intros pos Hpos Hfuel.
  - assert (pos = nb_frames) as -> by lia. unfold is_chunking_from.
    cbn [chunking]. rewrite Nat.ltb_irrefl, Nat.sub_diag.
    split; [done|]. split; [constructor|]. intros i c Hi. done.
  - unfold is_chunking_from. cbn [chunking].
    destruct (pos <? nb_frames) eqn:E.
    2: { apply Nat.ltb_ge in E. assert (pos = nb_frames) as -> by lia.
         rewrite Nat.sub_diag.
         split; [done|]. split; [constructor|]. intros i c Hi. done. }
    apply Nat.ltb_lt in E.
    destruct (arange_chunk pos nb_frames w E Hw) as (-> & -> & Hlen).
    set (len := Nat.min (nb_frames - pos) (Z.to_nat w)) in *.
    replace (pos + len - 1 + 1) with (pos + len) by lia.
    destruct (IH (pos + len)) as (Hcat & Hne & Hlens); [lia | lia |].
    split; [|split].
    + cbn [concat]. rewrite Hcat, <- seq_app. f_equal. lia.
    + constructor; [|done]. destruct len; [lia | done].
    + intros [|i] c Hi; cbn in Hi.
      * injection Hi as <-. rewrite length_seq. split; [lia|].
        cbn [length]. intros Hmore.
        destruct (chunking fuel nb_frames w (pos + len)) as [|c' ?] eqn:Ec;
          [cbn in Hmore; lia|].
        assert (pos + len < nb_frames); [|lia].
        destruct (decide (pos + len < nb_frames)); [done|].
        assert (nb_frames - (pos + len) = 0) as Hz by lia.
        rewrite Hz in Hcat. simpl in Hcat.
        apply app_eq_nil in Hcat as [-> _].
        inversion Hne; subst. done.
      * destruct (Hlens i c Hi) as [H1 H2]. split; [done|].
        cbn [length]. intros Hmore. apply H2. lia.
Qed.

Lemma forallb_seq_lt pos len F :
  pos + len ≤ F → forallb (λ f, f <? F) (seq pos len) = true.
Proof.
  intros H. apply forallb_forall. intros f Hf. apply in_seq in Hf.
  apply Nat.ltb_lt. lia.
Qed.

Lemma getitem_frames_ok sample cur t S F rest :
  shape t = S :: F :: rest → sample < S →
  forallb (λ f, f <? F) cur = true →
  ∃ y, getitem_frames sample cur t = Ok y ∧ shape y = length cur :: rest.
Proof.
  intros Ht Hs Hc. unfold getitem_frames. rewrite Ht, Hc.
  apply Nat.ltb_lt in Hs. rewrite Hs. simpl. eauto.
Qed.

Lemma setitem_frames_ok sample cur t v S F rest :
  shape t = S :: F :: rest → sample < S →
  forallb (λ f, f <? F) cur = true →
  shape v = length cur :: rest →
  ∃ y, setitem_frames sample cur t v = Ok y ∧ shape y = shape t.
Proof.
  intros Ht Hs Hc Hv. unfold setitem_frames. rewrite Ht, Hc, Hv.
  apply Nat.ltb_lt in Hs. rewrite Hs. simpl.
  rewrite broadcast_shapes_same. destruct (decide _); [|done]. eauto.
Qed.

Section Refinement.

Variable wiener : tensor → tensor → Z → bool → bool → tensor.

Lemma wiener_loop_runs self p S F rest_s rest_m nsrc sample w :
  refinable wiener self p S F rest_s rest_m nsrc →
  sample < S → (1 ≤ w)%Z →
  ∀ fuel pos ts st,
  shape ts = S :: F :: rest_m ++ [nsrc] → pos ≤ F → F - pos ≤ fuel →
  ∃ ts',
    wiener_loop wiener fuel self p sample F w pos ts st
    = (mkState (st_heap st)
               (st_trace st ++
                  map (wiener_event self p sample) (chunking fuel F w pos)),
       Ok ts') ∧
    shape ts' = shape ts.
Proof.
  intros [Hsp Hmx Hwn] Hsample Hw.
  induction fuel as [|fuel IH]; intros pos ts st Hts Hpos Hfuel.
  - assert (pos = F) as -> by lia. cbn [wiener_loop chunking].
    rewrite Nat.ltb_irrefl. exists ts. split; [|done].
    cbn [map]. rewrite app_nil_r. by destruct st.
  - cbn [wiener_loop chunking]. destruct (pos <? F) eqn:E.
    2: { exists ts. split; [|done]. cbn [map]. rewrite app_nil_r. by destruct st. }
    apply Nat.ltb_lt in E.
    destruct (arange_chunk pos F w E Hw) as (-> & -> & Hlen).
    set (len := Nat.min (F - pos) (Z.to_nat w)) in *.
    set (cur := seq pos len).
    assert (forallb (λ f, f <? F) cur = true) as Hcur
        by (apply forallb_seq_lt; lia).
    destruct (getitem_frames_ok sample cur _ _ _ _ Hsp Hsample Hcur)
      as (s & Hs & Hss).
    destruct (getitem_frames_ok sample cur _ _ _ _ Hmx Hsample Hcur)
      as (m & Hm & Hms).
    rewrite (M_bind_Ok _ _ st st s) by (unfold lift; by rewrite Hs).
    rewrite (M_bind_Ok _ _ st st m) by (unfold lift; by rewrite Hm).
    set (ev := EvWiener _ _ _ _ _ _).
    assert (ev = wiener_event self p sample cur) as Hev.
    { subst ev. unfold wiener_event. by rewrite Hss, Hsp. }
    set (st1 := mkState (st_heap st) (st_trace st ++ [ev])).
    rewrite (M_bind_Ok _ _ st st1 tt) by done.
    destruct (setitem_frames_ok sample cur ts
                (wiener s m (_num_iter self) (_softmask self) (_residual self))
                _ _ _ Hts Hsample Hcur (Hwn s m _ Hss Hms)) as (ts1 & Hset & Hts1).
    rewrite (M_bind_Ok _ _ st1 st1 ts1) by (unfold lift; by rewrite Hset).
    replace (pos + len - 1 + 1) with (pos + len) by lia.
    destruct (IH (pos + len) ts1 st1) as (ts' & Hrun & Hts');
      [by rewrite Hts1 | lia | lia |].
    exists ts'. split; [|by rewrite Hts', Hts1].
    rewrite Hrun. subst st1. cbn [st_heap st_trace map].
    by rewrite Hev, <- app_assoc.
Qed.

Lemma refine_samples_runs self p S F rest_s rest_m nsrc :
  refinable wiener self p S F rest_s rest_m nsrc →
  let w := match _wiener_win_len self with Some w => w | None => Z.of_nat F end in
  (1 ≤ w)%Z →
  ∀ samples ts st,
  Forall (λ sample, sample < S) samples →
  shape ts = S :: F :: rest_m ++ [nsrc] →
  ∃ ts',
    refine_samples wiener self p F samples ts st
    = (mkState (st_heap st)
               (st_trace st ++
                  refinement_events self p samples (chunking F F w 0)),
       Ok ts') ∧
    shape ts' = shape ts.
Proof.
  intros Hrf w Hw. induction samples as [|sample rest IH]; intros ts st Hall Hts.
  - exists ts. split; [|done]. cbn. rewrite app_nil_r. by destruct st.
  - inversion Hall as [|? ? Hsample Hrest]; subst.
    cbn [refine_samples]. fold w.
    destruct (wiener_loop_runs self p S F rest_s rest_m nsrc sample w Hrf Hsample Hw
                F 0 ts st Hts) as (ts1 & Hrun & Hts1); [lia | lia |].
    rewrite (M_bind_Ok _ _ _ _ _ Hrun).
    destruct (IH ts1 (mkState (st_heap st)
                (st_trace st ++ map (wiener_event self p sample) (chunking F F w 0))))
      as (ts' & Hrun' & Hts'); [done | by rewrite Hts1 |].
    exists ts'. split; [|by rewrite Hts', Hts1].
    rewrite Hrun'. cbn [st_heap st_trace refinement_events map concat].
    by rewrite <- app_assoc.
Qed.

End Refinement.

Lemma chunking_done fuel nb_frames w pos :
  nb_frames ≤ pos → chunking fuel nb_frames w pos = [].
Proof.
  intros H. destruct fuel; cbn [chunking];
    by assert ((pos <? nb_frames) = false) as -> by (apply Nat.ltb_ge; lia).
Qed.

Lemma chunking_whole nb_frames :
  1 ≤ nb_frames →
  chunking nb_frames nb_frames (Z.of_nat nb_frames) 0 = [seq 0 nb_frames].
Proof.
  intros H. destruct nb_frames as [|n]; [lia|]. cbn [chunking].
  assert ((0 <? S n) = true) as -> by (apply Nat.ltb_lt; lia).
  destruct (arange_chunk 0 (S n) (Z.of_nat (S n))) as (-> & -> & _); [lia|lia|].
  replace (Nat.min (S n - 0) (Z.to_nat (Z.of_nat (S n)))) with (S n) by lia.
  rewrite chunking_done by lia. done.
Qed.

Section RefinementClaim.

Variable wiener : tensor → tensor → Z → bool → bool → tensor.

(** C3: for [nb_frames >= 1] and a chunk length of at least one frame
    the loops of lines 283-299, run on operands of the documented
    shapes, complete, and for each sample in turn call the filter once
    per chunk of a list [chunks] whose concatenation is
    [0, 1, ..., nb_frames - 1]: the chunks are consecutive, disjoint and
    in order, none is empty, each holds [wiener_win_len] frames except
    possibly a shorter last one, and every frame number is passed exactly
    once; with [wiener_win_len] unset there is the single chunk of all
    frames. *)
Theorem chunking_loop_partitions self p nb_samples nb_frames rest_s rest_m nsrc ts st :
  refinable wiener self p nb_samples nb_frames rest_s rest_m nsrc →
  shape ts = nb_samples :: nb_frames :: rest_m ++ [nsrc] →
  1 ≤ nb_frames →
  match _wiener_win_len self with Some w => (1 ≤ w)%Z | None => True end →
  let w := match _wiener_win_len self with Some w => w | None => Z.of_nat nb_frames end in
  ∃ chunks ts',
    refine_samples wiener self p nb_frames (seq 0 nb_samples) ts st
    = (mkState (st_heap st)
               (st_trace st ++ refinement_events self p (seq 0 nb_samples) chunks),
       Ok ts') ∧
    concat chunks = seq 0 nb_frames ∧
    Forall (λ c, c ≠ []) chunks ∧
    (∀ i c, chunks !! i = Some c →
            (Z.of_nat (length c) ≤ w)%Z ∧
            (S i < length chunks → Z.of_nat (length c) = w)) ∧
    (∀ f, f < nb_frames ↔ f ∈ concat chunks) ∧ NoDup (concat chunks) ∧
    (_wiener_win_len self = None → chunks = [seq 0 nb_frames]).
Proof.
  intros Hrf Hts HF Hwin w.
  assert (1 ≤ w)%Z as Hw by (subst w; destruct (_wiener_win_len self); lia).
  destruct (refine_samples_runs wiener self p nb_samples nb_frames rest_s rest_m nsrc Hrf Hw
              (seq 0 nb_samples) ts st) as (ts' & Hrun & _); [|done|].
  { apply Forall_forall. intros x Hx. apply elem_of_seq in Hx. lia. }
  fold w in Hrun.
  destruct (chunking_is_chunking nb_frames w Hw nb_frames 0) as (Hcat & Hne & Hlen); [lia|lia|].
  rewrite Nat.sub_0_r in Hcat.
  exists (chunking nb_frames nb_frames w 0), ts'. split; [done|]. split; [done|].
  split; [done|]. split; [done|]. split; [|split].
  - intros f. rewrite Hcat, elem_of_seq. lia.
  - rewrite Hcat. apply NoDup_seq.
  - intros Hnone. subst w. rewrite Hnone. by apply chunking_whole.
Qed.

End RefinementClaim.

Lemma setitem_last_shape j t v y :
  setitem_last j t v = Ok y → shape y = shape t.
Proof.
  unfold setitem_last. destruct (reverse (shape t)); [done|].
  destruct (_ <? _); [|done]. destruct (broadcast_shapes _ _); [|done].
  destruct (decide _); [|done]. by intros [= <-].
Qed.

Lemma call_estimator_trace name e arg st st' r :
  call_estimator name e arg st = (st', r) →
  ∃ evs, st_trace st' = st_trace st ++ evs ∧ Forall is_estimate evs.
Proof.
  unfold call_estimator. intros H.
  apply M_bind_inv in H as [(st1 & seen & Hl & H) | (err & Hl & ->)].
  2: { apply load_inv in Hl as [-> _]. exists []. by rewrite app_nil_r. }
  apply load_inv in Hl as [-> _].
  unfold mbind, M_bind, log, run_estimator in H. cbn in H.
  destruct (estimate e arg (st_heap st)) as [h' r']. injection H as <- <-.
  exists [EvEstimate name arg seen]. split; [done|]. by repeat constructor.
Qed.

Lemma estimate_targets_outcome self X names :
  ∀ j spectrograms st st' r,
  estimate_targets self X j names spectrograms st = (st', r) →
  (∃ evs, st_trace st' = st_trace st ++ evs ∧ Forall is_estimate evs) ∧
  (∀ sp, r = Ok sp → shape sp = shape spectrograms).
Proof.
  induction names as [|name rest IH]; intros j sp0 st st' r Hrun.
  - injection Hrun as <- <-. split; [exists []; by rewrite app_nil_r|].
    by intros sp [= <-].
  - cbn [estimate_targets] in Hrun.
    apply M_bind_inv in Hrun as [(st1 & e & H1 & Hrun) | (err & H1 & ->)].
    2: { apply lift_inv in H1 as [-> _].
         split; [exists []; by rewrite app_nil_r | done]. }
    apply lift_inv in H1 as [-> _].
    apply M_bind_inv in Hrun as [(st1 & arg & H1 & Hrun) | (err & H1 & ->)].
    + assert (st_trace st1 = st_trace st) as Htr1.
      { unfold detach_clone in H1.
        apply M_bind_inv in H1 as [(st0 & t & Hl & H1) | (err & Hl & [=])].
        apply load_inv in Hl as [-> _]. by injection H1 as <- _. }
      apply M_bind_inv in Hrun as [(st2 & out & H2 & Hrun) | (err & H2 & ->)].
      2: { destruct (call_estimator_trace _ _ _ _ _ _ H2) as (evs & Hevs & Hall).
           split; [|done]. exists evs. by rewrite Hevs, Htr1. }
      destruct (call_estimator_trace _ _ _ _ _ _ H2) as (evs & Hevs & Hall).
      apply M_bind_inv in Hrun as [(st3 & tsp & H3 & Hrun) | (err & H3 & ->)].
      2: { apply load_inv in H3 as [-> _]. split; [|done].
           exists evs. by rewrite Hevs, Htr1. }
      apply load_inv in H3 as [-> _].
      apply M_bind_inv in Hrun as [(st3 & sp1 & H4 & Hrun) | (err & H4 & ->)].
      2: { apply lift_inv in H4 as [-> _]. split; [|done].
           exists evs. by rewrite Hevs, Htr1. }
      apply lift_inv in H4 as [-> H4].
      destruct (IH _ _ _ _ _ Hrun) as ((evs' & Hevs' & Hall') & Hshape).
      split.
      * exists (evs ++ evs'). rewrite Hevs', Hevs, Htr1, <- app_assoc.
        split; [done|]. by apply Forall_app.
      * intros sp Hr. rewrite (Hshape sp Hr). symmetry in H4.
        by eapply setitem_last_shape.
    + unfold detach_clone in H1.
      apply M_bind_inv in H1 as [(st0 & t & Hl & H1) | (err' & Hl & [= ->])].
      * done.
      * apply load_inv in Hl as [-> _].
        split; [exists []; by rewrite app_nil_r | done].
Qed.

Lemma permute_inv dims t y :
  permute dims t = Ok y →
  length (shape t) = length dims ∧
  shape y = map (λ d, nth d (shape t) 0) dims.
Proof.
  unfold permute, is_permutation, ndim.
  destruct (length dims =? length (shape t)) eqn:E; [|done].
  apply Nat.eqb_eq in E. destruct (forallb _ _); [|done].
  by intros [= <-].
Qed.

Section Front.

Variable stft : tensor → tensor.

Variable complexnorm : tensor → tensor.

Lemma forward_front_inv self mix st st1 r :
  forward_front stft complexnorm self mix st = (st1, r) →
  (∃ evs, st_trace st1 = st_trace st ++ evs ∧ Forall is_estimate evs) ∧
  (∀ p, r = Ok p →
     p_nb_sources p = length (_target_models self) ∧
     st_heap st !! mix = Some (p_mix p) ∧
     size 0 (p_mix p) = Ok (p_nb_samples p) ∧
     permute [0; 3; 2; 1; 4] (stft (p_mix p)) = Ok (p_mix_stft p) ∧
     ∃ a b c d,
       shape (complexnorm (stft (p_mix p))) = [a; b; c; d] ∧
       shape (p_spectrograms p) = [a; d; c; b; length (_target_models self)]).
Proof.
  unfold forward_front. intros Hrun.
  apply M_bind_inv in Hrun as [(st0 & mixv & Hl & Hrun) | (err & Hl & ->)].
  2: { apply load_inv in Hl as [-> _].
       split; [exists []; by rewrite app_nil_r | done]. }
  apply load_inv in Hl as [-> Hmix]. specialize (Hmix mixv eq_refl).
  apply M_bind_inv in Hrun as [(st0 & ns & Hsz & Hrun) | (err & Hsz & ->)].
  2: { apply lift_inv in Hsz as [-> _].
       split; [exists []; by rewrite app_nil_r | done]. }
  apply lift_inv in Hsz as [-> Hsz].
  destruct (alloc_spec (complexnorm (stft mixv)) st) as (X & Halloc & Hfresh).
  rewrite (M_bind_Ok _ _ _ _ _ Halloc) in Hrun.
  set (st1' := mkState _ _) in Hrun.
  assert (load X st1' = (st1', Ok (complexnorm (stft mixv)))) as HloadX.
  { unfold load. subst st1'. cbn [st_heap]. by rewrite lookup_insert_eq. }
  rewrite (M_bind_Ok _ _ _ _ _ HloadX) in Hrun.
  apply M_bind_inv in Hrun as [(st2 & sp & Hest & Hrun) | (err & Hest & ->)].
  2: { destruct (estimate_targets_outcome _ _ _ _ _ _ _ _ Hest) as [Hev _].
       split; [exact Hev | done]. }
  destruct (estimate_targets_outcome _ _ _ _ _ _ _ _ Hest) as [Hev Hshape].
  specialize (Hshape sp eq_refl). cbn [zeros shape] in Hshape.
  apply M_bind_inv in Hrun as [(st3 & sp' & Hp1 & Hrun) | (err & Hp1 & ->)].
  2: { apply lift_inv in Hp1 as [-> _]. split; [exact Hev | done]. }
  apply lift_inv in Hp1 as [-> Hp1]. symmetry in Hp1.
  apply M_bind_inv in Hrun as [(st3 & ms' & Hp2 & Hrun) | (err & Hp2 & ->)].
  2: { apply lift_inv in Hp2 as [-> _]. split; [exact Hev | done]. }
  apply lift_inv in Hp2 as [-> Hp2]. symmetry in Hp2.
  injection Hrun as <- <-. split; [exact Hev|].
  intros p [= <-]. cbn [p_nb_sources p_mix p_nb_samples p_mix_stft p_spectrograms].
  split; [done|]. split; [done|]. split; [done|]. split; [done|].
  destruct (permute_inv _ _ _ Hp1) as [Hlen Hsh].
  rewrite Hshape in Hlen, Hsh. rewrite length_app in Hlen. cbn in Hlen.
  destruct (shape (complexnorm (stft mixv))) as [|a [|b [|c [|d [|? ?]]]]];
    cbn in Hlen; try lia.
  exists a, b, c, d. split; [done|]. rewrite Hsh. reflexivity.
Qed.

End Front.

Section Back.

Variable wiener : tensor → tensor → Z → bool → bool → tensor.

Variable istft : tensor → nat → tensor.

(** The bound on the iterations is never reached: every iteration that
    does not raise moves [pos] forward. *)
Lemma wiener_loop_fuel self p sample nb_frames w fuel :
  ∀ pos ts st st' r,
  nb_frames - pos ≤ fuel →
  wiener_loop wiener fuel self p sample nb_frames w pos ts st = (st', r) →
  r ≠ Raise OutOfFuel.
Proof.
  induction fuel as [|fuel IH]; intros pos ts st st' r Hfuel Hrun;
    cbn [wiener_loop] in Hrun.
  - assert ((pos <? nb_frames) = false) as E by (apply Nat.ltb_ge; lia).
    rewrite E in Hrun. by injection Hrun as <- <-.
  - destruct (pos <? nb_frames) eqn:E; [|by injection Hrun as <- <-].
    apply Nat.ltb_lt in E.
    set (cur := arange pos _) in *.
    destruct (last cur) as [l|] eqn:Hlast; [|by injection Hrun as <- <-].
    assert (pos ≤ l) as Hl.
    { apply last_Some_elem_of in Hlast. subst cur. unfold arange in Hlast.
      apply elem_of_seq in Hlast. lia. }
    apply M_bind_inv in Hrun as [(st1 & s & H1 & Hrun) | (err & H1 & ->)].
    2: { apply lift_inv in H1 as [_ H1]. symmetry in H1.
         apply getitem_frames_error in H1 as [-> | ->]; done. }
    apply M_bind_inv in Hrun as [(st2 & m & H2 & Hrun) | (err & H2 & ->)].
    2: { apply lift_inv in H2 as [_ H2]. symmetry in H2.
         apply getitem_frames_error in H2 as [-> | ->]; done. }
    apply M_bind_inv in Hrun as [(st3 & u & H3 & Hrun) | (err & H3 & ->)].
    2: { by injection H3. }
    apply M_bind_inv in Hrun as [(st4 & ts1 & H4 & Hrun) | (err & H4 & ->)].
    2: { apply lift_inv in H4 as [_ H4]. symmetry in H4.
         apply setitem_frames_error in H4 as [-> | ->]; done. }
    eapply IH; [|exact Hrun]. lia.
Qed.

Lemma refine_samples_outcome self p nb_frames samples :
  ∀ ts st st' r,
  refine_samples wiener self p nb_frames samples ts st = (st', r) →
  st_heap st' = st_heap st ∧
  (∃ evs, st_trace st' = st_trace st ++ evs ∧ Forall (is_wiener_of self p) evs) ∧
  (∀ e, r = Raise e → tensor_error e) ∧
  (∀ ts', r = Ok ts' → shape ts' = shape ts).
Proof.
  induction samples as [|sample rest IH]; intros ts st st' r Hrun.
  - injection Hrun as <- <-. split; [done|].
    split; [exists []; by rewrite app_nil_r|]. split; [done|].
    by intros ts' [= <-].
  - cbn [refine_samples] in Hrun.
    apply M_bind_inv in Hrun as [(st1 & ts1 & H1 & Hrun) | (err & H1 & ->)].
    + destruct (wiener_loop_outcome _ _ _ _ _ _ _ _ _ _ _ _ H1)
        as (Hh1 & (chunks & Ht1) & _ & Hs1).
      destruct (IH _ _ _ _ Hrun) as (Hh & (evs & Ht & Hall) & Herr & Hs).
      split; [by rewrite Hh|]. split; [|split; [done|]].
      * exists (map (wiener_event self p sample) chunks ++ evs).
        rewrite Ht, Ht1, <- app_assoc. split; [done|].
        apply Forall_app. split; [|done].
        apply Forall_forall. intros ev Hev.
        apply list_elem_of_fmap in Hev as (c & -> & _). by exists sample, c.
      * intros ts' Hr. rewrite (Hs ts' Hr). by apply Hs1.
    + destruct (wiener_loop_outcome _ _ _ _ _ _ _ _ _ _ _ _ H1)
        as (Hh1 & (chunks & Ht1) & Herr & _).
      split; [done|]. split; [|split; [|done]].
      * exists (map (wiener_event self p sample) chunks). split; [done|].
        apply Forall_forall. intros ev Hev.
        apply list_elem_of_fmap in Hev as (c & -> & _). by exists sample, c.
      * intros e [= <-]. destruct (Herr err eq_refl) as [H|H]; [done|].
        subst err. exfalso.
        by eapply (wiener_loop_fuel self p sample nb_frames _ nb_frames 0 ts st);
          [lia | exact H1 |].
Qed.

Lemma forward_back_inv self p st st' r :
  forward_back istft wiener self p st = (st', r) →
  let nb_sources :=
    if _residual self then p_nb_sources p + 1 else p_nb_sources p in
  st_heap st' = st_heap st ∧
  (∃ evs, st_trace st' = st_trace st ++ evs ∧ Forall (is_wiener_of self p) evs) ∧
  (∀ e, r = Raise e →
        (e = CannotUseEM ∧ nb_sources = 1 ∧ (0 < _num_iter self)%Z ∧ st' = st) ∨
        (tensor_error e ∧ ¬ (nb_sources = 1 ∧ (0 < _num_iter self)%Z))) ∧
  (∀ est ts, r = Ok (est, ts) →
        ¬ (nb_sources = 1 ∧ (0 < _num_iter self)%Z) ∧
        length (shape (p_mix_stft p)) = 5 ∧
        shape ts !! 1 = Some nb_sources).
Proof.
  intros Hrun nb_sources. unfold forward_back in Hrun.
  fold nb_sources in Hrun.
  destruct ((nb_sources =? 1) && (0 <? _num_iter self)%Z) eqn:Echeck.
  { injection Hrun as <- <-. apply andb_true_iff in Echeck as [E1 E2].
    apply Nat.eqb_eq in E1. apply Z.ltb_lt in E2.
    split; [done|]. split; [exists []; by rewrite app_nil_r|].
    split; [|done]. intros e [= <-]. by left. }
  assert (¬ (nb_sources = 1 ∧ (0 < _num_iter self)%Z)) as Hno.
  { intros [E1 E2]. apply Nat.eqb_eq in E1. apply Z.ltb_lt in E2.
    by rewrite E1, E2 in Echeck. }
  apply M_bind_inv in Hrun as [(st1 & nf & H1 & Hrun) | (err & H1 & ->)].
  2: { apply lift_inv in H1 as [-> H1]. symmetry in H1.
       split; [done|]. split; [exists []; by rewrite app_nil_r|].
       split; [|done]. intros e [= <-]. right.
       split; [by eapply size_error | done]. }
  apply lift_inv in H1 as [-> _].
  apply M_bind_inv in Hrun as [(st2 & ts1 & H2 & Hrun) | (err & H2 & ->)].
  2: { destruct (refine_samples_outcome _ _ _ _ _ _ _ _ H2)
         as (Hh & Hev & Herr & _).
       split; [done|]. split; [done|]. split; [|done].
       intros e [= <-]. right. split; [by apply Herr | done]. }
  destruct (refine_samples_outcome _ _ _ _ _ _ _ _ H2) as (Hh & Hev & _ & Hs).
  specialize (Hs ts1 eq_refl). cbn [zeros shape] in Hs.
  apply M_bind_inv in Hrun as [(st3 & ts2 & H3 & Hrun) | (err & H3 & ->)].
  2: { apply lift_inv in H3 as [-> H3]. symmetry in H3.
       split; [done|]. split; [done|]. split; [|done].
       intros e [= <-]. right. split; [by eapply permute_error | done]. }
  apply lift_inv in H3 as [-> H3]. symmetry in H3.
  apply M_bind_inv in Hrun as [(st3 & len & H4 & Hrun) | (err & H4 & ->)].
  2: { apply lift_inv in H4 as [-> H4]. symmetry in H4.
       split; [done|]. split; [done|]. split; [|done].
       intros e [= <-]. right. split; [by eapply size_error | done]. }
  apply lift_inv in H4 as [-> _]. injection Hrun as <- <-.
  split; [done|]. split; [done|]. split; [done|].
  intros est ts [= <- <-]. split; [done|].
  destruct (permute_inv _ _ _ H3) as [Hlen Hsh].
  rewrite Hs in Hlen, Hsh. rewrite length_app in Hlen. cbn in Hlen.
  split; [lia|].
  destruct (shape (p_mix_stft p)) as [|a [|b [|c [|d [|e [|? ?]]]]]];
    cbn in Hlen; try lia.
  rewrite Hsh. reflexivity.
Qed.

End Back.

(** *** The name-keyed result *)

Lemma slice_target_ok k t d0 d1 rest :
  shape t = d0 :: d1 :: rest → k < d0 →
  slice_target k t = Ok (mk (d1 :: rest) (λ idx, at_ t (k :: idx))).
Proof.
  intros Ht Hk. unfold slice_target, index0, ndim. rewrite Ht.
  assert ((2 <=? length (d0 :: d1 :: rest)) = true) as ->
      by (apply Nat.leb_le; cbn; lia).
  apply Nat.ltb_lt in Hk. by rewrite Hk.
Qed.

Lemma slice_target_inv k t e :
  slice_target k t = Ok e →
  ∃ d0 rest, shape t = d0 :: rest ∧ k < d0 ∧ rest ≠ [] ∧
             e = mk rest (λ idx, at_ t (k :: idx)).
Proof.
  unfold slice_target, index0, ndim.
  destruct (2 <=? length (shape t)) eqn:E; [|done].
  apply Nat.leb_le in E.
  destruct (shape t) as [|d0 rest] eqn:Ht; [done|].
  destruct (k <? d0) eqn:Ek; [|done]. apply Nat.ltb_lt in Ek.
  intros [= <-]. exists d0, rest. split; [done|]. split; [done|].
  split; [|done]. destruct rest; [cbn in E; lia | done].
Qed.

Lemma slice_last_inv t e :
  slice_last t = Ok e →
  ∃ d0 rest, shape t = d0 :: rest ∧ 0 < d0 ∧ rest ≠ [] ∧
             e = mk rest (λ idx, at_ t ((d0 - 1) :: idx)).
Proof.
  unfold slice_last, index_last0, index0, ndim.
  destruct (2 <=? length (shape t)) eqn:E; [|done].
  apply Nat.leb_le in E.
  destruct (shape t) as [|d0 rest] eqn:Ht; [done|].
  destruct (d0 - 1 <? d0) eqn:Ek; [|done]. apply Nat.ltb_lt in Ek.
  intros [= <-]. exists d0, rest. split; [done|]. split; [lia|].
  split; [|done]. destruct rest; [cbn in E; lia | done].
Qed.

Lemma slice_last_ok t d0 d1 rest :
  shape t = d0 :: d1 :: rest → 0 < d0 →
  slice_last t = Ok (mk (d1 :: rest) (λ idx, at_ t ((d0 - 1) :: idx))).
Proof.
  intros Ht Hk. unfold slice_last, index_last0, index0, ndim. rewrite Ht.
  assert ((2 <=? length (d0 :: d1 :: rest)) = true) as ->
      by (apply Nat.leb_le; cbn; lia).
  assert ((d0 - 1 <? d0) = true) as -> by (apply Nat.ltb_lt; lia). done.
Qed.

Lemma per_target_lookup names :
  ∀ k t d0 d, NoDup names →
  per_target k names t d0 = Ok d →
  (∀ i name, names !! i = Some name →
             ∃ e, slice_target (k + i) t = Ok e ∧ d !! name = Some e) ∧
  (∀ name, name ∉ names → d !! name = d0 !! name).
Proof.
  induction names as [|target rest IH]; intros k t d0 d Hnd Hrun.
  - injection Hrun as <-. split; [intros i name Hi; done | done].
  - cbn [per_target] in Hrun. apply NoDup_cons in Hnd as [Hnotin Hnd].
    apply bind_Ok in Hrun as (e & He & Hrun).
    destruct (IH _ _ _ _ Hnd Hrun) as [Hin Hout]. split.
    + intros [|i] name Hi; cbn in Hi.
      * injection Hi as <-. exists e. rewrite Nat.add_0_r. split; [done|].
        rewrite (Hout target Hnotin). apply lookup_insert_eq.
      * destruct (Hin i name Hi) as (e' & He' & Hd).
        exists e'. split; [|done]. by replace (k + S i) with (S k + i) by lia.
    + intros name Hname. apply not_elem_of_cons in Hname as [Hne Hname].
      rewrite (Hout name Hname). by apply lookup_insert_ne.
Qed.

Lemma per_target_ok names :
  ∀ k t d0,
  (∀ i, i < length names → is_ok (slice_target (k + i) t) = true) →
  ∃ d, per_target k names t d0 = Ok d.
Proof.
  induction names as [|target rest IH]; intros k t d0 Hok; [by eexists|].
  cbn [per_target]. pose proof (Hok 0 ltac:(cbn; lia)) as H0.
  rewrite Nat.add_0_r in H0.
  destruct (slice_target k t) as [e|] eqn:He; [|done]. cbn.
  apply IH. intros i Hi. replace (S k + i) with (k + S i) by lia.
  apply Hok. cbn. lia.
Qed.

Lemma to_dict_plain_inv self est d :
  NoDup (dict_keys (_target_models self)) →
  to_dict self est None = Ok d →
  (∀ k name, dict_keys (_target_models self) !! k = Some name →
             (name ≠ "residual"%string ∨ _residual self = false) →
             ∃ e, slice_target k est = Ok e ∧ d !! name = Some e) ∧
  (_residual self = true →
     ∃ e, slice_last est = Ok e ∧ d !! "residual"%string = Some e) ∧
  (∀ name, is_Some (d !! name) ↔
           name ∈ dict_keys (_target_models self) ∨
           (name = "residual"%string ∧ _residual self = true)) ∧
  (∀ name e, d !! name = Some e → shape e = tail (shape est)).
Proof.
  intros Hnd Hrun. unfold to_dict in Hrun.
  apply bind_Ok in Hrun as (d1 & Hper & Hrun).
  apply bind_Ok in Hrun as (d2 & Hres & Hrun). injection Hrun as <-.
  destruct (per_target_lookup _ _ _ _ _ Hnd Hper) as [Hin Hout].
  assert (∀ name, is_Some (d1 !! name) ↔ name ∈ dict_keys (_target_models self))
    as Hdom1.
  { intros name. split.
    - intros Hs. destruct (decide (name ∈ dict_keys (_target_models self)));
        [done|]. rewrite (Hout name) in Hs by done.
      rewrite lookup_empty in Hs. by destruct Hs.
    - intros [i Hi]%list_elem_of_lookup.
      destruct (Hin i name Hi) as (e & _ & ->). eauto. }
  assert (∀ name e, d1 !! name = Some e → shape e = tail (shape est)) as Hsh1.
  { intros name e He.
    assert (name ∈ dict_keys (_target_models self)) as [i Hi]%list_elem_of_lookup
        by (apply Hdom1; eauto).
    destruct (Hin i name Hi) as (e' & He' & Hd). rewrite Hd in He.
    injection He as <-.
    apply slice_target_inv in He' as (d0 & rest & Ht & _ & _ & ->).
    by rewrite Ht. }
  destruct (_residual self) eqn:Eres.
  - apply bind_Ok in Hres as (e & He & Hres). injection Hres as <-.
    split; [|split; [|split]].
    + intros k name Hk [Hne | Hf]; [|done].
      destruct (Hin k name Hk) as (e' & He' & Hd). rewrite Nat.add_0_l in He'.
      exists e'. split; [done|]. by rewrite lookup_insert_ne.
    + intros _. exists e. split; [done|]. apply lookup_insert_eq.
    + intros name. destruct (decide (name = "residual"%string)) as [->|Hne].
      * rewrite lookup_insert_eq. split; [intros _; by right | eauto].
      * rewrite lookup_insert_ne by done. rewrite Hdom1.
        split; [by left | intros [H | [H _]]; done].
    + intros name e'. destruct (decide (name = "residual"%string)) as [->|Hne].
      * rewrite lookup_insert_eq. intros [= <-].
        apply slice_last_inv in He as (d0 & rest & Ht & _ & _ & ->).
        by rewrite Ht.
      * rewrite lookup_insert_ne by done. apply Hsh1.
  - injection Hres as <-. split; [|split; [|split]].
    + intros k name Hk _.
      destruct (Hin k name Hk) as (e' & He' & Hd). rewrite Nat.add_0_l in He'.
      eauto.
    + done.
    + intros name. rewrite Hdom1. split; [by left | intros [H | [_ H]]; done].
    + done.
Qed.

(** Every entry of the plain dictionary is a slice of the estimates
    along their first axis. *)
Lemma per_target_shapes names :
  ∀ k t (d0 d : gmap string tensor),
  (∀ name e, d0 !! name = Some e → shape e = tail (shape t)) →
  per_target k names t d0 = Ok d →
  ∀ name e, d !! name = Some e → shape e = tail (shape t).
Proof.
  induction names as [|target rest IH]; intros k t d0 d Hd0 Hrun.
  - by injection Hrun as <-.
  - cbn [per_target] in Hrun. apply bind_Ok in Hrun as (e & He & Hrun).
    apply (IH _ _ _ _) with (2 := Hrun). intros name e'.
    destruct (decide (name = target)) as [->|Hne].
    + rewrite lookup_insert_eq. intros [= <-].
      apply slice_target_inv in He as (d1 & r & Ht & _ & _ & ->).
      by rewrite Ht.
    + rewrite lookup_insert_ne by done. apply Hd0.
Qed.

Lemma to_dict_plain_shapes self est d :
  to_dict self est None = Ok d →
  ∀ name e, d !! name = Some e → shape e = tail (shape est).
Proof.
  intros Hrun. unfold to_dict in Hrun.
  apply bind_Ok in Hrun as (d1 & Hper & Hrun).
  apply bind_Ok in Hrun as (d2 & Hres & Hrun). injection Hrun as <-.
  pose proof (per_target_shapes _ _ _ _ _ (λ name e (H : (∅ : gmap string tensor) !! name = Some e), ltac:(by rewrite lookup_empty in H)) Hper) as Hsh1.
  destruct (_residual self).
  - apply bind_Ok in Hres as (e & He & Hres). injection Hres as <-.
    intros name e'. destruct (decide (name = "residual"%string)) as [->|Hne].
    + rewrite lookup_insert_eq. intros [= <-].
      apply slice_last_inv in He as (d0 & rest & Ht & _ & _ & ->).
      by rewrite Ht.
    + rewrite lookup_insert_ne by done. apply Hsh1.
  - by injection Hres as <-.
Qed.

(** With enough slices along the first axis the plain dictionary is
    built. *)
Lemma to_dict_plain_ok self est d0 d1 rest :
  shape est = d0 :: d1 :: rest →
  effective_sources self ≤ d0 →
  ∃ d, to_dict self est None = Ok d.
Proof.
  intros Hsh Hn. unfold to_dict, effective_sources in *.
  assert (length (dict_keys (_target_models self))
          = length (_target_models self)) as Hlen
      by (unfold dict_keys; by rewrite length_fmap).
  destruct (per_target_ok (dict_keys (_target_models self)) 0 est ∅) as [d Hd].
  { intros i Hi. cbn. rewrite (slice_target_ok i est d0 d1 rest Hsh); [done|].
    rewrite Hlen in Hi. destruct (_residual self); lia. }
  rewrite Hd. cbn. destruct (_residual self).
  - rewrite (slice_last_ok est d0 d1 rest Hsh) by lia. cbn. eauto.
  - cbn. eauto.
Qed.

(** *** Aggregation *)

Lemma bcast_index_id s idx : in_bounds s idx → bcast_index s idx = idx.
Proof.
  intros H. unfold bcast_index. apply in_bounds_reverse in H.
  unfold in_bounds in H.
  assert (zip_with (λ d i, if d =? 1 then 0 else i) (reverse s) (reverse idx)
          = reverse idx) as ->; [|apply reverse_involutive].
  induction H as [|i d ri rs Hi _ IH]; [done|]. cbn. rewrite IH. f_equal.
  destruct (d =? 1) eqn:E; [|done]. apply Nat.eqb_eq in E. lia.
Qed.

Lemma broadcast_shapes_scalar_l s : broadcast_shapes [] s = Some s.
Proof.
  unfold broadcast_shapes. cbn. by rewrite reverse_involutive.
Qed.

Lemma sum_targets_same_shape (d0 : gmap string tensor) sh :
  (∀ name e, d0 !! name = Some e → shape e = sh) →
  ∀ names acc,
  shape acc = sh →
  Forall (λ name, is_Some (d0 !! name)) names →
  ∃ v ts, sum_targets d0 names acc = Ok v ∧
          Forall2 (λ name t, d0 !! name = Some t) names ts ∧
          shape v = sh ∧
          ∀ idx, in_bounds sh idx →
                 at_ v idx = fold_left Qplus (map (λ t, at_ t idx) ts) (at_ acc idx).
Proof.
  intros Hsh. induction names as [|name rest IH]; intros acc Hacc Hall.
  - exists acc, []. split; [done|]. split; [constructor|]. done.
  - apply Forall_cons in Hall as [[e He] Hrest].
    cbn [sum_targets]. rewrite He. cbn [mbind result_bind Py.bind].
    unfold add, map2. rewrite (Hsh name e He), Hacc, broadcast_shapes_same.
    cbn [mbind result_bind Py.bind].
    set (acc' := mk _ _).
    destruct (IH acc' eq_refl Hrest) as (v & ts & Hv & Hts & Hshv & Hat).
    exists v, (e :: ts). split; [done|]. split; [by constructor|].
    split; [done|]. intros idx Hidx. rewrite (Hat idx Hidx).
    subst acc'. cbn [at_ map fold_left]. by rewrite (bcast_index_id _ _ Hidx).
Qed.

Lemma sum_targets_from_zero (d0 : gmap string tensor) sh names :
  (∀ name e, d0 !! name = Some e → shape e = sh) →
  Forall (λ name, is_Some (d0 !! name)) names →
  ∃ v ts, sum_targets d0 names (scalar 0) = Ok v ∧
          Forall2 (λ name t, d0 !! name = Some t) names ts ∧
          shape v = match names with [] => [] | _ => sh end ∧
          ∀ idx, in_bounds (shape v) idx → at_ v idx = elementwise_sum ts idx.
Proof.
  intros Hsh Hall. destruct names as [|name rest].
  - exists (scalar 0), []. split; [done|]. split; [constructor|]. done.
  - apply Forall_cons in Hall as [[e He] Hrest].
    cbn [sum_targets]. rewrite He. cbn [mbind result_bind Py.bind].
    unfold add, map2. rewrite (Hsh name e He). cbn [scalar shape].
    rewrite broadcast_shapes_scalar_l. cbn [mbind result_bind Py.bind].
    set (acc' := mk _ _).
    destruct (sum_targets_same_shape d0 sh Hsh rest acc' eq_refl Hrest)
      as (v & ts & Hv & Hts & Hshv & Hat).
    exists v, (e :: ts). split; [done|]. split; [by constructor|].
    split; [done|]. rewrite Hshv. intros idx Hidx. rewrite (Hat idx Hidx).
    subst acc'. unfold elementwise_sum. cbn [at_ map fold_left].
    by rewrite (bcast_index_id _ _ Hidx).
Qed.

Lemma aggregate_spec (d0 : gmap string tensor) items :
  ∀ new, NoDup items.*1 →
  (∀ key names, (key, names) ∈ items →
                ∃ v, sum_targets d0 names (scalar 0) = Ok v) →
  ∃ d, aggregate d0 items new = Ok d ∧
       (∀ key names, (key, names) ∈ items →
                     ∃ v, sum_targets d0 names (scalar 0) = Ok v ∧
                          d !! key = Some v) ∧
       (∀ key, key ∉ items.*1 → d !! key = new !! key).
Proof.
  induction items as [|[key names] rest IH]; intros new Hnd Hok.
  - exists new. split; [done|]. split; [|done]. intros key names H. inversion H.
  - cbn in Hnd. apply NoDup_cons in Hnd as [Hnotin Hnd].
    destruct (Hok key names) as [v Hv]; [by left|].
    cbn [aggregate]. rewrite Hv. cbn [mbind result_bind Py.bind].
    destruct (IH (<[key := v]> new) Hnd) as (d & Hd & Hin & Hout).
    { intros k n Hkn. apply (Hok k n). by right. }
    exists d. split; [done|]. split.
    + intros k n [Heq | Hkn]%elem_of_cons.
      * injection Heq as -> ->. exists v. split; [done|].
        rewrite (Hout key Hnotin). apply lookup_insert_eq.
      * by apply Hin.
    + intros k Hk. cbn in Hk. apply not_elem_of_cons in Hk as [Hne Hk].
      rewrite (Hout k Hk). by apply lookup_insert_ne.
Qed.

(** C5, as amended: when the estimates have a slice for every loaded
    target (so that the plain dictionary [d0] is built) and every
    constituent name of the aggregation is a key of [d0], [to_dict]
    returns a dictionary whose keys are exactly those of the aggregation;
    each key holds the elementwise sum of the estimates [d0] holds for
    its constituents (the zero-dimensional 0 for an empty list), and no
    other name is a key. *)
Theorem to_dict_aggregates self est (agg : gmap string (list string))
    (d0 : gmap string tensor) :
  to_dict self est None = Ok d0 →
  (∀ key names name, agg !! key = Some names → name ∈ names →
                     is_Some (d0 !! name)) →
  ∃ d, to_dict self est (Some agg) = Ok d ∧
       dom d = dom agg ∧
       (∀ name, name ∉ dom agg → d !! name = None) ∧
       ∀ key names, agg !! key = Some names →
         ∃ v ts, d !! key = Some v ∧
                 Forall2 (λ name t, d0 !! name = Some t) names ts ∧
                 shape v = match names with [] => [] | _ => tail (shape est) end ∧
                 ∀ idx, in_bounds (shape v) idx →
                        at_ v idx = elementwise_sum ts idx.
Proof.
  intros Hplain Hknown.
  pose proof (to_dict_plain_shapes self est d0 Hplain) as Hsh.
  assert (∀ key names, (key, names) ∈ map_to_list agg →
            ∃ v ts, sum_targets d0 names (scalar 0) = Ok v ∧
                    Forall2 (λ name t, d0 !! name = Some t) names ts ∧
                    shape v = match names with [] => [] | _ => tail (shape est) end ∧
                    ∀ idx, in_bounds (shape v) idx →
                           at_ v idx = elementwise_sum ts idx) as Hsum.
  { intros key names Hin. apply elem_of_map_to_list in Hin.
    apply sum_targets_from_zero; [done|].
    apply Forall_forall. intros name Hname. by eapply Hknown. }
  destruct (aggregate_spec d0 (map_to_list agg) ∅) as (d & Hd & Hin & Hout).
  { apply NoDup_fst_map_to_list. }
  { intros key names H. destruct (Hsum key names H) as (v & _ & Hv & _). eauto. }
  assert (to_dict self est (Some agg) = Ok d) as Hrun.
  { unfold to_dict in *.
    destruct (per_target 0 _ est ∅) as [d1|]; [|done].
    cbn [mbind result_bind Py.bind] in *.
    destruct (if _residual self then _ else _) as [d2|]; [|done].
    cbn [mbind result_bind Py.bind] in *. injection Hplain as ->. done. }
  assert (∀ key, is_Some (d !! key) ↔ is_Some (agg !! key)) as Hdom.
  { intros key. split.
    - intros Hs. destruct (agg !! key) as [names|] eqn:E; [eauto|].
      rewrite Hout in Hs; [rewrite lookup_empty in Hs; by destruct Hs|].
      intros [[k n] [Hk Hkn]]%list_elem_of_fmap. cbn in Hk. subst k.
      apply elem_of_map_to_list in Hkn. congruence.
    - intros [names Hn]. apply elem_of_map_to_list in Hn.
      destruct (Hin key names Hn) as (v & _ & ->). eauto. }
  exists d. split; [done|]. split; [|split].
  - apply set_eq. intros key. by rewrite !elem_of_dom.
  - intros name Hname. rewrite elem_of_dom, <- Hdom in Hname.
    by apply eq_None_not_Some.
  - intros key names Hkey.
    pose proof (proj2 (elem_of_map_to_list agg key names) Hkey) as Hkn.
    destruct (Hsum key names Hkn) as (v & ts & Hv & Hts & Hshv & Hat).
    destruct (Hin key names Hkn) as (v' & Hv' & Hdk).
    rewrite Hv in Hv'. injection Hv' as <-.
    exists v, ts. done.
Qed.

(** *** Estimators and the dictionary of target models *)

Lemma scribbler_frame_ok : frame_ok scribbler.
Proof.
  intros arg h h' r Hest l Hne _. cbn in Hest.
  destruct (h !! arg); injection Hest as <- _; [|done].
  apply lookup_insert_ne. by intros ->.
Qed.

Lemma module_estimator_frame_ok tanh m : frame_ok (module_estimator tanh m).
Proof.
  intros arg h h' r Hest l Hne Hl. cbn in Hest.
  destruct (h !! arg); [|by injection Hest as <- _].
  destruct (OpenUnmix.forward tanh m t); [|by injection Hest as <- _].
  injection Hest as <- _.
  cbn zeta. apply lookup_insert_ne. intros <-.
  pose proof (is_fresh (dom h)) as Hf. apply not_elem_of_dom in Hf.
  rewrite Hf in Hl. by destruct Hl.
Qed.

Lemma dict_keys_dict_set {V} k (v : V) d :
  dict_keys (dict_set k v d)
  = if decide (k ∈ dict_keys d) then dict_keys d else dict_keys d ++ [k].
Proof.
  unfold dict_keys. induction d as [|[k' v'] d IH]; cbn [dict_set fmap list_fmap fst].
  - rewrite decide_False; [done | apply not_elem_of_nil].
  - destruct (decide (k' = k)) as [->|Hne]; cbn [fmap list_fmap fst].
    + rewrite decide_True; [done | by left].
    + rewrite IH. destruct (decide (k ∈ d.*1)) as [Hin|Hnin].
      * rewrite decide_True; [done | by right].
      * rewrite decide_False; [done|].
        intros [->|H]%elem_of_cons; done.
Qed.

Lemma dict_set_NoDup {V} k (v : V) d :
  NoDup (dict_keys d) → NoDup (dict_keys (dict_set k v d)).
Proof.
  intros H. rewrite dict_keys_dict_set. destruct (decide _); [done|].
  apply NoDup_app. split; [done|]. split; [|apply NoDup_singleton].
  intros x Hx [->|Hn]%elem_of_cons; [done | inversion Hn].
Qed.

Lemma load_targets_NoDup tanh w tl self targets :
  ∀ d d', NoDup (dict_keys d) →
  load_targets tanh w tl self targets d = Ok d' → NoDup (dict_keys d').
Proof.
  induction targets as [|t rest IH]; intros d d' Hd Hrun; cbn in Hrun.
  - by injection Hrun as <-.
  - destruct (tl t); [|done]. eapply IH; [|exact Hrun]. by apply dict_set_NoDup.
Qed.

(** The target models set by [load_model] form a dictionary: no name
    occurs twice, and every model is an [OpenUnmix] module. *)
Lemma load_model_NoDup tanh w tl self targets self' :
  load_model tanh w tl self targets = Ok self' →
  NoDup (dict_keys (_target_models self')).
Proof.
  unfold load_model. intros Hrun. apply bind_Ok in Hrun as (d & Hd & Hrun).
  injection Hrun as <-. cbn. eapply load_targets_NoDup; [|exact Hd].
  apply NoDup_nil_2.
Qed.

(** *** The claims about [forward], [to_dict] and [separate] *)

Section Claims.
Variable stft : tensor → tensor.
Variable istft : tensor → nat → tensor.
Variable complexnorm : tensor → tensor.
Variable wiener : tensor → tensor → Z → bool → bool → tensor.

(** C6: whatever the estimators write into the tensor they are given,
    after the loop over the targets the mixture waveform and the
    magnitude [X] hold what they held before, and every estimator call
    was made on a new tensor of its own that held the entries of [X]:
    the j-th estimator sees the same data however many ran before it. *)
Theorem estimators_see_independent_copy self mix mixv st st' r :
  (∀ name e, (name, e) ∈ _target_models self → frame_ok e) →
  st_heap st !! mix = Some mixv →
  forward_front stft complexnorm self mix st = (st', r) →
  let X := fresh (dom (st_heap st)) in
  let Xv := complexnorm (stft mixv) in
  preserves st st' ∧
  st_heap st' !! mix = Some mixv ∧
  (is_ok (size 0 mixv) = true → st_heap st' !! X = Some Xv) ∧
  ∃ args,
    st_trace st' =
      st_trace st ++ estimate_events Xv (dict_keys (_target_models self)) args ∧
    Forall (λ arg, arg ≠ X ∧ arg ≠ mix ∧ st_heap st !! arg = None) args ∧
    (is_ok r = true → length args = length (_target_models self)).
Proof.
  intros Hframe Hmix Hrun X Xv.
  assert (preserves st st' ∧
          (is_ok (size 0 mixv) = true → st_heap st' !! X = Some Xv) ∧
          ∃ args,
            st_trace st' =
              st_trace st ++ estimate_events Xv (dict_keys (_target_models self)) args ∧
            Forall (λ arg, arg ≠ X ∧ arg ≠ mix ∧ st_heap st !! arg = None) args ∧
            (is_ok r = true → length args = length (_target_models self)))
    as (Hpres & HX & Hargs).
  2: { split; [done|]. split; [|done]. rewrite (Hpres mix); [done | by rewrite Hmix]. }
  unfold forward_front in Hrun.
  rewrite (M_bind_Ok _ _ st st mixv) in Hrun by (unfold load; by rewrite Hmix).
  destruct (size 0 mixv) as [ns|err] eqn:Hsz.
  2: { rewrite (M_bind_Raise _ _ st st err) in Hrun by done.
       injection Hrun as <- <-. split; [apply preserves_refl|]. split; [done|].
       exists []. unfold estimate_events. rewrite zip_with_nil_r, app_nil_r. done. }
  rewrite (M_bind_Ok _ _ st st ns) in Hrun by done.
  destruct (alloc_spec Xv st) as (X' & Halloc & Hfresh).
  assert (X' = X) as -> by (unfold alloc in Halloc; by injection Halloc).
  rewrite (M_bind_Ok _ _ _ _ _ Halloc) in Hrun.
  set (st1 := mkState _ _) in Hrun.
  assert (st_heap st1 !! X = Some Xv) as HX1 by apply lookup_insert_eq.
  rewrite (M_bind_Ok _ _ st1 st1 Xv) in Hrun by (unfold load; by rewrite HX1).
  assert (preserves st st1) as Hpres1.
  { intros l Hl. subst st1. cbn [st_heap]. apply lookup_insert_ne.
    intros <-. rewrite Hfresh in Hl. by destruct Hl. }
  assert (∀ st2 (r2 : result tensor),
            estimate_targets self X 0 (dict_keys (_target_models self))
              (zeros (shape Xv ++ [length (_target_models self)])) st1 = (st2, r2) →
            preserves st st2 ∧ st_heap st2 !! X = Some Xv ∧
            ∃ args,
              st_trace st2 =
                st_trace st ++ estimate_events Xv (dict_keys (_target_models self)) args ∧
              Forall (λ arg, arg ≠ X ∧ arg ≠ mix ∧ st_heap st !! arg = None) args ∧
              (is_ok r2 = true → length args = length (_target_models self)))
    as Hloop.
  { intros st2 r2 Hest.
    destruct (estimate_targets_frame self X Xv _ Hframe _ _ _ _ _ HX1 Hest)
      as (Hpres2 & args & Htr & Hfr & Hlen).
    split; [by eapply preserves_trans|].
    split; [rewrite (Hpres2 X); [done | by rewrite HX1]|].
    exists args. split; [done|]. split.
    - eapply Forall_impl; [exact Hfr|]. intros arg Harg. cbn beta in Harg.
      subst st1. cbn [st_heap] in Harg.
      apply lookup_insert_None in Harg as [Hnone Hne].
      split; [done|]. split; [|done]. intros ->. by rewrite Hmix in Hnone.
    - intros Hok. rewrite (Hlen Hok). unfold dict_keys. by rewrite length_fmap. }
  apply M_bind_inv in Hrun as [(st2 & sp & Hest & Hrun) | (err & Hest & ->)].
  2: { destruct (Hloop _ _ Hest) as (H1 & H2 & H3). done. }
  destruct (Hloop _ _ Hest) as (H1 & H2 & args & Htr & Hfr & Hlen).
  assert (st' = st2) as ->.
  { apply M_bind_inv in Hrun as [(st3 & sp' & Hp1 & Hrun) | (err & Hp1 & ->)];
      [|by apply lift_inv in Hp1 as [-> _]].
    apply lift_inv in Hp1 as [-> _].
    apply M_bind_inv in Hrun as [(st3 & ms' & Hp2 & Hrun) | (err & Hp2 & ->)];
      [|by apply lift_inv in Hp2 as [-> _]].
    apply lift_inv in Hp2 as [-> _]. by injection Hrun. }
  split; [done|]. split; [done|]. exists args. split; [done|]. split; [done|].
  intros _. by apply Hlen.
Qed.


Lemma effective_sources_prepared self mix st st1 p :
  forward_front stft complexnorm self mix st = (st1, Ok p) →
  (if _residual self then p_nb_sources p + 1 else p_nb_sources p)
  = effective_sources self.
Proof.
  intros Hfront.
  destruct (forward_front_inv stft complexnorm self mix st st1 _ Hfront)
    as [_ Hp]. destruct (Hp p eq_refl) as (Hn & _).
  unfold effective_sources. by rewrite Hn.
Qed.

(** C1: in a call of [forward] with [num_iter > 0] and an effective
    source count of exactly one, no call to the filter is made and the
    call does not return: once the stages before the check have run, it
    raises the "Cannot use EM" exception, in the state they left. With
    an effective source count of at least two that exception is not
    raised. *)
Theorem forward_em_needs_two_sources self mix st st' r :
  (0 < _num_iter self)%Z →
  forward stft istft complexnorm wiener self mix st = (st', r) →
  (effective_sources self = 1 →
     is_ok r = false ∧
     (∃ evs, st_trace st' = st_trace st ++ evs ∧ Forall is_estimate evs) ∧
     (∀ st1 p, forward_front stft complexnorm self mix st = (st1, Ok p) →
               r = Raise CannotUseEM ∧ st' = st1)) ∧
  (2 ≤ effective_sources self →
     ∀ st1 p, forward_front stft complexnorm self mix st = (st1, Ok p) →
              r ≠ Raise CannotUseEM).
Proof.
  intros Hiter Hrun. unfold forward in Hrun.
  apply M_bind_inv in Hrun as [(st1 & p & Hfront & Hback) | (err & Hfront & ->)].
  - pose proof (effective_sources_prepared _ _ _ _ _ Hfront) as Heff.
    destruct (forward_front_inv stft complexnorm self mix st st1 _ Hfront)
      as [Hev _].
    destruct (forward_back_inv wiener istft self p st1 st' r Hback)
      as (_ & _ & Herr & Hok).
    rewrite Heff in Herr, Hok. split.
    + intros Hone.
      assert (r = Raise CannotUseEM ∧ st' = st1) as [-> ->].
      { destruct r as [[est ts]|e].
        - destruct (Hok est ts eq_refl) as [Hno _]. by destruct Hno.
        - destruct (Herr e eq_refl) as [(-> & _ & _ & ->) | [_ Hno]]; [done|].
          by destruct Hno. }
      split; [done|]. split; [done|].
      intros st1' p' Hfront'. rewrite Hfront in Hfront'.
      by injection Hfront' as <- <-.
    + intros Htwo st1' p' _ ->.
      destruct (Herr _ eq_refl) as [(_ & Hone & _) | [[H|H] _]]; [lia|done|done].
  - destruct (forward_front_inv stft complexnorm self mix st st' _ Hfront)
      as [Hev _].
    split.
    + intros _. split; [done|]. split; [done|].
      intros st1 p Hfront'. rewrite Hfront in Hfront'. done.
    + intros _ st1 p Hfront'. rewrite Hfront in Hfront'. done.
Qed.

(** The size of the source axis of the stack handed to the filter, when
    the spectrograms have the five axes of [forward]. *)
Lemma wiener_event_stacked self p a b c d n sample cur :
  shape (p_spectrograms p) = [a; b; c; d; n] →
  wiener_event self p sample cur
  = EvWiener sample cur n (_num_iter self) (_softmask self) (_residual self).
Proof. intros H. unfold wiener_event. by rewrite H. Qed.





End Claims.

(** *** The statements at work on the sample separator *)

Lemma sample_self_keys :
  dict_keys (_target_models (sample_self true (Some 4%Z) 0 None))
  = ["piano"; "orch"]%string.
Proof. vm_compute. reflexivity. Qed.

Lemma sample_self_NoDup :
  NoDup (dict_keys (_target_models (sample_self true (Some 4%Z) 0 None))).
Proof.
  rewrite sample_self_keys. compute_done.
Qed.


Lemma sample_refinable :
  refinable sample_wiener (sample_self true (Some 4%Z) 0 None) sample_prepared
            1 6 [3; 2; 2] [3; 2; 2] 3.
Proof.
  split; [reflexivity | reflexivity |].
  intros s m k Hs Hm. unfold sample_wiener. rewrite Hs, Hm. reflexivity.
Qed.

Lemma forward_em_needs_two_sources_witness :
  is_ok (sample_forward (sample_self false (Some 4%Z) 1 (Some ["piano"%string]))
                        sample_state).2 = false.
Proof.
  destruct (sample_forward (sample_self false (Some 4%Z) 1 (Some ["piano"%string]))
                           sample_state) as [st' r] eqn:H.
  refine (proj1 (proj1 (forward_em_needs_two_sources
                          sample_stft sample_istft sample_complexnorm sample_wiener
                          _ 0 sample_state st' r _ H) _)).
  - vm_compute. reflexivity.
  - vm_compute. reflexivity.
Defined.

Lemma chunking_loop_partitions_witness :
  ∃ chunks ts',
    refine_samples sample_wiener (sample_self true (Some 4%Z) 0 None)
                   sample_prepared 6 (seq 0 1) (zeros [1; 6; 3; 2; 2; 3])
                   sample_state
    = (mkState (st_heap sample_state)
               (st_trace sample_state ++
                  refinement_events (sample_self true (Some 4%Z) 0 None)
                                    sample_prepared (seq 0 1) chunks),
       Ok ts') ∧
    concat chunks = seq 0 6.
Proof.
  destruct (chunking_loop_partitions sample_wiener
              (sample_self true (Some 4%Z) 0 None) sample_prepared
              1 6 [3; 2; 2] [3; 2; 2] 3 (zeros [1; 6; 3; 2; 2; 3]) sample_state
              sample_refinable eq_refl)
    as (chunks & ts' & Hrun & Hcat & _).
  - lia.
  - vm_compute. intros H. discriminate H.
  - exists chunks, ts'. split; [exact Hrun | exact Hcat].
Defined.


Lemma to_dict_aggregates_witness :
  ∃ d, to_dict (sample_self true (Some 4%Z) 0 None) sample_estimates
               (Some {[ "acc"%string := ["piano"; "orch"]%string ]}) = Ok d ∧
       dom d = {[ "acc"%string ]}.
Proof.
  destruct (to_dict_plain_ok (sample_self true (Some 4%Z) 0 None)
              sample_estimates 3 2 [6] eq_refl) as [d0 Hd0].
  { vm_compute. lia. }
  destruct (to_dict_aggregates (sample_self true (Some 4%Z) 0 None)
              sample_estimates {[ "acc"%string := ["piano"; "orch"]%string ]}
              d0 Hd0) as (d & Hd & Hdom & _).
  - intros key names name Hkey Hname.
    apply lookup_singleton_Some in Hkey as [_ <-].
    destruct (to_dict_plain_inv _ _ _ sample_self_NoDup Hd0) as (_ & _ & Hdom & _).
    apply Hdom. left. rewrite sample_self_keys. exact Hname.
  - exists d. split; [exact Hd|]. rewrite Hdom. apply dom_singleton_L.
Defined.

(** C5 as stated fails: a constituent name that is neither a loaded
    target nor ["residual"] makes [to_dict] raise instead of returning a
    dictionary. *)
Lemma to_dict_aggregates_counterexample :
  to_dict (sample_self true (Some 4%Z) 0 None) sample_estimates
          (Some {[ "acc"%string := ["piano"; "drums"]%string ]}) = Raise KeyError ∧
  ¬ ∃ d, to_dict (sample_self true (Some 4%Z) 0 None) sample_estimates
                 (Some {[ "acc"%string := ["piano"; "drums"]%string ]}) = Ok d.
Proof.
  assert (to_dict (sample_self true (Some 4%Z) 0 None) sample_estimates
            (Some {[ "acc"%string := ["piano"; "drums"]%string ]}) = Raise KeyError)
    as H by (vm_compute; reflexivity).
  split; [exact H|]. intros [d Hd]. rewrite H in Hd. discriminate Hd.
Qed.

Lemma estimators_see_independent_copy_witness :
  st_heap (forward_front sample_stft sample_complexnorm scribbling_separator 0
                         sample_state).1 !! 0
  = Some (OpenUnmix.all_ones [1; 2; 6]).
Proof.
  destruct (forward_front sample_stft sample_complexnorm scribbling_separator 0
                          sample_state) as [st' r] eqn:H.
  destruct (estimators_see_independent_copy sample_stft sample_complexnorm
              scribbling_separator 0 (OpenUnmix.all_ones [1; 2; 6])
              sample_state st' r) as (_ & Hmix & _).
  - intros name e Hin. cbn in Hin.
    apply elem_of_cons in Hin as [Heq | Hin].
    + injection Heq as _ ->. exact scribbler_frame_ok.
    + apply elem_of_cons in Hin as [Heq | Hin].
      * injection Heq as _ ->. exact scribbler_frame_ok.
      * inversion Hin.
  - reflexivity.
  - exact H.
  - exact Hmix.
Defined.


(** The conditions of the statements above are needed. A chunk length of
    0 makes the first iteration index an empty tensor; a target that is
    itself named ["residual"] shares its key with the residual source,
    so that the key is there without residual mode. *)
Example chunking_zero_window :
  (refine_samples sample_wiener (sample_self true (Some 0%Z) 0 None)
                  sample_prepared 6 (seq 0 1) (zeros [1; 6; 3; 2; 2; 3])
                  sample_state).2 = Raise IndexError.
Proof. vm_compute. reflexivity. Qed.

Example target_named_residual :
  ∃ d e, to_dict (sample_self false (Some 4%Z) 0 (Some ["residual"%string]))
                 sample_estimates None = Ok d ∧
         d !! "residual"%string = Some e.
Proof. eexists _, _. split; vm_compute; reflexivity. Qed.

End UMXFacts.

(** ** Further properties of the bandwidth limiter *)

Module BandwidthProps.
Import Bandwidth BandwidthFacts.

Lemma bandwidth_to_max_bin_inv rate n_fft bandwidth r :
  bandwidth_to_max_bin rate n_fft bandwidth = Ok r →
  ∃ freqs m, linspace 0 (rate / 2) (n_fft / 2 + 1) = Ok freqs ∧
             np_max (where_le freqs bandwidth) = Ok m ∧ r = Z.of_nat m + 1.
Proof.
  unfold bandwidth_to_max_bin.
  destruct (linspace _ _ _) as [freqs|e]; [|discriminate].
  destruct (np_max (where_le freqs bandwidth)) as [m|e] eqn:Hm;
    simpl; rewrite Hm; [|discriminate].
  intros [= <-]. by exists freqs, m.
Qed.

Lemma max_bin_index rate n_fft bandwidth r :
  bandwidth_to_max_bin rate n_fft bandwidth = Ok r →
  ∃ m, r = Z.of_nat m + 1 ∧ (m < Z.to_nat (n_fft / 2 + 1))%nat.
Proof.
  intros (freqs & m & Hg & Hm & ->)%bandwidth_to_max_bin_inv.
  exists m. split; [done|].
  apply np_max_greatest in Hm as [Hm _].
  apply elem_of_where_le in Hm as (f & Hf & _).
  apply lookup_lt_Some in Hf.
  by rewrite (linspace_length _ _ _ _ Hg) in Hf.
Qed.

Lemma max_bin_errors rate n_fft bandwidth e :
  bandwidth_to_max_bin rate n_fft bandwidth = Raise e → e = ValueError.
Proof.
  unfold bandwidth_to_max_bin, linspace.
  destruct (n_fft / 2 + 1 <? 0); simpl; [congruence|].
  match goal with |- context [np_max ?l] => destruct l end; simpl; congruence.
Qed.

(** X1: whenever [bandwidth_to_max_bin] returns, the bin count it returns
    lies between 1 and the number [n_fft // 2 + 1] of grid points: it can
    be used to crop the bins of a transform of length [n_fft]. *)
Theorem bandwidth_to_max_bin_range (rate : Q) (n_fft : Z) (bandwidth : Q) r :
  bandwidth_to_max_bin rate n_fft bandwidth = Ok r →
  1 ≤ r ≤ n_fft / 2 + 1.
Proof.
  intros (freqs & m & Hg & Hm & ->)%bandwidth_to_max_bin_inv.
  apply np_max_greatest in Hm as [Hm _].
  apply elem_of_where_le in Hm as (f & Hf & _).
  apply lookup_lt_Some in Hf.
  rewrite (linspace_length _ _ _ _ Hg) in Hf. lia.
Qed.

Lemma bandwidth_to_max_bin_range_witness :
  bandwidth_to_max_bin 8000 1024 2000 = Ok 257 ∧ 1 ≤ 257 ≤ 1024 / 2 + 1.
Proof.
  assert (bandwidth_to_max_bin 8000 1024 2000 = Ok 257) as H
    by (vm_compute; reflexivity).
  split; [exact H|].
  exact (bandwidth_to_max_bin_range 8000 1024 2000 257 H).
Defined.

(** X2: [bandwidth_to_max_bin] is monotone in the bandwidth: if it
    returns [r] for a bandwidth, it also returns for every larger
    bandwidth, with a bin count of at least [r]. *)
Theorem bandwidth_to_max_bin_monotone (rate : Q) (n_fft : Z) (bw bw' : Q) r :
  (bw <= bw')%Q →
  bandwidth_to_max_bin rate n_fft bw = Ok r →
  ∃ r', bandwidth_to_max_bin rate n_fft bw' = Ok r' ∧ r ≤ r'.
Proof.
  intros Hle (freqs & m & Hg & Hm & ->)%bandwidth_to_max_bin_inv.
  apply np_max_greatest in Hm as [Hm _].
  assert (m ∈ where_le freqs bw') as Hm'.
  { apply elem_of_where_le in Hm as (f & Hf & Hfb).
    apply elem_of_where_le. exists f. split; [done | lra]. }
  destruct (np_max_nonempty _ _ Hm') as [m' Hmax].
  exists (Z.of_nat m' + 1). split.
  - unfold bandwidth_to_max_bin. rewrite Hg. simpl. rewrite Hmax. done.
  - apply np_max_greatest in Hmax as [_ Hup]. specialize (Hup m Hm'). lia.
Qed.

Lemma bandwidth_to_max_bin_monotone_witness :
  ∃ r', bandwidth_to_max_bin 8000 1024 3000 = Ok r' ∧ 257 ≤ r'.
Proof.
  apply (bandwidth_to_max_bin_monotone 8000 1024 2000 3000 257).
  - discriminate.
  - vm_compute. reflexivity.
Defined.

Lemma linspace_first_zero stop num freqs :
  1 ≤ num → linspace 0 stop num = Ok freqs →
  ∃ f, freqs !! 0%nat = Some f ∧ (f == 0)%Q.
Proof.
  intros Hnum Hg.
  destruct (Z_lt_le_dec 1 num) as [H|H].
  - by apply (linspace_lookup_first 0 stop num).
  - assert (num = 1) as -> by lia. rewrite linspace_one in Hg.
    injection Hg as <-. eexists. split; [done|]. unfold inject_Z. ring.
Qed.

(** X3: the only exception [bandwidth_to_max_bin] raises is
    [ValueError]; a negative FFT length always raises it (the grid is
    empty or its size negative); and for [n_fft >= 0] and a bandwidth of
    at least 0 the function returns, whatever the sample rate, since the
    first grid point is 0. *)
Theorem bandwidth_to_max_bin_outcome (rate : Q) (n_fft : Z) (bandwidth : Q) :
  (∀ e, bandwidth_to_max_bin rate n_fft bandwidth = Raise e → e = ValueError) ∧
  (n_fft < 0 → bandwidth_to_max_bin rate n_fft bandwidth = Raise ValueError) ∧
  (0 ≤ n_fft → (0 <= bandwidth)%Q →
   ∃ r, bandwidth_to_max_bin rate n_fft bandwidth = Ok r).
Proof.
  pose proof (max_bin_errors rate n_fft bandwidth) as Herr.
  split; [done|]. split.
  - intros Hneg.
    assert (n_fft / 2 + 1 ≤ 0) as Hnum.
    { assert (n_fft / 2 < 0) by (apply Z.div_lt_upper_bound; lia). lia. }
    destruct (bandwidth_to_max_bin rate n_fft bandwidth) as [r|e] eqn:H.
    + apply max_bin_index in H as (m & -> & Hm). lia.
    + by rewrite (Herr e).
  - intros Hfft Hbw.
    assert (1 ≤ n_fft / 2 + 1) as Hnum.
    { assert (0 ≤ n_fft / 2) by (apply Z.div_pos; lia). lia. }
    destruct (linspace 0 (rate / 2) (n_fft / 2 + 1)) as [freqs|e] eqn:Hg.
    2:{ unfold linspace in Hg. destruct (_ <? 0) eqn:E; [lia | discriminate]. }
    destruct (linspace_first_zero _ _ _ Hnum Hg) as (f & Hf & Hz).
    assert (0%nat ∈ where_le freqs bandwidth) as Hin.
    { apply elem_of_where_le. exists f. split; [done|]. rewrite Hz. done. }
    destruct (np_max_nonempty _ _ Hin) as [m Hm].
    exists (Z.of_nat m + 1). unfold bandwidth_to_max_bin.
    rewrite Hg. simpl. rewrite Hm. done.
Qed.



End BandwidthProps.

(** ** Further properties of the network module *)

Module OpenUnmixProps.
Import Tensor OpenUnmix TensorFacts OpenUnmixFacts.
Open Scope nat_scope.

Lemma reshape_inv s t y : reshape s t = Ok y → shape y = s.
Proof. unfold reshape. destruct (_ =? _); [|done]. by intros [= <-]. Qed.

Lemma reshape_infer_inv m t y :
  reshape_infer m t = Ok y → shape y = [numel (shape t) / m; m].
Proof.
  unfold reshape_infer. destruct (_ && _); [|done]. apply reshape_inv.
Qed.


Lemma map2_error f a b e : map2 f a b = Raise e → e = RuntimeError.
Proof. unfold map2. destruct (broadcast_shapes _ _); congruence. Qed.

Lemma reshape_infer_error m t e : reshape_infer m t = Raise e → e = RuntimeError.
Proof.
  unfold reshape_infer, reshape. destruct (_ && _); [|congruence].
  destruct (_ =? _); congruence.
Qed.

Lemma broadcast_shapes_last_mismatch s d k :
  d ≠ k → d ≠ 1 → k ≠ 1 → broadcast_shapes (s ++ [d]) [k] = None.
Proof.
  intros H1 H2 H3. unfold broadcast_shapes. rewrite reverse_snoc. cbn.
  apply Nat.eqb_neq in H1, H2, H3. by rewrite H1, H2, H3.
Qed.

Section ForwardProps.

Variable tanh : Q → Q.

(** X5: [forward] accepts four-dimensional inputs only: for a tensor of
    any other rank the first transposition (line 120) raises. *)
Theorem forward_rejects_other_ranks m (x : tensor) :
  ndim x ≠ 4 → forward tanh m x = Raise RuntimeError.
Proof.
  intros Hn. unfold forward, permute, is_permutation.
  assert ((length [3; 0; 1; 2] =? ndim x) = false) as ->.
  { apply Nat.eqb_neq. simpl. lia. }
  reflexivity.
Qed.


(** X7: a module whose sizes fit together for [C] channels rejects every
    four-dimensional input with another number of channels: the first
    dense layer (line 134), if no earlier broadcast, raises a shape
    error. *)
Theorem forward_rejects_other_channel_counts m (x : tensor) S C C' B F :
  configured m C →
  shape x = [S; C'; B; F] →
  C' ≠ C →
  forward tanh m x = Raise RuntimeError.
Proof.
  intros Hcfg Hsx Hne. unfold forward, add, mul.
  rewrite (permute_3012 _ _ _ _ _ Hsx).
  cbn [mbind result_bind Py.bind shape unpack4].
  step (narrow_last_shape _ [F; S; C']) as x1 Hx1; [reflexivity|].
  destruct (map2 Qplus x1 (input_mean m)) as [x2|e] eqn:H2;
    cbn [mbind result_bind Py.bind]; [|by rewrite (map2_error _ _ _ _ H2)].
  destruct (map2 Qmult x2 (input_scale m)) as [x3|e] eqn:H3;
    cbn [mbind result_bind Py.bind]; [|by rewrite (map2_error _ _ _ _ H3)].
  destruct (reshape_infer (C' * nb_bins m) x3) as [x4|e] eqn:H4;
    cbn [mbind result_bind Py.bind]; [|by rewrite (reshape_infer_error _ _ _ H4)].
  apply reshape_infer_inv in H4. unfold Linear_forward. rewrite H4.
  cbn [reverse rev_append].
  assert ((C' * nb_bins m =? in_features (fc1 m)) = false) as ->.
  { apply Nat.eqb_neq. rewrite (cfg_fc1_in _ _ Hcfg).
    pose proof (cfg_bins_pos _ _ Hcfg). nia. }
  reflexivity.
Qed.

(** X8: a module left in training mode cannot process a single frame of
    a single sample: the first batch normalisation (line 136) then sees
    one value per channel and raises [ValueError]. *)
Theorem forward_training_needs_two_pairs m (x : tensor) C :
  configured m C → training m = true → 0 < C →
  shape x = [1; C; nb_output_bins m; 1] →
  forward tanh m x = Raise ValueError.
Proof.
  intros [Hbp Hble Hh H1i H1o Hb1 Hli Hlo H2i H2o Hb2 H3i H3o Hb3 Him His Hos Hom]
         Htr HC Hx.
  destruct x as [sx vx]. simpl in Hx. subst sx.
  unfold forward, add, mul.
  rewrite (permute_3012 (mk [1; C; nb_output_bins m; 1] vx) 1 C (nb_output_bins m) 1 eq_refl).
  cbn [mbind result_bind Py.bind shape unpack4].
  step (narrow_last_shape _ [1;1;C]) as x Hx; [reflexivity|].
  destruct Hx as [Hx _]. simpl in Hx. rewrite Nat.min_r in Hx by done.
  step (map2_shape Qplus x (input_mean m)) as x0 Hx0.
  { rewrite Hx, Him. apply (broadcast_shapes_last [1;1;C]). }
  step (map2_shape Qmult x0 (input_scale m)) as x1 Hx1.
  { rewrite Hx0, His. apply (broadcast_shapes_last [1;1;C]). }
  step (reshape_infer_shape (C * nb_bins m) x1 1) as x2 Hx2.
  { nia. }
  { rewrite Hx1. simpl. nia. }
  step (Linear_forward_shape (fc1 m) x2 [1]) as x3 Hx3.
  { rewrite Hx2, H1i. simpl. do 2 f_equal. lia. }
  simpl in Hx3. rewrite H1o in Hx3.
  unfold BatchNorm1d_forward. rewrite Hx3, Htr.
  assert (numel [1; hidden_size m] / hidden_size m = 1) as ->.
  { simpl. rewrite Nat.mul_1_r, Nat.add_0_r. apply Nat.div_same. lia. }
  reflexivity.
Qed.

(** X23: an input with more than one bin but fewer bins than the module
    crops to ([max_bin], or the bin count when unset) is rejected: the
    crop of line 127 leaves it as it is and the shift by [input_mean]
    (line 129) cannot be broadcast. The same happens to inputs with the
    module's bin count when [max_bin] exceeds that count. *)
Theorem forward_too_few_bins m (x : tensor) S C B F :
  shape (input_mean m) = [nb_bins m] →
  shape x = [S; C; B; F] →
  1 < B → B < nb_bins m →
  forward tanh m x = Raise RuntimeError.
Proof.
  intros Him Hx HB1 HB.
  unfold forward, add.
  rewrite (permute_3012 _ _ _ _ _ Hx).
  cbn [mbind result_bind Py.bind shape unpack4].
  step (narrow_last_shape _ [F; S; C]) as x1 Hx1; [reflexivity|].
  destruct Hx1 as [Hx1 _]. rewrite Nat.min_l in Hx1 by lia.
  unfold map2. rewrite Hx1, Him.
  rewrite (broadcast_shapes_last_mismatch [F; S; C]) by lia. reflexivity.
Qed.

(** X24: an odd hidden size makes the bidirectional module unusable.
    The LSTM then has [hidden_size // 2] units per direction, the skip
    connection (line 145) yields [2 * hidden_size - 1] features, and the
    dense layer of line 148, built for [2 * hidden_size], rejects them:
    [forward] raises on every input of the module's channel and bin
    counts. *)
Theorem forward_odd_hidden_size_raises w nb_bins_arg nb_channels hidden nb_layers
      input_mean_arg input_scale_arg max_bin sd (train : bool)
      (x : tensor) nb_samples nb_frames :
  let m0 := load_state_dict
              (init w nb_bins_arg nb_channels hidden nb_layers false
                    input_mean_arg input_scale_arg max_bin) sd in
  let m := if train then m0 else eval m0 in
  shape x = [nb_samples; nb_channels; nb_bins_arg; nb_frames] →
  0 < nb_samples → 0 < nb_channels → 0 < nb_bins_arg → 0 < nb_frames →
  match max_bin with Some k => k ≤ nb_bins_arg | None => True end →
  match input_mean_arg with Some a => nb_bins m ≤ length a | None => True end →
  match input_scale_arg with Some a => nb_bins m ≤ length a | None => True end →
  1 < hidden → Nat.odd hidden = true →
  (train = false ∨ 1 < nb_frames * nb_samples) →
  forward tanh m x = Raise RuntimeError.
Proof.
  intros m0 m Hx HS HC HB HF Hmax Hmean Hscale Hh Hodd Htrain.
  assert (nb_output_bins m = nb_bins_arg) as Hout by (subst m m0; by destruct train).
  assert (0 < nb_bins m ∧ nb_bins m ≤ nb_bins_arg) as [Hbp Hble].
  { subst m m0. destruct train; simpl; destruct max_bin as [[|k]|]; lia. }
  assert (hidden_size m = hidden) as Hhid by (subst m m0; by destruct train).
  assert (in_features (fc1 m) = nb_bins m * nb_channels) as H1i
      by (subst m m0; by destruct train).
  assert (out_features (fc1 m) = hidden) as H1o by (subst m m0; by destruct train).
  assert (num_features (bn1 m) = hidden) as Hb1 by (subst m m0; by destruct train).
  assert (input_size (lstm m) = hidden) as Hli by (subst m m0; by destruct train).
  assert ((if bidirectional (lstm m) then 2 else 1) * lstm_hidden_size (lstm m)
          = hidden - 1) as Hlo.
  { assert ((if bidirectional (lstm m) then 2 else 1) * lstm_hidden_size (lstm m)
            = 2 * (hidden / 2)) as -> by (subst m m0; by destruct train).
    apply Nat.odd_spec in Hodd as [k ->].
    replace ((2 * k + 1) / 2) with k; [lia|].
    apply Nat.div_unique with (r := 1); lia. }
  assert (in_features (fc2 m) = hidden * 2) as H2i
      by (subst m m0; by destruct train).
  assert (training m = train) as Htr by (subst m m0; by destruct train).
  assert (shape (input_mean m) = [nb_bins m]) as Him.
  { subst m m0. destruct train; simpl; rewrite ?shape_load_values;
      (destruct input_mean_arg as [a|]; [|done]);
      simpl in *; rewrite length_map, length_take; f_equal; lia. }
  assert (shape (input_scale m) = [nb_bins m]) as His.
  { subst m m0. destruct train; simpl; rewrite ?shape_load_values;
      (destruct input_scale_arg as [a|]; [|done]);
      simpl in *; rewrite length_map, length_take; f_equal; lia. }
  clearbody m. clear m0.
  destruct x as [sx vx]. simpl in Hx. subst sx.
  unfold forward, add, mul.
  rewrite (permute_3012 (mk [nb_samples; nb_channels; nb_bins_arg; nb_frames] vx) nb_samples nb_channels nb_bins_arg nb_frames eq_refl).
  cbn [mbind result_bind Py.bind shape unpack4].
  step (narrow_last_shape _ [nb_frames;nb_samples;nb_channels]) as x Hx; [reflexivity|].
  destruct Hx as [Hx _]. simpl in Hx. rewrite Nat.min_r in Hx by done.
  step (map2_shape Qplus x (input_mean m)) as x0 Hx0.
  { rewrite Hx, Him. apply (broadcast_shapes_last [nb_frames;nb_samples;nb_channels]). }
  step (map2_shape Qmult x0 (input_scale m)) as x1 Hx1.
  { rewrite Hx0, His. apply (broadcast_shapes_last [nb_frames;nb_samples;nb_channels]). }
  step (reshape_infer_shape (nb_channels * nb_bins m) x1 (nb_frames * nb_samples)) as x2 Hx2.
  { nia. }
  { rewrite Hx1. simpl. nia. }
  step (Linear_forward_shape (fc1 m) x2 [nb_frames * nb_samples]) as x3 Hx3.
  { rewrite Hx2, H1i. simpl. do 2 f_equal. lia. }
  simpl in Hx3. rewrite H1o, <- Hb1 in Hx3.
  step (BatchNorm1d_forward_shape (training m) (bn1 m) x3 (nb_frames * nb_samples)) as x4 Hx4.
  { done. } { lia. } { rewrite Htr. destruct Htrain; [by left | right; lia]. }
  rewrite Hb1 in Hx4. rewrite Hhid.
  step (reshape_shape [nb_frames; nb_samples; hidden] x4) as x5 Hx5.
  { rewrite Hx4. simpl. lia. }
  step (LSTM_forward_shape (lstm m) (map1 tanh x5) nb_frames nb_samples) as x6 Hx6.
  { simpl. by rewrite Hx5, Hli. }
  rewrite Hlo in Hx6.
  step (cat_last_shape (map1 tanh x5) x6 [nb_frames; nb_samples] hidden (hidden - 1)) as x7 Hx7.
  { done. } { done. }
  rewrite Hx7. simpl List.last.
  step (reshape_infer_shape (hidden + (hidden - 1)) x7 (nb_frames * nb_samples)) as x8 Hx8.
  { lia. } { rewrite Hx7. simpl. lia. }
  unfold Linear_forward. rewrite Hx8. cbn [reverse rev_append].
  assert ((hidden + (hidden - 1) =? in_features (fc2 m)) = false) as ->.
  { apply Nat.eqb_neq. lia. }
  reflexivity.
Qed.

(** X9: after [freeze] no parameter is tracked for differentiation and
    the module is in evaluation mode, so that [forward] maps every input
    of the module's channel and bin counts and positive sizes, a single
    frame of a single sample included, to an output of the same
    shape. *)
Theorem freeze_enables_inference (m : tracked) (x : tensor) S C F :
  configured (module m) C →
  shape x = [S; C; nb_output_bins (module m); F] →
  0 < S → 0 < C → 0 < F →
  (∀ name, requires_grad (freeze m) name = false) ∧
  training (module (freeze m)) = false ∧
  ∃ y, forward tanh (module (freeze m)) x = Ok y ∧ shape y = shape x.
Proof.
  intros Hcfg Hx HS HC HF. split; [done|]. split; [done|].
  apply forward_configured_shape with (S := S) (C := C) (F := F); try done.
  - by apply configured_eval.
  - by left.
Qed.

End ForwardProps.

(** *** The statements at work on the sample module *)

Lemma sample_init_configured :
  configured (init sample_weights 4 2 4 3 false None None None) 2.
Proof.
  apply (init_configured sample_weights 4 2 4 3 false None None None);
    [lia | exact I | exact I | exact I | lia | right; reflexivity].
Qed.

Lemma sample_module_configured : configured sample_module 2.
Proof.
  unfold sample_module. apply configured_eval, configured_load_state_dict.
  apply (init_configured sample_weights 4 2 4 3 false None None (Some 3));
    [lia | simpl; lia | exact I | exact I | lia | right; reflexivity].
Qed.

Lemma forward_rejects_other_ranks_witness :
  forward sample_tanh sample_module (all_ones [2; 4; 5]) = Raise RuntimeError.
Proof.
  apply (forward_rejects_other_ranks sample_tanh sample_module (all_ones [2; 4; 5])).
  unfold ndim. simpl. lia.
Defined.


Lemma forward_rejects_other_channel_counts_witness :
  forward sample_tanh sample_module (all_ones [1; 1; 4; 5]) = Raise RuntimeError.
Proof.
  apply (forward_rejects_other_channel_counts sample_tanh sample_module
           (all_ones [1; 1; 4; 5]) 1 2 1 4 5 sample_module_configured eq_refl).
  lia.
Defined.

Lemma forward_training_needs_two_pairs_witness :
  forward sample_tanh (init sample_weights 4 2 4 3 false None None None)
          (all_ones [1; 2; 4; 1]) = Raise ValueError.
Proof.
  apply (forward_training_needs_two_pairs sample_tanh _ (all_ones [1; 2; 4; 1]) 2
           sample_init_configured eq_refl); [lia | reflexivity].
Defined.

Lemma forward_too_few_bins_witness :
  forward sample_tanh sample_module (all_ones [1; 2; 2; 5]) = Raise RuntimeError.
Proof.
  apply (forward_too_few_bins sample_tanh sample_module (all_ones [1; 2; 2; 5])
           1 2 2 5 eq_refl eq_refl); simpl; lia.
Defined.

Lemma forward_odd_hidden_size_raises_witness :
  forward sample_tanh (eval (load_state_dict
                               (init sample_weights 4 2 3 3 false None None None)
                               sample_state))
          (all_ones [1; 2; 4; 5]) = Raise RuntimeError.
Proof.
  apply (forward_odd_hidden_size_raises sample_tanh sample_weights 4 2 3 3
           None None None sample_state false (all_ones [1; 2; 4; 5]) 1 5);
    [reflexivity | lia | lia | lia | lia | exact I | exact I | exact I
     | lia | reflexivity | left; reflexivity].
Defined.

Lemma freeze_enables_inference_witness :
  ∃ y, forward sample_tanh
               (module (freeze (mkTracked
                                  (init sample_weights 4 2 4 3 false None None None)
                                  (λ _, true))))
               (all_ones [1; 2; 4; 1]) = Ok y ∧
       shape y = [1; 2; 4; 1].
Proof.
  exact (proj2 (proj2 (freeze_enables_inference sample_tanh
                         (mkTracked (init sample_weights 4 2 4 3 false None None None)
                                    (λ _, true))
                         (all_ones [1; 2; 4; 1]) 1 2 1
                         sample_init_configured eq_refl
                         (Nat.lt_0_1) (Nat.lt_0_2) (Nat.lt_0_1)))).
Defined.

End OpenUnmixProps.

(** ** Further properties of the separator *)

Module UMXProps.
Import Tensor UMX TensorFacts UMXFacts.
Open Scope nat_scope.

(** X10: when [UMXSeparator.__init__] returns, [_max_freq_bins] is the
    value of [bandwidth_to_max_bin] on the configured sample rate, window
    size and bandwidth, it lies between 1 and [window_size // 2 + 1], and
    no target model is loaded yet; when [bandwidth_to_max_bin] raises
    (line 182), so does [__init__], with the same [ValueError]. *)
Theorem init_outcome cfg residual wiener_win_len num_iter softmask :
  (∀ self, init cfg residual wiener_win_len num_iter softmask = Ok self →
     Bandwidth.bandwidth_to_max_bin (sample_rate cfg) (stft_window_size cfg)
                                    (model_bandwidth cfg)
       = Ok (_max_freq_bins self) ∧
     (1 ≤ _max_freq_bins self ≤ _window_size self / 2 + 1)%Z ∧
     _window_size self = stft_window_size cfg ∧
     _target_models self = []) ∧
  (∀ e, Bandwidth.bandwidth_to_max_bin (sample_rate cfg) (stft_window_size cfg)
                                       (model_bandwidth cfg) = Raise e →
        e = ValueError ∧
        init cfg residual wiener_win_len num_iter softmask = Raise ValueError).
Proof.
  unfold init.
  destruct (Bandwidth.bandwidth_to_max_bin _ _ _) as [r|e0] eqn:Hb; simpl.
  - split; [|discriminate]. intros self [= <-]. simpl.
    split; [done|]. split; [|done].
    apply BandwidthProps.max_bin_index in Hb as (m & -> & Hm). lia.
  - split; [discriminate|]. intros e [= <-].
    apply BandwidthProps.max_bin_errors in Hb as ->. done.
Qed.

Lemma init_inv cfg residual wiener_win_len num_iter softmask self :
  init cfg residual wiener_win_len num_iter softmask = Ok self →
  _model_cfg self = cfg ∧ _window_size self = stft_window_size cfg ∧
  (1 ≤ _max_freq_bins self ≤ _window_size self / 2 + 1)%Z.
Proof.
  unfold init.
  destruct (Bandwidth.bandwidth_to_max_bin _ _ _) as [r|e0] eqn:Hb; [|done].
  intros [= <-]. simpl. split; [done|]. split; [done|].
  apply BandwidthProps.max_bin_index in Hb as (m & -> & Hm). lia.
Qed.

Lemma elem_of_dict_set {V} k (v : V) d k' v' :
  (k', v') ∈ dict_set k v d → (k', v') = (k, v) ∨ (k', v') ∈ d.
Proof.
  induction d as [|[k0 v0] d IH]; simpl.
  - intros ->%list_elem_of_singleton. by left.
  - destruct (decide (k0 = k)) as [->|Hne].
    + intros [->|H]%elem_of_cons; [by left | right; by right].
    + intros [->|H]%elem_of_cons; [right; by left|].
      destruct (IH H) as [?|?]; [by left | right; by right].
Qed.

Lemma dict_get_dict_keys {V} k (d : list (string * V)) :
  k ∈ dict_keys d → ∃ v, dict_get k d = Ok v ∧ (k, v) ∈ d.
Proof.
  induction d as [|[k0 v0] d IH]; simpl.
  - intros H. inversion H.
  - destruct (decide (k0 = k)) as [->|Hne].
    + intros _. exists v0. split; [done | by left].
    + intros [?|H]%elem_of_cons; [congruence|].
      destruct (IH H) as (v & Hv & Hin). exists v. split; [done | by right].
Qed.

Section Loading.
Variable tanh : Q → Q.
Variable fresh_weights : OpenUnmix.Weights.
Variable torch_load : string → option OpenUnmix.state_dict.

Lemma load_targets_keys self targets :
  ∀ d d', load_targets tanh fresh_weights torch_load self targets d = Ok d' →
  (∀ t, t ∈ dict_keys d' ↔ t ∈ dict_keys d ∨ t ∈ targets) ∧
  (NoDup (dict_keys d ++ targets) → dict_keys d' = dict_keys d ++ targets).
Proof.
  induction targets as [|t0 targets IH]; intros d d'; simpl.
  - intros [= <-]. split.
    + intros t. rewrite elem_of_nil. tauto.
    + by rewrite app_nil_r.
  - destruct (torch_load t0) as [sd|]; [|done]. intros H.
    apply IH in H as [Hin Heq]. rewrite dict_keys_dict_set in Hin, Heq.
    destruct (decide (t0 ∈ dict_keys d)) as [H0|H0].
    + split.
      * intros t. rewrite Hin, elem_of_cons.
        split; [tauto|]. intros [?|[->|?]]; tauto.
      * intros Hnd. apply NoDup_app in Hnd as (_ & Hd & _). exfalso.
        apply (Hd t0 H0). by left.
    + rewrite <- (assoc_L (++)) in Heq. simpl in Heq. split; [|done].
      intros t. rewrite Hin, elem_of_cons, elem_of_app, list_elem_of_singleton.
      tauto.
Qed.

Lemma load_targets_elems self targets :
  ∀ d d', load_targets tanh fresh_weights torch_load self targets d = Ok d' →
  ∀ name e, (name, e) ∈ d' →
    (name, e) ∈ d ∨
    ∃ sd, torch_load name = Some sd ∧
          e = module_estimator tanh (restored fresh_weights self sd).
Proof.
  induction targets as [|t0 targets IH]; intros d d'; simpl.
  - intros [= <-] name e H. by left.
  - destruct (torch_load t0) as [sd|] eqn:Hsd; [|done]. intros H name e Hin.
    destruct (IH _ _ H name e Hin) as [Hd|Hr]; [|by right].
    apply elem_of_dict_set in Hd as [[= -> ->]|Hd]; [right | by left].
    by exists sd.
Qed.


(** X11: after [load_model] the keys of [_target_models] are the
    requested target names ([piano] and [orch] when none are given), each
    once: the same names, without repetition, in the requested order when
    no name is requested twice, and never more models than names. *)
Theorem load_model_keys self targets self' :
  load_model tanh fresh_weights torch_load self targets = Ok self' →
  let names := default ["piano"; "orch"]%string targets in
  NoDup (dict_keys (_target_models self')) ∧
  (∀ t, t ∈ dict_keys (_target_models self') ↔ t ∈ names) ∧
  (NoDup names → dict_keys (_target_models self') = names) ∧
  length (_target_models self') ≤ length names.
Proof.
  intros H names. pose proof (load_model_NoDup _ _ _ _ _ _ H) as Hnd.
  unfold load_model in H.
  apply bind_Ok in H as (tm & Htm & [= <-]). simpl in *.
  assert (match targets with None => ["piano"; "orch"]%string | Some l => l end
          = names) as Hn by (by destruct targets).
  rewrite Hn in Htm.
  apply load_targets_keys in Htm as [Hin Heq]. simpl in *.
  split; [done|]. split; [|split].
  - intros t. rewrite Hin, elem_of_nil. tauto.
  - done.
  - rewrite <- (length_fmap fst tm).
    apply submseteq_length, NoDup_submseteq; [done|].
    intros t Ht. apply Hin in Ht as [Ht|Ht]; [inversion Ht | done].
Qed.


Lemma load_targets_set_target_models self d0 targets :
  ∀ d, load_targets tanh fresh_weights torch_load (set_target_models self d0) targets d
       = load_targets tanh fresh_weights torch_load self targets d.
Proof.
  induction targets as [|t0 targets IH]; intros d; simpl; [done|].
  destruct (torch_load t0); [|done]. apply IH.
Qed.

(** X13: [load_model] starts from an empty dictionary (line 202): the
    models held before the call have no influence on its result, so that
    a second call replaces the targets of the first instead of adding to
    them. *)
Theorem load_model_replaces self d0 targets :
  load_model tanh fresh_weights torch_load (set_target_models self d0) targets
  = load_model tanh fresh_weights torch_load self targets.
Proof.
  unfold load_model. rewrite load_targets_set_target_models.
  by destruct (load_targets _ _ _ _ _ _).
Qed.

(** X14: [__init__], [load_model] and [OpenUnmix] fit together. For a
    separator built by [__init__] and loaded by [load_model], with a
    positive even hidden size, every entry of [_target_models] is the
    module restored from the stored state of its own target; it is in
    evaluation mode, has [window_size // 2 + 1] output bins and crops to
    [_max_freq_bins] bins, which never exceeds the output bins; and on
    every input of shape
    [(nb_samples, num_channels, window_size // 2 + 1, nb_frames)] with
    positive sizes its [forward] returns a tensor of that shape. *)
Theorem loaded_models_keep_shape cfg residual wiener_win_len num_iter softmask
    self0 targets self name e :
  init cfg residual wiener_win_len num_iter softmask = Ok self0 →
  load_model tanh fresh_weights torch_load self0 targets = Ok self →
  0 < train_hidden_size cfg → Nat.even (train_hidden_size cfg) = true →
  (name, e) ∈ _target_models self →
  ∃ sd m, torch_load name = Some sd ∧
        m = restored fresh_weights self0 sd ∧
        e = module_estimator tanh m ∧
        OpenUnmix.training m = false ∧
        OpenUnmix.nb_output_bins m = Z.to_nat (stft_window_size cfg / 2 + 1) ∧
        OpenUnmix.nb_bins m = Z.to_nat (_max_freq_bins self0) ∧
        OpenUnmix.nb_bins m ≤ OpenUnmix.nb_output_bins m ∧
        ∀ (x : tensor) S F,
          shape x = [S; num_channels cfg; OpenUnmix.nb_output_bins m; F] →
          0 < S → 0 < num_channels cfg → 0 < F →
          ∃ y, OpenUnmix.forward tanh m x = Ok y ∧ shape y = shape x.
Proof.
  intros Hinit Hload Hh Hev Hin.
  destruct (init_inv _ _ _ _ _ _ Hinit) as (Hcfg & Hw & Hrange).
  unfold load_model in Hload.
  apply bind_Ok in Hload as (tm & Htm & [= <-]). simpl in Hin.
  destruct (load_targets_elems _ _ _ _ Htm name e Hin) as [Hnil|(sd & Hsd & ->)];
    [inversion Hnil|].
  exists sd, (restored fresh_weights self0 sd).
  split; [done|]. split; [done|]. split; [done|].
  assert (OpenUnmix.configured (restored fresh_weights self0 sd) (num_channels cfg))
    as Hconf.
  { unfold restored. apply OpenUnmixFacts.configured_eval,
      OpenUnmixFacts.configured_load_state_dict.
    rewrite Hcfg.
    apply OpenUnmixFacts.init_configured; try done.
    - lia.
    - lia.
    - by right. }
  assert (OpenUnmix.nb_output_bins (restored fresh_weights self0 sd)
          = Z.to_nat (stft_window_size cfg / 2 + 1)) as Hout.
  { unfold restored. simpl. by rewrite Hw. }
  assert (OpenUnmix.nb_bins (restored fresh_weights self0 sd)
          = Z.to_nat (_max_freq_bins self0)) as Hnb.
  { unfold restored. simpl.
    destruct (Z.to_nat (_max_freq_bins self0)) eqn:E; [lia | done]. }
  split; [done|]. split; [done|]. split; [done|].
  split; [apply (OpenUnmix.cfg_bins_le _ _ Hconf)|].
  intros x S F Hx HS HC HF.
  apply OpenUnmixFacts.forward_configured_shape
    with (S := S) (C := num_channels cfg) (F := F); try done.
  by left.
Qed.

End Loading.

(** *** What the refinement writes *)

Lemma last_seq pos n l :
  last (seq pos n) = Some l → 0 < n ∧ l = pos + n - 1.
Proof.
  destruct n as [|n]; [done|]. rewrite seq_S, last_snoc.
  intros [= <-]. lia.
Qed.

Lemma existsb_eqb_seq f pos n :
  existsb (Nat.eqb f) (seq pos n) = true ↔ pos ≤ f < pos + n.
Proof.
  rewrite existsb_exists. split.
  - intros (x & Hx & ->%Nat.eqb_eq). by apply in_seq in Hx.
  - intros H. exists f. split; [by apply in_seq | apply Nat.eqb_refl].
Qed.

Lemma index_of_seq n : ∀ pos i, i < n → index_of (pos + i) (seq pos n) = i.
Proof.
  induction n as [|n IH]; intros pos i Hi; [lia|]. cbn [seq index_of].
  destruct i as [|i].
  - by rewrite Nat.add_0_r, Nat.eqb_refl.
  - assert ((pos =? pos + S i) = false) as -> by (apply Nat.eqb_neq; lia).
    replace (pos + S i) with (S pos + i) by lia. rewrite IH by lia. done.
Qed.

Lemma setitem_frames_values sample cur t v y :
  setitem_frames sample cur t v = Ok y →
  ∀ i f r, at_ y (i :: f :: r)
           = if (i =? sample) && existsb (Nat.eqb f) cur
             then at_ v (bcast_index (shape v) (index_of f cur :: r))
             else at_ t (i :: f :: r).
Proof.
  unfold setitem_frames.
  destruct (shape t) as [|d0 [|d1 rest]]; [done | done |].
  destruct (_ && _); [|done].
  destruct (broadcast_shapes _ _) as [s|]; [|done].
  destruct (decide _); [|done]. by intros [= <-].
Qed.

Section RefinementValues.

Variable wiener : tensor → tensor → Z → bool → bool → tensor.

(** One run of the [while] loop for [sample], started at frame [pos]:
    entries of other samples and of earlier frames are kept, and the
    frames of each chunk receive the output of the filter for that
    chunk. *)
Lemma wiener_loop_values self p sample F w fuel :
  ∀ pos ts st st' ts',
  wiener_loop wiener fuel self p sample F w pos ts st = (st', Ok ts') →
  (∀ s' f r, s' ≠ sample ∨ f < pos →
             at_ ts' (s' :: f :: r) = at_ ts (s' :: f :: r)) ∧
  (∀ cur i f r sl ml,
     cur ∈ chunking fuel F w pos → cur !! i = Some f →
     getitem_frames sample cur (p_spectrograms p) = Ok sl →
     getitem_frames sample cur (p_mix_stft p) = Ok ml →
     at_ ts' (sample :: f :: r)
     = at_ (wiener sl ml (_num_iter self) (_softmask self) (_residual self))
           (bcast_index
              (shape (wiener sl ml (_num_iter self) (_softmask self)
                             (_residual self)))
              (i :: r))).
Proof.
  induction fuel as [|fuel IH]; intros pos ts st st' ts' Hrun.
  - cbn [wiener_loop chunking] in *. destruct (pos <? F); [done|].
    injection Hrun as <- <-. split; [done|]. intros cur i f r sl ml Hin.
    inversion Hin.
  - cbn [wiener_loop chunking] in *. destruct (pos <? F) eqn:E.
    2:{ injection Hrun as <- <-. split; [done|]. intros cur i f r sl ml Hin.
        inversion Hin. }
    unfold arange in *.
    set (n := Z.to_nat (Z.min (Z.of_nat F) (Z.of_nat pos + w) - Z.of_nat pos)) in *.
    destruct (last (seq pos n)) as [l|] eqn:Hlast; [|done].
    apply last_seq in Hlast as [Hn ->].
    replace (pos + n - 1 + 1) with (pos + n) in * by lia.
    apply M_bind_inv in Hrun as [(st1 & s & Hs & Hrun) | (e & _ & ?)]; [|done].
    apply lift_inv in Hs as [-> Hs].
    apply M_bind_inv in Hrun as [(st1 & m & Hm & Hrun) | (e & _ & ?)]; [|done].
    apply lift_inv in Hm as [-> Hm].
    apply M_bind_inv in Hrun as [(st1 & [] & _ & Hrun) | (e & _ & ?)]; [|done].
    apply M_bind_inv in Hrun as [(st2 & ts1 & Hset & Hrun) | (e & _ & ?)]; [|done].
    apply lift_inv in Hset as [-> Hset].
    symmetry in Hs, Hm, Hset.
    pose proof (setitem_frames_values _ _ _ _ _ Hset) as Hval.
    destruct (IH _ _ _ _ _ Hrun) as [Hkeep Hchunks].
    assert (∀ s' f r, s' ≠ sample ∨ f < pos →
                      at_ ts1 (s' :: f :: r) = at_ ts (s' :: f :: r)) as Hkeep1.
    { intros s' f r Hsf. rewrite Hval.
      destruct ((s' =? sample) && existsb (Nat.eqb f) (seq pos n)) eqn:Ec; [|done].
      apply andb_true_iff in Ec as [E1%Nat.eqb_eq E2%existsb_eqb_seq]. lia. }
    split.
    + intros s' f r Hsf. rewrite Hkeep by lia. by apply Hkeep1.
    + intros cur i f r sl ml Hin Hi Hsl Hml.
      apply elem_of_cons in Hin as [-> | Hin]; [|by apply (Hchunks cur i f r)].
      apply lookup_seq in Hi as [-> Hi].
      rewrite Hkeep by (right; lia). rewrite Hval.
      assert (((sample =? sample) && existsb (Nat.eqb (pos + i)) (seq pos n)) = true)
        as ->.
      { rewrite Nat.eqb_refl. apply existsb_eqb_seq. lia. }
      rewrite index_of_seq by done.
      rewrite Hs in Hsl. injection Hsl as <-.
      rewrite Hm in Hml. injection Hml as <-. done.
Qed.

Lemma refine_samples_values self p F samples :
  ∀ ts st st' ts',
  NoDup samples →
  refine_samples wiener self p F samples ts st = (st', Ok ts') →
  (∀ s' f r, s' ∉ samples → at_ ts' (s' :: f :: r) = at_ ts (s' :: f :: r)) ∧
  (∀ sample cur i f r sl ml,
     sample ∈ samples →
     cur ∈ chunking F F (window self F) 0 → cur !! i = Some f →
     getitem_frames sample cur (p_spectrograms p) = Ok sl →
     getitem_frames sample cur (p_mix_stft p) = Ok ml →
     at_ ts' (sample :: f :: r)
     = at_ (wiener sl ml (_num_iter self) (_softmask self) (_residual self))
           (bcast_index
              (shape (wiener sl ml (_num_iter self) (_softmask self)
                             (_residual self)))
              (i :: r))).
Proof.
  induction samples as [|sample0 rest IH]; intros ts st st' ts' Hnd Hrun.
  - injection Hrun as <- <-. split; [done|].
    intros sample cur i f r sl ml Hin. inversion Hin.
  - cbn [refine_samples] in Hrun. apply NoDup_cons in Hnd as [Hnotin Hnd].
    apply M_bind_inv in Hrun as [(st1 & ts1 & Hloop & Hrun) | (e & _ & ?)]; [|done].
    destruct (wiener_loop_values _ _ _ _ _ _ _ _ _ _ _ Hloop) as [Hkeep1 Hchunks1].
    destruct (IH _ _ _ _ Hnd Hrun) as [Hkeep Hchunks].
    split.
    + intros s' f r [Hne Hs']%not_elem_of_cons.
      rewrite Hkeep by done. apply Hkeep1. by left.
    + intros sample cur i f r sl ml [-> | Hin]%elem_of_cons Hcur Hi Hsl Hml.
      * rewrite Hkeep by done. by apply (Hchunks1 cur i f r).
      * by apply (Hchunks sample cur i f r).
Qed.

(** X26: what the refinement writes. When the loops of lines 283-299
    complete on operands of the documented shapes, every frame [f] of
    every chunk [cur_frame] of every sample holds, in the result, the
    output of the filter called on the slices
    [spectrograms[sample, cur_frame]] and [mix_stft[sample, cur_frame]]:
    the entries at [(sample, f)] are the entries of that output at the
    position of [f] within its chunk. Later chunks and later samples do
    not overwrite them. *)
Theorem refinement_writes_filter_output self p S F rest_s rest_m nsrc ts st st' ts' :
  refinable wiener self p S F rest_s rest_m nsrc →
  refine_samples wiener self p F (seq 0 S) ts st = (st', Ok ts') →
  ∀ sample cur i f r sl ml,
    sample < S →
    cur ∈ chunking F F (window self F) 0 → cur !! i = Some f →
    getitem_frames sample cur (p_spectrograms p) = Ok sl →
    getitem_frames sample cur (p_mix_stft p) = Ok ml →
    in_bounds (rest_m ++ [nsrc]) r →
    at_ ts' (sample :: f :: r)
    = at_ (wiener sl ml (_num_iter self) (_softmask self) (_residual self))
          (i :: r).
Proof.
  intros [Hsp Hmx Hwn] Hrun sample cur i f r sl ml Hsample Hcur Hi Hsl Hml Hr.
  destruct (refine_samples_values self p F (seq 0 S) ts st st' ts'
              (NoDup_seq 0 S) Hrun) as [_ Hval].
  rewrite (Hval sample cur i f r sl ml); try done.
  2:{ apply elem_of_seq. lia. }
  f_equal. apply bcast_index_id.
  apply getitem_frames_shape in Hsl, Hml. rewrite Hsp in Hsl. rewrite Hmx in Hml.
  cbn [drop] in Hsl, Hml.
  rewrite (Hwn sl ml (length cur) Hsl Hml).
  constructor; [|done]. by apply lookup_lt_Some in Hi.
Qed.

End RefinementValues.

Lemma setitem_last_ok j t v s n :
  shape t = s ++ [n] → j < n → shape v = s →
  ∃ y, setitem_last j t v = Ok y ∧ shape y = shape t ∧
       ∀ idx k, at_ y (idx ++ [k])
                = if k =? j then at_ v (bcast_index (shape v) idx)
                  else at_ t (idx ++ [k]).
Proof.
  intros Ht Hj Hv. unfold setitem_last.
  rewrite Ht, reverse_snoc.
  assert ((j <? n) = true) as -> by (by apply Nat.ltb_lt).
  rewrite reverse_involutive, Hv, broadcast_shapes_same.
  destruct (decide (s = s)); [|done]. eexists. split; [done|]. split; [done|].
  intros idx k. cbn [at_]. by rewrite reverse_snoc, reverse_involutive.
Qed.

Lemma permute_spectrograms x a b c d e :
  shape x = [a; b; c; d; e] →
  ∃ y, permute [0; 3; 2; 1; 4] x = Ok y ∧ shape y = [a; d; c; b; e] ∧
       ∀ i0 i1 i2 i3 i4,
         at_ y [i0; i1; i2; i3; i4] = at_ x [i0; i3; i2; i1; i4].
Proof.
  intros H. unfold permute, ndim. rewrite H. eexists.
  split; [reflexivity|]. split; reflexivity.
Qed.

Lemma permute_targets x a b c d e f :
  shape x = [a; b; c; d; e; f] →
  ∃ y, permute [0; 5; 3; 2; 1; 4] x = Ok y ∧ shape y = [a; f; d; c; b; e] ∧
       ∀ i0 i1 i2 i3 i4 i5,
         at_ y [i0; i1; i2; i3; i4; i5] = at_ x [i0; i4; i3; i2; i5; i1].
Proof.
  intros H. unfold permute, ndim. rewrite H. eexists.
  split; [reflexivity|]. split; reflexivity.
Qed.

(** The loop over the targets on estimators that keep the shape of
    [Xv]: it completes, and slice [j + i] of the result holds what the
    estimator of the [i]-th name returns. *)
Lemma estimate_targets_runs self X Xv n names :
  (∀ name, name ∈ names →
     ∃ e, dict_get name (_target_models self) = Ok e ∧
          frame_ok e ∧ estimates_like e Xv) →
  ∀ j sp st,
  st_heap st !! X = Some Xv →
  shape sp = shape Xv ++ [n] → j + length names ≤ n →
  ∃ st' sp', estimate_targets self X j names sp st = (st', Ok sp') ∧
             shape sp' = shape sp ∧
             (∀ idx k, k < j → at_ sp' (idx ++ [k]) = at_ sp (idx ++ [k])) ∧
             (∀ i name e y,
                names !! i = Some name →
                dict_get name (_target_models self) = Ok e →
                returns e Xv y →
                ∀ idx, in_bounds (shape Xv) idx →
                       at_ sp' (idx ++ [j + i]) = at_ y idx).
Proof.
  induction names as [|name rest IH]; intros Hall j sp st HX Hsp Hj.
  - exists st, sp. split; [done|]. split; [done|]. split; [done|].
    intros i name e y Hi. done.
  - cbn [estimate_targets].
    destruct (Hall name) as (e & Hget & Hframe & Hlike); [by left|].
    rewrite (M_bind_Ok _ _ st st e) by (unfold lift; by rewrite Hget).
    destruct (detach_clone_spec X Xv st HX) as (arg & Hdc & Hfresh).
    rewrite (M_bind_Ok _ _ _ _ _ Hdc).
    set (st1 := mkState (<[arg := Xv]> (st_heap st)) (st_trace st)) in *.
    assert (st_heap st1 !! arg = Some Xv) as Harg by apply lookup_insert_eq.
    pose proof (call_estimator_spec name e arg Xv st1 Harg) as Hcall.
    destruct (Hlike (st_heap st1) arg Harg) as (h2 & out & y0 & Hest & Hout & Hy).
    rewrite Hest in Hcall. cbn [fst snd] in Hcall.
    rewrite (M_bind_Ok _ _ _ _ _ Hcall).
    set (st2 := mkState h2 (st_trace st1 ++ [EvEstimate name arg Xv])) in *.
    rewrite (M_bind_Ok (load out) _ st2 st2 y0)
      by (unfold load; cbn [st_heap st2]; by rewrite Hout).
    cbn [length] in Hj.
    destruct (setitem_last_ok j sp y0 (shape Xv) n Hsp) as (sp1 & Hset & Hsp1 & Hval);
      [lia | done |].
    rewrite (M_bind_Ok _ _ st2 st2 sp1) by (unfold lift; by rewrite Hset).
    assert (st_heap st2 !! X = Some Xv) as HX2.
    { cbn [st_heap st2].
      assert (X ≠ arg) as Hne by (intros ->; congruence).
      rewrite (Hframe arg _ _ _ Hest X Hne).
      - cbn [st_heap st1]. by rewrite lookup_insert_ne.
      - cbn [st_heap st1]. rewrite lookup_insert_ne by done. by rewrite HX. }
    destruct (IH (λ nm Hnm, Hall nm (list_elem_of_further _ _ _ Hnm))
                 (S j) sp1 st2 HX2) as (st' & sp' & Hrun & Hsp' & Hkeep & Hslice);
      [by rewrite Hsp1 | lia |].
    exists st', sp'. split; [done|]. split; [by rewrite Hsp', Hsp1|]. split.
    + intros idx k Hk. rewrite Hkeep by lia. rewrite Hval.
      assert ((k =? j) = false) as -> by (apply Nat.eqb_neq; lia). done.
    + intros [|i] name' e' y Hi Hget' Hret idx Hidx.
      * cbn in Hi. injection Hi as <-.
        rewrite Hget in Hget'. injection Hget' as <-.
        destruct (Hret (st_heap st1) arg Harg) as (h' & out' & Hest' & Hout').
        rewrite Hest in Hest'. injection Hest' as <- <-.
        rewrite Hout in Hout'. injection Hout' as <-.
        rewrite Nat.add_0_r, Hkeep by lia. rewrite Hval, Nat.eqb_refl.
        rewrite bcast_index_id; [done | by rewrite Hy].
      * replace (j + S i) with (S j + i) by lia.
        by apply (Hslice i name' e' y).
Qed.

Section Running.
Variable stft : tensor → tensor.
Variable istft : tensor → nat → tensor.
Variable complexnorm : tensor → tensor.
Variable wiener : tensor → tensor → Z → bool → bool → tensor.

Lemma forward_front_runs self mix mixv st S C C' B F T :
  shapes_fit stft complexnorm wiener self mixv S C C' B F T →
  st_heap st !! mix = Some mixv →
  ∃ st1 p args,
    forward_front stft complexnorm self mix st = (st1, Ok p) ∧
    p_mix p = mixv ∧ p_nb_samples p = S ∧
    p_nb_sources p = length (_target_models self) ∧
    shape (p_spectrograms p) = [S; F; B; C'; length (_target_models self)] ∧
    shape (p_mix_stft p) = [S; F; B; C; 2] ∧
    preserves st st1 ∧
    st_trace st1 = st_trace st ++
      estimate_events (complexnorm (stft mixv))
                      (dict_keys (_target_models self)) args ∧
    length args = length (_target_models self) ∧
    (∀ j name e y,
       dict_keys (_target_models self) !! j = Some name →
       dict_get name (_target_models self) = Ok e →
       returns e (complexnorm (stft mixv)) y →
       ∀ s f b c, s < S → f < F → b < B → c < C' →
         at_ (p_spectrograms p) [s; f; b; c; j] = at_ y [s; c; b; f]).
Proof.
  intros [Hmixs Hstft Hnorm Hest Hwien] Hmix.
  set (Xv := complexnorm (stft mixv)) in *.
  set (n := length (_target_models self)) in *.
  unfold forward_front.
  rewrite (M_bind_Ok (load mix) _ st st mixv) by (unfold load; by rewrite Hmix).
  rewrite (M_bind_Ok (lift (size 0 mixv)) _ st st S)
    by (unfold lift, size; by rewrite Hmixs).
  destruct (alloc_spec Xv st) as (X & Halloc & HXfresh).
  rewrite (M_bind_Ok _ _ _ _ _ Halloc).
  set (st1 := mkState (<[X := Xv]> (st_heap st)) (st_trace st)) in *.
  assert (st_heap st1 !! X = Some Xv) as HX1 by apply lookup_insert_eq.
  rewrite (M_bind_Ok (load X) _ st1 st1 Xv) by (unfold load; by rewrite HX1).
  destruct (estimate_targets_runs self X Xv n (dict_keys (_target_models self)))
    with (j := 0) (sp := zeros (shape Xv ++ [n])) (st := st1)
    as (st2 & sp & Hrun & Hsp & _ & Hslice); [|done|done| |].
  { intros name Hname.
    destruct (dict_get_dict_keys _ _ Hname) as (e & Hget & Hin).
    exists e. split; [done|]. by apply (Hest name). }
  { unfold dict_keys, n. by rewrite length_fmap. }
  fold n. rewrite (M_bind_Ok _ _ _ _ _ Hrun).
  cbn [shape zeros] in Hsp. rewrite Hnorm in Hsp. cbn [app] in Hsp.
  destruct (permute_spectrograms sp _ _ _ _ _ Hsp) as (sp' & Hp1 & Hsp' & Hval).
  rewrite (M_bind_Ok _ _ st2 st2 sp') by (unfold lift; by rewrite Hp1).
  destruct (permute_spectrograms (stft mixv) _ _ _ _ _ Hstft) as (ms & Hp2 & Hms & _).
  rewrite (M_bind_Ok _ _ st2 st2 ms) by (unfold lift; by rewrite Hp2).
  destruct (estimate_targets_frame self X Xv (dict_keys (_target_models self))
              (λ name e Hin, proj1 (Hest name e Hin)) _ _ _ _ _ HX1 Hrun)
    as (Hpres & args & Htr & _ & Hlen).
  exists st2, (mkPrepared mixv S n sp' ms), args.
  split; [done|]. repeat (split; [done|]).
  split; [|split; [|split]].
  - eapply preserves_trans; [|exact Hpres].
    intros l Hl. cbn [st_heap st1]. rewrite lookup_insert_ne; [done|].
    intros ->. rewrite HXfresh in Hl. by destruct Hl.
  - done.
  - rewrite (Hlen eq_refl). unfold dict_keys, n. by rewrite length_fmap.
  - intros j name e y Hj Hget Hret s f b c Hs Hf Hb Hc. cbn [p_spectrograms].
    rewrite Hval.
    rewrite <- (Hslice j name e y Hj Hget Hret [s; c; b; f]); [done|].
    rewrite Hnorm. by apply in_bounds_4_intro.
Qed.

Lemma refinement_events_filter self p a b c d samples chunks :
  shape (p_spectrograms p) = [a; b; c; d; length (_target_models self)] →
  refinement_events self p samples chunks = filter_events self samples chunks.
Proof.
  intros Hsp. unfold refinement_events, filter_events. f_equal.
  apply map_ext. intros sample. apply map_ext. intros cur.
  by apply (wiener_event_stacked self p a b c d).
Qed.

Lemma forward_back_runs self p st S C C' B F T :
  (∀ s m k,
    shape s = [k; B; C'; length (_target_models self)] →
    shape m = [k; B; C; 2] →
    shape (wiener s m (_num_iter self) (_softmask self) (_residual self))
    = [k; B; C; 2; effective_sources self]) →
  shape (p_mix p) = [S; C; T] → p_nb_samples p = S →
  p_nb_sources p = length (_target_models self) →
  shape (p_spectrograms p) = [S; F; B; C'; length (_target_models self)] →
  shape (p_mix_stft p) = [S; F; B; C; 2] →
  (1 ≤ window self F)%Z →
  ¬ (effective_sources self = 1 ∧ (0 < _num_iter self)%Z) →
  ∃ ts,
    forward_back istft wiener self p st
    = (mkState (st_heap st)
               (st_trace st ++
                  filter_events self (seq 0 S) (chunking F F (window self F) 0)),
       Ok (istft ts T, ts)) ∧
    shape ts = [S; effective_sources self; C; B; F; 2] ∧
    (∀ sample cur i f sl ml k c b r,
       sample < S →
       cur ∈ chunking F F (window self F) 0 → cur !! i = Some f →
       getitem_frames sample cur (p_spectrograms p) = Ok sl →
       getitem_frames sample cur (p_mix_stft p) = Ok ml →
       k < effective_sources self → c < C → b < B → r < 2 →
       at_ ts [sample; k; c; b; f; r]
       = at_ (wiener sl ml (_num_iter self) (_softmask self) (_residual self))
             [i; b; c; r; k]).
Proof.
  intros Hwien Hmix HS Hn Hsp Hms Hw Hem.
  unfold forward_back.
  assert ((if _residual self then p_nb_sources p + 1 else p_nb_sources p)
          = effective_sources self) as -> by (unfold effective_sources; by rewrite Hn).
  assert (((effective_sources self =? 1) && (0 <? _num_iter self)%Z) = false) as ->.
  { apply andb_false_iff.
    destruct (effective_sources self =? 1) eqn:E1; [|by left]. right.
    apply Nat.eqb_eq in E1. apply Z.ltb_ge.
    destruct (Z_lt_le_dec 0 (_num_iter self)); [|done]. exfalso. by apply Hem. }
  rewrite (M_bind_Ok (lift (size 1 (p_spectrograms p))) _ st st F)
    by (unfold lift, size; by rewrite Hsp).
  assert (refinable wiener self p S F [B; C'; length (_target_models self)]
                    [B; C; 2] (effective_sources self)) as Hrf.
  { split; [done | done |]. intros s m k Hs Hm. by apply Hwien. }
  destruct (refine_samples_runs wiener self p S F _ _ _ Hrf Hw (seq 0 S)
              (zeros (shape (p_mix_stft p) ++ [effective_sources self])) st)
    as (ts1 & Hrun & Hts1).
  { apply Forall_forall. intros x Hx. apply elem_of_seq in Hx. lia. }
  { cbn [shape zeros]. by rewrite Hms. }
  rewrite HS. rewrite (M_bind_Ok _ _ _ _ _ Hrun).
  cbn [shape zeros] in Hts1. rewrite Hms in Hts1. cbn [app] in Hts1.
  destruct (permute_targets ts1 _ _ _ _ _ _ Hts1) as (ts & Hp & Hts & Hperm).
  destruct (refine_samples_values wiener self p F (seq 0 S) _ _ _ _
              (NoDup_seq 0 S) Hrun) as [_ Hval].
  set (st1 := mkState _ _).
  rewrite (M_bind_Ok _ _ st1 st1 ts) by (unfold lift; by rewrite Hp).
  rewrite (M_bind_Ok (lift (size 2 (p_mix p))) _ st1 st1 T)
    by (unfold lift, size; by rewrite Hmix).
  exists ts. split; [|split; [done|]].
  - subst st1. by rewrite (refinement_events_filter self p S F B C').
  - intros sample cur i f sl ml k c b r Hsample Hcur Hi Hsl Hml Hk Hc Hb Hr.
    rewrite Hperm.
    rewrite (Hval sample cur i f [b; c; r; k] sl ml); try done.
    2:{ apply elem_of_seq. lia. }
    f_equal. apply bcast_index_id.
    pose proof (getitem_frames_shape _ _ _ _ Hsl) as Hssl.
    pose proof (getitem_frames_shape _ _ _ _ Hml) as Hsml.
    rewrite Hsp in Hssl. rewrite Hms in Hsml. cbn [drop] in Hssl, Hsml.
    rewrite (Hwien sl ml (length cur) Hssl Hsml).
    apply lookup_lt_Some in Hi.
    unfold in_bounds. repeat (constructor; [assumption|]). constructor.
Qed.

(** X15: [forward] runs to completion on well-shaped data. When the
    transform, the magnitude, the estimators and the filter have the
    shapes documented in [forward], the chunk length is at least 1 and
    the single-source EM configuration does not apply, [forward] returns
    [(estimates, targets_stft)] where [targets_stft] has shape
    [(nb_samples, nb_sources, nb_channels, nb_bins, nb_frames, 2)] and
    [estimates] is its inverse transform for [nb_timesteps] samples;
    every tensor that existed before the call is unchanged; the calls
    made are one estimator call per target, in dictionary order, each on
    the mixture magnitude, followed for each sample in turn by one filter
    call per chunk of frames. *)
Theorem forward_runs self mix mixv st S C C' B F T :
  shapes_fit stft complexnorm wiener self mixv S C C' B F T →
  st_heap st !! mix = Some mixv →
  (1 ≤ window self F)%Z →
  ¬ (effective_sources self = 1 ∧ (0 < _num_iter self)%Z) →
  ∃ st' ts args,
    forward stft istft complexnorm wiener self mix st
    = (st', Ok (istft ts T, ts)) ∧
    shape ts = [S; effective_sources self; C; B; F; 2] ∧
    preserves st st' ∧
    length args = length (_target_models self) ∧
    st_trace st' = st_trace st ++
      estimate_events (complexnorm (stft mixv))
                      (dict_keys (_target_models self)) args ++
      filter_events self (seq 0 S) (chunking F F (window self F) 0).
Proof.
  intros Hfit Hmix Hw Hem.
  destruct (forward_front_runs self mix mixv st S C C' B F T Hfit Hmix)
    as (st1 & p & args & Hfront & Hpm & HpS & Hpn & Hsp & Hms & Hpres & Htr & Hlen & _).
  destruct Hfit as [Hmixs _ _ _ Hwien].
  destruct (forward_back_runs self p st1 S C C' B F T Hwien) as (ts & Hback & Hts & _);
    try done.
  { by rewrite Hpm. }
  exists (mkState (st_heap st1)
            (st_trace st1 ++
               filter_events self (seq 0 S) (chunking F F (window self F) 0))),
         ts, args.
  split; [|split; [done|split; [done|split; [done|]]]].
  - unfold forward. by rewrite (M_bind_Ok _ _ _ _ _ Hfront).
  - cbn [st_trace]. by rewrite Htr, <- app_assoc.
Qed.

(** X27: what [forward] returns. On well-shaped data the complex
    spectrograms returned by [forward] hold the output of the filter:
    for every sample, every chunk [cur_frame] of frames and every frame
    [f] at position [i] of that chunk, entry
    [(sample, k, c, b, f, r)] of [targets_stft] is entry
    [(i, b, c, r, k)] of
    [wiener(spectrograms[sample, cur_frame], mix_stft[sample, cur_frame],
    ...)], where [spectrograms] and [mix_stft] are the transposed stacks
    built by lines 235-262. *)
Theorem forward_holds_filter_output self mix mixv st S C C' B F T :
  shapes_fit stft complexnorm wiener self mixv S C C' B F T →
  st_heap st !! mix = Some mixv →
  (1 ≤ window self F)%Z →
  ¬ (effective_sources self = 1 ∧ (0 < _num_iter self)%Z) →
  ∃ st1 p st' ts,
    forward_front stft complexnorm self mix st = (st1, Ok p) ∧
    shape (p_spectrograms p) = [S; F; B; C'; length (_target_models self)] ∧
    shape (p_mix_stft p) = [S; F; B; C; 2] ∧
    forward stft istft complexnorm wiener self mix st
    = (st', Ok (istft ts T, ts)) ∧
    ∀ sample cur i f sl ml k c b r,
      sample < S →
      cur ∈ chunking F F (window self F) 0 → cur !! i = Some f →
      getitem_frames sample cur (p_spectrograms p) = Ok sl →
      getitem_frames sample cur (p_mix_stft p) = Ok ml →
      k < effective_sources self → c < C → b < B → r < 2 →
      at_ ts [sample; k; c; b; f; r]
      = at_ (wiener sl ml (_num_iter self) (_softmask self) (_residual self))
            [i; b; c; r; k].
Proof.
  intros Hfit Hmix Hw Hem.
  destruct (forward_front_runs self mix mixv st S C C' B F T Hfit Hmix)
    as (st1 & p & args & Hfront & Hpm & HpS & Hpn & Hsp & Hms & _).
  destruct Hfit as [Hmixs _ _ _ Hwien].
  destruct (forward_back_runs self p st1 S C C' B F T Hwien)
    as (ts & Hback & _ & Hval); try done.
  { by rewrite Hpm. }
  eexists st1, p, _, ts. split; [done|]. split; [done|]. split; [done|].
  split; [|done].
  unfold forward. by rewrite (M_bind_Ok _ _ _ _ _ Hfront).
Qed.

(** X25: on well-shaped data the transposed spectrogram stack that
    [forward] hands to the refinement holds, in slice [j] of its last
    axis, the spectrogram returned by the model of the [j]-th target:
    entry [(s, f, b, c, j)] is entry [(s, c, b, f)] of that model's
    output (lines 249-257). *)
Theorem spectrograms_hold_estimates self mix mixv st st1 p S C C' B F T j name e y :
  shapes_fit stft complexnorm wiener self mixv S C C' B F T →
  st_heap st !! mix = Some mixv →
  forward_front stft complexnorm self mix st = (st1, Ok p) →
  dict_keys (_target_models self) !! j = Some name →
  dict_get name (_target_models self) = Ok e →
  returns e (complexnorm (stft mixv)) y →
  ∀ s f b c, s < S → f < F → b < B → c < C' →
    at_ (p_spectrograms p) [s; f; b; c; j] = at_ y [s; c; b; f].
Proof.
  intros Hfit Hmix Hfront Hj Hget Hret.
  destruct (forward_front_runs self mix mixv st S C C' B F T Hfit Hmix)
    as (st1' & p' & args & Hfront' & _ & _ & _ & _ & _ & _ & _ & _ & Hval).
  rewrite Hfront in Hfront'. injection Hfront' as _ <-.
  by apply (Hval j name e y).
Qed.

End Running.

Section Refining.
Variable wiener : tensor → tensor → Z → bool → bool → tensor.
Variable istft : tensor → nat → tensor.

(** X16: a chunk length of 0 makes the refinement fail instead of
    looping: with at least one sample and one frame the first chunk is
    empty, [cur_frame[-1]] (line 291) raises [IndexError], and the filter
    is never called. *)
Theorem zero_window_raises self p st F :
  _wiener_win_len self = Some 0%Z →
  size 1 (p_spectrograms p) = Ok F → 1 ≤ F → 1 ≤ p_nb_samples p →
  ¬ ((if _residual self then p_nb_sources p + 1 else p_nb_sources p) = 1 ∧
     (0 < _num_iter self)%Z) →
  forward_back istft wiener self p st = (st, Raise IndexError).
Proof.
  intros Hwin HF HF1 HS Hem. unfold forward_back.
  assert ((((if _residual self then p_nb_sources p + 1 else p_nb_sources p) =? 1)
           && (0 <? _num_iter self)%Z) = false) as ->.
  { apply andb_false_iff.
    destruct (_ =? 1) eqn:E1; [|by left]. right.
    apply Nat.eqb_eq in E1. apply Z.ltb_ge.
    destruct (Z_lt_le_dec 0 (_num_iter self)); [|done]. exfalso. by apply Hem. }
  rewrite (M_bind_Ok (lift (size 1 (p_spectrograms p))) _ st st F)
    by (unfold lift; by rewrite HF).
  destruct (p_nb_samples p) as [|n]; [lia|].
  destruct F as [|F]; [lia|].
  cbn [seq refine_samples]. rewrite Hwin. cbn [wiener_loop].
  assert ((0 <? S F) = true) as -> by (apply Nat.ltb_lt; lia).
  assert (arange 0 (Z.min (Z.of_nat (S F)) (Z.of_nat 0 + 0)) = []) as ->.
  { unfold arange. replace (Z.to_nat _) with 0 by lia. done. }
  reflexivity.
Qed.

Lemma chunking_length F w :
  (1 ≤ w)%Z →
  ∀ fuel pos, pos ≤ F → F - pos ≤ fuel →
  length (chunking fuel F w pos) = (F - pos + Z.to_nat w - 1) / Z.to_nat w.
Proof.
  intros Hw. set (W := Z.to_nat w). assert (1 ≤ W) as HW by lia.
  induction fuel as [|fuel IH]; intros pos Hpos Hfuel.
  - assert (pos = F) as -> by lia. cbn [chunking]. rewrite Nat.ltb_irrefl.
    rewrite Nat.sub_diag. cbn [length].
    symmetry. apply Nat.div_small. lia.
  - cbn [chunking]. destruct (pos <? F) eqn:E.
    2:{ apply Nat.ltb_ge in E. assert (pos = F) as -> by lia.
        rewrite Nat.sub_diag. cbn [length]. symmetry. apply Nat.div_small. lia. }
    apply Nat.ltb_lt in E.
    destruct (arange_chunk pos F w E Hw) as (-> & -> & Hlen).
    fold W in Hlen |- *.
    set (len := Nat.min (F - pos) W) in *.
    cbn [length]. replace (pos + len - 1 + 1) with (pos + len) by lia.
    rewrite IH by lia.
    destruct (Nat.le_gt_cases (F - pos) W) as [Hle|Hgt].
    + replace len with (F - pos) by lia.
      replace (F - (pos + (F - pos))) with 0 by lia.
      rewrite (Nat.div_small (0 + W - 1) W) by lia.
      apply Nat.div_unique with (r := F - pos - 1); lia.
    + replace len with W by lia.
      replace (F - pos + W - 1) with (F - (pos + W) + W - 1 + 1 * W) by lia.
      rewrite Nat.div_add by lia. lia.
Qed.

Lemma refinement_events_length self p samples chunks :
  length (refinement_events self p samples chunks)
  = length samples * length chunks.
Proof.
  unfold refinement_events. induction samples as [|s samples IH]; [done|].
  cbn [map concat length]. rewrite length_app, length_map, IH. lia.
Qed.

(** X17: the filter is called
    [nb_samples * ceil (nb_frames / wiener_win_len)] times; once per
    sample when the chunk length is at least the number of frames. *)
Theorem refinement_call_count self p S F rest_s rest_m nsrc ts st :
  refinable wiener self p S F rest_s rest_m nsrc →
  shape ts = S :: F :: rest_m ++ [nsrc] →
  (1 ≤ window self F)%Z →
  let W := Z.to_nat (window self F) in
  ∃ evs ts',
    refine_samples wiener self p F (seq 0 S) ts st
    = (mkState (st_heap st) (st_trace st ++ evs), Ok ts') ∧
    length evs = S * ((F + W - 1) / W) ∧
    (F ≤ W → length evs = S * Nat.min 1 F).
Proof.
  intros Hrf Hts Hw W.
  destruct (refine_samples_runs wiener self p S F rest_s rest_m nsrc Hrf Hw
              (seq 0 S) ts st) as (ts' & Hrun & _); [|done|].
  { apply Forall_forall. intros x Hx. apply elem_of_seq in Hx. lia. }
  eexists _, ts'. split; [exact Hrun|].
  rewrite refinement_events_length, length_seq.
  rewrite (chunking_length F _ Hw) by lia. rewrite Nat.sub_0_r. fold W.
  split; [done|]. intros HFW. f_equal.
  destruct (decide (F = 0)) as [->|HF0].
  - rewrite Nat.div_small by lia. done.
  - replace (Nat.min 1 F) with 1 by lia.
    symmetry. apply Nat.div_unique with (r := F - 1); lia.
Qed.

(** X18: lines 264-307 of [forward] always come to an end: for every
    chunk length of at least 0, every frame count and all operand shapes
    the [while] loop makes at most [nb_frames] iterations per sample.
    With a filter and an inverse transform that return, the only
    exceptions are the EM configuration error and index and shape
    errors, and the tensors held by the caller are left untouched. *)
Theorem refinement_terminates self p st st' r :
  match _wiener_win_len self with Some w => (0 ≤ w)%Z | None => True end →
  forward_back istft wiener self p st = (st', r) →
  r ≠ Raise OutOfFuel ∧
  (∀ e, r = Raise e → e = CannotUseEM ∨ e = IndexError ∨ e = RuntimeError) ∧
  st_heap st' = st_heap st.
Proof.
  intros _ H. destruct (forward_back_inv wiener istft self p st st' r H)
    as (Hheap & _ & Herr & _).
  assert (∀ e, r = Raise e → e = CannotUseEM ∨ e = IndexError ∨ e = RuntimeError)
    as Herr'.
  { intros e He. destruct (Herr e He) as [(-> & _)|([->| ->] & _)]; auto. }
  split; [|done]. intros ->.
  destruct (Herr' OutOfFuel eq_refl) as [?|[?|?]]; discriminate.
Qed.

End Refining.

(** *** The dictionary *)

Lemma slice_target_is_ok k t :
  is_ok (slice_target k t) = true ↔
  ∃ d0 d1 rest, shape t = d0 :: d1 :: rest ∧ k < d0.
Proof.
  split.
  - destruct (slice_target k t) as [e|] eqn:He; [|done]. intros _.
    apply slice_target_inv in He as (d0 & rest & Ht & Hk & Hne & _).
    destruct rest as [|d1 rest]; [done|]. eauto 6.
  - intros (d0 & d1 & rest & Ht & Hk). by rewrite (slice_target_ok _ _ _ _ _ Ht Hk).
Qed.

Lemma slice_target_error k t e : slice_target k t = Raise e → e = IndexError.
Proof.
  unfold slice_target, index0. destruct (2 <=? ndim t); [|congruence].
  destruct (shape t) as [|d rest]; [congruence|].
  destruct (k <? d); [done | congruence].
Qed.

Lemma slice_last_error t e : slice_last t = Raise e → e = IndexError.
Proof.
  unfold slice_last, index_last0, index0. destruct (2 <=? ndim t); [|congruence].
  destruct (shape t) as [|d rest]; [congruence|].
  destruct (d - 1 <? d); [done | congruence].
Qed.

Lemma per_target_inv names :
  ∀ k t d0 d, per_target k names t d0 = Ok d →
  (∀ i, i < length names → is_ok (slice_target (k + i) t) = true) ∧
  (∀ name, is_Some (d !! name) ↔ name ∈ names ∨ is_Some (d0 !! name)).
Proof.
  induction names as [|target rest IH]; intros k t d0 d Hrun.
  - injection Hrun as <-. split; [cbn; lia|].
    intros name. rewrite elem_of_nil. tauto.
  - cbn [per_target] in Hrun. apply bind_Ok in Hrun as (e & He & Hrun).
    destruct (IH _ _ _ _ Hrun) as [Hok Hdom]. split.
    + intros [|i] Hi.
      * by rewrite Nat.add_0_r, He.
      * replace (k + S i) with (S k + i) by lia. apply Hok. cbn in Hi. lia.
    + intros name. rewrite Hdom, elem_of_cons.
      destruct (decide (target = name)) as [->|Hne].
      * rewrite lookup_insert_eq. split; [by left; left | eauto].
      * rewrite lookup_insert_ne by done. split; [tauto|].
        intros [[?|?]|?]; [congruence | tauto | tauto].
Qed.

Lemma per_target_error names :
  ∀ k t d0 e, per_target k names t d0 = Raise e → e = IndexError.
Proof.
  induction names as [|target rest IH]; intros k t d0 e; [done|].
  cbn [per_target]. destruct (slice_target k t) as [s|e'] eqn:Hs; cbn.
  - apply IH.
  - intros [= <-]. by apply slice_target_error in Hs.
Qed.

(** X19: [to_dict] without aggregation raises nothing but
    [IndexError], and returns exactly when there is nothing to slice (no
    target, no residual) or the estimates have at least two axes, the
    first one at least as long as the number of targets and, in residual
    mode, not empty. *)
Theorem to_dict_plain_outcome self est :
  let names := dict_keys (_target_models self) in
  (∀ e, to_dict self est None = Raise e → e = IndexError) ∧
  ((∃ d, to_dict self est None = Ok d) ↔
   (names = [] ∧ _residual self = false) ∨
   (∃ d0 d1 rest, shape est = d0 :: d1 :: rest ∧ length names ≤ d0 ∧
                  (_residual self = true → 0 < d0))).
Proof.
  intros names. unfold to_dict. fold names. split; [|split].
  - intros e.
    destruct (per_target 0 names est ∅) as [d1|e1] eqn:Hper; cbn.
    2:{ intros [= <-]. by apply per_target_error in Hper. }
    destruct (_residual self); cbn; [|done].
    destruct (slice_last est) as [s|e2] eqn:Hs; cbn; [done|].
    intros [= <-]. by apply slice_last_error in Hs.
  - intros [d Hd].
    apply bind_Ok in Hd as (d1 & Hper & Hd).
    apply bind_Ok in Hd as (d2 & Hres & _).
    apply per_target_inv in Hper as [Hok _].
    destruct (_residual self) eqn:Eres.
    + right. apply bind_Ok in Hres as (e & He & _).
      apply slice_last_inv in He as (d0 & rest & Ht & Hd0 & Hne & _).
      destruct rest as [|dd rest]; [done|].
      exists d0, dd, rest. split; [done|]. split; [|done].
      destruct (length names) as [|n] eqn:En; [lia|].
      specialize (Hok n ltac:(lia)).
      apply slice_target_is_ok in Hok as (d0' & d1' & rest' & Ht' & Hk).
      rewrite Ht in Ht'. injection Ht' as -> _ _. cbn in Hk. lia.
    + destruct (length names) as [|n] eqn:En.
      * left. split; [by apply nil_length_inv | done].
      * right. specialize (Hok n ltac:(lia)).
        apply slice_target_is_ok in Hok as (d0 & dd & rest & Ht & Hk).
        exists d0, dd, rest. split; [done|]. cbn in Hk. split; [lia | done].
  - intros [[Hnil Hres] | (d0 & dd & rest & Ht & Hlen & Hres)].
    + rewrite Hnil, Hres. cbn. eauto.
    + destruct (per_target_ok names 0 est ∅) as [d1 ->].
      { intros i Hi. apply slice_target_is_ok. exists d0, dd, rest.
        split; [done|]. cbn. lia. }
      cbn. destruct (_residual self); cbn; [|eauto].
      rewrite (slice_last_ok _ _ _ _ Ht) by (by apply Hres). cbn. eauto.
Qed.

(** X20: when a loaded target is itself named ["residual"] and residual
    mode is on, the key ["residual"] holds the last slice of the
    estimates and the dictionary has one entry per target, not one
    more: the slice of the target named ["residual"] is overwritten
    (line 326). *)
Theorem residual_key_clash self est d :
  NoDup (dict_keys (_target_models self)) →
  "residual"%string ∈ dict_keys (_target_models self) →
  _residual self = true →
  to_dict self est None = Ok d →
  (∃ e, slice_last est = Ok e ∧ d !! "residual"%string = Some e) ∧
  dom d = list_to_set (dict_keys (_target_models self)) ∧
  base.size d = length (_target_models self).
Proof.
  intros Hnd Hin Hres Hd.
  destruct (to_dict_plain_inv self est d Hnd Hd) as (_ & Hlast & Hdom & _).
  split; [by apply Hlast|].
  assert (dom d = list_to_set (dict_keys (_target_models self))) as Hdd.
  { apply set_eq. intros name.
    rewrite elem_of_dom, Hdom, elem_of_list_to_set.
    split; [|by left]. intros [?|[-> _]]; done. }
  split; [done|].
  rewrite <- size_dom, Hdd, size_list_to_set by done.
  unfold dict_keys. by rewrite length_fmap.
Qed.

Lemma sum_targets_errors (d0 : gmap string tensor) sh :
  (∀ name e, d0 !! name = Some e → shape e = sh) →
  ∀ names acc, (shape acc = [] ∨ shape acc = sh) →
  (∀ e, sum_targets d0 names acc = Raise e → e = KeyError) ∧
  (∀ name, name ∈ names → d0 !! name = None →
           sum_targets d0 names acc = Raise KeyError).
Proof.
  intros Hsh. induction names as [|target rest IH]; intros acc Hacc.
  - split; [done|]. intros name Hn. inversion Hn.
  - cbn [sum_targets].
    destruct (d0 !! target) as [t|] eqn:Ht; cbn.
    2:{ split; [by intros e [= <-] | done]. }
    assert (∃ acc', add acc t = Ok acc' ∧ shape acc' = sh) as (acc' & -> & Hacc').
    { apply map2_shape. rewrite (Hsh _ _ Ht).
      destruct Hacc as [-> | ->];
        [apply broadcast_shapes_scalar_l | apply broadcast_shapes_same]. }
    cbn. destruct (IH acc' (or_intror Hacc')) as [Herr Hmiss].
    split; [done|]. intros name [->|Hn]%elem_of_cons Hnone; [congruence|].
    by apply (Hmiss name).
Qed.

Lemma aggregate_errors (d0 : gmap string tensor) sh :
  (∀ name e, d0 !! name = Some e → shape e = sh) →
  ∀ items new,
  (∀ e, aggregate d0 items new = Raise e → e = KeyError) ∧
  (∀ key names name, (key, names) ∈ items → name ∈ names → d0 !! name = None →
     aggregate d0 items new = Raise KeyError).
Proof.
  intros Hsh. induction items as [|[key0 names0] items IH]; intros new.
  - split; [done|]. intros key names name H. inversion H.
  - cbn [aggregate].
    destruct (sum_targets_errors d0 sh Hsh names0 (scalar 0) (or_introl eq_refl))
      as [Herr Hmiss].
    destruct (sum_targets d0 names0 (scalar 0)) as [v|e0] eqn:Hsum; cbn.
    + destruct (IH (<[key0 := v]> new)) as [Herr' Hmiss'].
      split; [done|].
      intros key names name [[= -> ->]|Hin]%elem_of_cons Hn Hnone.
      * by specialize (Hmiss name Hn Hnone).
      * by apply (Hmiss' key names name).
    + rewrite (Herr e0 eq_refl). split; [by intros e [= <-] | done].
Qed.

(** X21: a constituent name of an aggregation that is not a key of the
    per-target dictionary makes [to_dict] raise [KeyError] (line 333),
    whatever the other entries of the aggregation are. *)
Theorem unknown_constituent_raises self est (agg : gmap string (list string))
    (d0 : gmap string tensor) key names name :
  to_dict self est None = Ok d0 →
  agg !! key = Some names → name ∈ names → d0 !! name = None →
  to_dict self est (Some agg) = Raise KeyError.
Proof.
  intros Hd0 Hkey Hname Hnone.
  pose proof (to_dict_plain_shapes self est d0 Hd0) as Hsh.
  unfold to_dict in Hd0 |- *.
  destruct (per_target 0 _ est ∅) as [d1|] eqn:Hper; [|done]. cbn in Hd0 |- *.
  destruct (if _residual self then _ else _) as [d2|]; [|done]. cbn in Hd0 |- *.
  injection Hd0 as ->.
  apply (aggregate_errors d0 _ Hsh (map_to_list agg) ∅) with key names name;
    [|done|done].
  by apply elem_of_map_to_list.
Qed.

Section Separating.
Variable stft : tensor → tensor.
Variable istft : tensor → nat → tensor.
Variable complexnorm : tensor → tensor.
Variable wiener : tensor → tensor → Z → bool → bool → tensor.

(** X22: [separate] runs to completion on a single well-shaped sample.
    Under the conditions of the statement on [forward] above, with one
    sample and an inverse transform returning
    [(1, nb_sources, nb_channels, nb_timesteps)], [separate] returns a
    dictionary whose keys are the target names, plus ["residual"] in
    residual mode, every value of shape [(nb_channels, nb_timesteps)];
    the tensors that existed before the call are unchanged. *)
Theorem separate_runs self mix mixv st C C' B F T :
  shapes_fit stft complexnorm wiener self mixv 1 C C' B F T →
  st_heap st !! mix = Some mixv →
  (1 ≤ window self F)%Z →
  ¬ (effective_sources self = 1 ∧ (0 < _num_iter self)%Z) →
  (∀ ts, shape ts = [1; effective_sources self; C; B; F; 2] →
         shape (istft ts T) = [1; effective_sources self; C; T]) →
  ∃ st' d,
    separate stft istft complexnorm wiener self mix st = (st', Ok d) ∧
    preserves st st' ∧
    (∀ name, is_Some (d !! name) ↔
             name ∈ dict_keys (_target_models self) ∨
             (name = "residual"%string ∧ _residual self = true)) ∧
    (∀ name e, d !! name = Some e → shape e = [C; T]).
Proof.
  intros Hfit Hmix Hw Hem Histft.
  destruct (forward_front_runs stft complexnorm wiener self mix mixv st
              1 C C' B F T Hfit Hmix)
    as (st1 & p & args & Hfront & Hpm & HpS & Hpn & Hsp & Hms & Hpres & _).
  destruct (forward_back_runs istft wiener self p st1 1 C C' B F T
              (sf_wiener _ _ _ _ _ _ _ _ _ _ _ Hfit)) as (ts & Hback & Hts & _);
    try done.
  { rewrite Hpm. apply (sf_mix _ _ _ _ _ _ _ _ _ _ _ Hfit). }
  set (st' := mkState _ _) in Hback.
  assert (forward stft istft complexnorm wiener self mix st
          = (st', Ok (istft ts T, ts))) as Hfwd.
  { unfold forward. by rewrite (M_bind_Ok _ _ _ _ _ Hfront). }
  specialize (Histft ts Hts).
  assert (shape (squeeze0 (istft ts T)) = [effective_sources self; C; T]) as Hsq.
  { unfold squeeze0. by rewrite Histft. }
  destruct (to_dict_plain_ok self (squeeze0 (istft ts T)) _ _ _ Hsq) as [d Hd];
    [done|].
  exists st', d. split; [|split; [done|split]].
  - unfold separate. rewrite (M_bind_Ok _ _ _ _ _ Hfwd). unfold lift.
    by rewrite Hd.
  - intros name. unfold to_dict in Hd.
    apply bind_Ok in Hd as (d1 & Hper & Hd).
    apply bind_Ok in Hd as (d2 & Hres & [= <-]).
    apply per_target_inv in Hper as [_ Hdom].
    destruct (_residual self).
    + apply bind_Ok in Hres as (e & _ & [= <-]).
      destruct (decide (name = "residual"%string)) as [->|Hne].
      * rewrite lookup_insert_eq. split; [by right | eauto].
      * rewrite lookup_insert_ne by done. rewrite Hdom, lookup_empty.
        split; [intros [?|[? ?]]; [by left | done] | intros [?|[? _]]; [by left | done]].
    + injection Hres as <-. rewrite Hdom, lookup_empty.
      split; [intros [?|[? ?]]; [by left | done] | intros [?|[_ ?]]; [by left | done]].
  - intros name e He.
    rewrite (to_dict_plain_shapes self _ d Hd name e He). by rewrite Hsq.
Qed.

End Separating.
(** *** The statements at work on the sample separator *)

Lemma scribbler_estimates_like Xv : estimates_like scribbler Xv.
Proof.
  intros h arg Harg. unfold scribbler. cbn. rewrite Harg.
  eexists _, arg, _. split; [done|]. split; [apply lookup_insert_eq | done].
Qed.

Lemma scribbling_shapes_fit :
  shapes_fit sample_stft sample_complexnorm sample_wiener scribbling_separator
             (OpenUnmix.all_ones [1; 2; 6]) 1 2 2 3 6 6.
Proof.
  split; [reflexivity | reflexivity | reflexivity | |].
  - intros name e Hin. cbn in Hin.
    assert (e = scribbler) as ->.
    { apply elem_of_cons in Hin as [Heq | Hin]; [by injection Heq as _ ->|].
      apply elem_of_cons in Hin as [Heq | Hin]; [by injection Heq as _ ->|].
      inversion Hin. }
    split; [apply scribbler_frame_ok | apply scribbler_estimates_like].
  - intros s m k Hs Hm. unfold sample_wiener. rewrite Hs, Hm. reflexivity.
Qed.

Lemma load_model_keys_witness :
  ∃ self', load_model OpenUnmix.sample_tanh OpenUnmix.sample_weights
                      sample_torch_load fallback_separator None = Ok self' ∧
           dict_keys (_target_models self') = ["piano"; "orch"]%string.
Proof.
  destruct (load_model OpenUnmix.sample_tanh OpenUnmix.sample_weights
                       sample_torch_load fallback_separator None)
    as [self'|e] eqn:H; [|vm_compute in H; discriminate H].
  exists self'. split; [reflexivity|].
  destruct (load_model_keys OpenUnmix.sample_tanh OpenUnmix.sample_weights
              sample_torch_load fallback_separator None self' H)
    as (_ & _ & Hkeys & _).
  apply Hkeys. compute_done.
Defined.

Lemma loaded_models_keep_shape_witness :
  ∃ y, OpenUnmix.forward OpenUnmix.sample_tanh
         (restored OpenUnmix.sample_weights fallback_separator
                   OpenUnmix.sample_state)
         (OpenUnmix.all_ones [1; 2; 3; 5]) = Ok y ∧
       shape y = [1; 2; 3; 5].
Proof.
  assert (init sample_config true (Some 300%Z) 0 false = Ok fallback_separator)
    as Hinit by (vm_compute; reflexivity).
  destruct (load_model OpenUnmix.sample_tanh OpenUnmix.sample_weights
                       sample_torch_load fallback_separator None)
    as [self|e] eqn:Hload; [|vm_compute in Hload; discriminate Hload].
  assert (∃ e, ("piano"%string, e) ∈ _target_models self) as [e He].
  { pose proof Hload as Hl. unfold load_model in Hl.
    apply bind_Ok in Hl as (tm & Htm & [= <-]).
    apply load_targets_keys in Htm as [Hin _].
    destruct (dict_get_dict_keys "piano"%string tm) as (v & _ & Hv);
      [apply Hin; right; by left | by exists v]. }
  destruct (loaded_models_keep_shape OpenUnmix.sample_tanh
              OpenUnmix.sample_weights sample_torch_load
              sample_config true (Some 300%Z) 0%Z false
              fallback_separator None self "piano"%string e Hinit Hload)
    as (sd & m & Hsd & -> & _ & _ & _ & _ & _ & Hfwd);
    [simpl; lia | reflexivity | exact He |].
  injection Hsd as <-.
  apply (Hfwd (OpenUnmix.all_ones [1; 2; 3; 5]) 1 5);
    [reflexivity | lia | simpl; lia | lia].
Defined.

Lemma forward_runs_witness :
  ∃ st' ts,
    forward sample_stft sample_istft sample_complexnorm sample_wiener
            scribbling_separator 0 sample_state
    = (st', Ok (sample_istft ts 6, ts)) ∧
    shape ts = [1; 3; 2; 3; 6; 2].
Proof.
  destruct (forward_runs sample_stft sample_istft sample_complexnorm sample_wiener
              scribbling_separator 0 (OpenUnmix.all_ones [1; 2; 6]) sample_state
              1 2 2 3 6 6 scribbling_shapes_fit eq_refl)
    as (st' & ts & args & Hrun & Hts & _).
  - vm_compute. discriminate.
  - intros [H _]. vm_compute in H. discriminate H.
  - exists st', ts. split; [exact Hrun|]. rewrite Hts. reflexivity.
Defined.

Lemma forward_holds_filter_output_witness :
  ∃ st' ts,
    forward sample_stft sample_istft sample_complexnorm sample_wiener
            scribbling_separator 0 sample_state
    = (st', Ok (sample_istft ts 6, ts)) ∧
    at_ ts [0; 2; 0; 0; 5; 0] = (inject_Z 2 + 1)%Q.
Proof.
  destruct (forward_holds_filter_output sample_stft sample_istft
              sample_complexnorm sample_wiener scribbling_separator 0
              (OpenUnmix.all_ones [1; 2; 6]) sample_state 1 2 2 3 6 6
              scribbling_shapes_fit eq_refl)
    as (st1 & p & st' & ts & _ & Hsp & Hms & Hfwd & Hval).
  - vm_compute. discriminate.
  - intros [H _]. vm_compute in H. discriminate H.
  - exists st', ts. split; [exact Hfwd|].
    destruct (getitem_frames_ok 0 [4; 5] (p_spectrograms p) _ _ _ Hsp)
      as (sl & Hsl & Hssl); [lia | reflexivity |].
    destruct (getitem_frames_ok 0 [4; 5] (p_mix_stft p) _ _ _ Hms)
      as (ml & Hml & Hsml); [lia | reflexivity |].
    rewrite (Hval 0 [4; 5] 1 5 sl ml 2 0 0 0); try lia.
    + unfold sample_wiener. rewrite Hssl, Hsml. reflexivity.
    + assert (chunking 6 6 (window scribbling_separator 6) 0
              = [[0; 1; 2; 3]; [4; 5]]) as -> by (vm_compute; reflexivity).
      apply elem_of_cons. right. apply elem_of_cons. by left.
    + reflexivity.
    + exact Hsl.
    + exact Hml.
    + vm_compute. lia.
Defined.

Lemma spectrograms_hold_estimates_witness :
  ∃ st1 p,
    forward_front sample_stft sample_complexnorm scribbling_separator 0
                  sample_state = (st1, Ok p) ∧
    at_ (p_spectrograms p) [0; 5; 2; 1; 1] = 0%Q.
Proof.
  destruct (forward_front sample_stft sample_complexnorm scribbling_separator 0
                          sample_state) as [st1 [p|e]] eqn:H;
    [|vm_compute in H; discriminate H].
  exists st1, p. split; [reflexivity|].
  apply (spectrograms_hold_estimates sample_stft sample_complexnorm sample_wiener
           scribbling_separator 0 (OpenUnmix.all_ones [1; 2; 6]) sample_state
           st1 p 1 2 2 3 6 6 1 "orch"%string scribbler (zeros [1; 2; 3; 6])
           scribbling_shapes_fit eq_refl H eq_refl eq_refl); [|lia..].
  intros h arg Harg. unfold scribbler. cbn. rewrite Harg.
  eexists _, arg. split; [reflexivity | apply lookup_insert_eq].
Defined.

Lemma zero_window_raises_witness :
  forward_back sample_istft sample_wiener (sample_self true (Some 0%Z) 0 None)
               sample_prepared sample_state
  = (sample_state, Raise IndexError).
Proof.
  apply (zero_window_raises sample_wiener sample_istft
           (sample_self true (Some 0%Z) 0 None) sample_prepared sample_state 6).
  - vm_compute. reflexivity.
  - reflexivity.
  - lia.
  - simpl. lia.
  - intros [H _]. vm_compute in H. discriminate H.
Defined.

Lemma refinement_call_count_witness :
  ∃ evs ts',
    refine_samples sample_wiener (sample_self true (Some 4%Z) 0 None)
                   sample_prepared 6 (seq 0 1) (zeros [1; 6; 3; 2; 2; 3])
                   sample_state
    = (mkState (st_heap sample_state) (st_trace sample_state ++ evs), Ok ts') ∧
    length evs = 2.
Proof.
  destruct (refinement_call_count sample_wiener
              (sample_self true (Some 4%Z) 0 None) sample_prepared
              1 6 [3; 2; 2] [3; 2; 2] 3 (zeros [1; 6; 3; 2; 2; 3]) sample_state
              sample_refinable eq_refl)
    as (evs & ts' & Hrun & Hlen & _).
  - vm_compute. discriminate.
  - exists evs, ts'. split; [exact Hrun|]. rewrite Hlen. vm_compute. reflexivity.
Defined.

Lemma refinement_writes_filter_output_witness :
  ∃ st' ts',
    refine_samples sample_wiener (sample_self true (Some 4%Z) 0 None)
                   sample_prepared 6 (seq 0 1) (zeros [1; 6; 3; 2; 2; 3])
                   sample_state = (st', Ok ts') ∧
    at_ ts' [0; 5; 0; 0; 0; 2] = (inject_Z 2 + 1)%Q.
Proof.
  destruct (refine_samples sample_wiener (sample_self true (Some 4%Z) 0 None)
              sample_prepared 6 (seq 0 1) (zeros [1; 6; 3; 2; 2; 3])
              sample_state) as [st' [ts'|e]] eqn:H;
    [|vm_compute in H; discriminate H].
  exists st', ts'. split; [reflexivity|].
  destruct (getitem_frames 0 [4; 5] (p_spectrograms sample_prepared))
    as [sl|e] eqn:Hsl; [|vm_compute in Hsl; discriminate Hsl].
  destruct (getitem_frames 0 [4; 5] (p_mix_stft sample_prepared))
    as [ml|e] eqn:Hml; [|vm_compute in Hml; discriminate Hml].
  rewrite (refinement_writes_filter_output sample_wiener
             (sample_self true (Some 4%Z) 0 None) sample_prepared
             1 6 [3; 2; 2] [3; 2; 2] 3 (zeros [1; 6; 3; 2; 2; 3]) sample_state
             st' ts' sample_refinable H 0 [4; 5] 1 5 [0; 0; 0; 2] sl ml).
  - apply getitem_frames_shape in Hsl, Hml. unfold sample_wiener.
    rewrite Hsl, Hml. reflexivity.
  - lia.
  - assert (chunking 6 6 (window (sample_self true (Some 4%Z) 0 None) 6) 0
            = [[0; 1; 2; 3]; [4; 5]]) as -> by (vm_compute; reflexivity).
    apply elem_of_cons. right. apply elem_of_cons. by left.
  - reflexivity.
  - exact Hsl.
  - exact Hml.
  - repeat constructor.
Defined.

Lemma refinement_terminates_witness :
  (forward_back sample_istft sample_wiener (sample_self true (Some 4%Z) 0 None)
                sample_prepared sample_state).2 ≠ Raise OutOfFuel.
Proof.
  destruct (forward_back sample_istft sample_wiener
              (sample_self true (Some 4%Z) 0 None) sample_prepared sample_state)
    as [st' r] eqn:H.
  refine (proj1 (refinement_terminates sample_wiener sample_istft
                   (sample_self true (Some 4%Z) 0 None) sample_prepared
                   sample_state st' r _ H)).
  vm_compute. discriminate.
Defined.

Lemma residual_key_clash_witness :
  ∃ d, to_dict (sample_self true (Some 4%Z) 0 (Some ["residual"%string]))
               sample_estimates None = Ok d ∧
       base.size d = 1.
Proof.
  assert (dict_keys (_target_models
                       (sample_self true (Some 4%Z) 0 (Some ["residual"%string])))
          = ["residual"%string]) as Hkeys by (vm_compute; reflexivity).
  destruct (to_dict (sample_self true (Some 4%Z) 0 (Some ["residual"%string]))
                    sample_estimates None) as [d|e] eqn:H;
    [|vm_compute in H; discriminate H].
  exists d. split; [reflexivity|].
  destruct (residual_key_clash
              (sample_self true (Some 4%Z) 0 (Some ["residual"%string]))
              sample_estimates d) as (_ & _ & Hsize).
  - rewrite Hkeys. compute_done.
  - rewrite Hkeys. compute_done.
  - vm_compute. reflexivity.
  - exact H.
  - rewrite Hsize. vm_compute. reflexivity.
Defined.

Lemma unknown_constituent_raises_witness :
  to_dict (sample_self true (Some 4%Z) 0 None) sample_estimates
          (Some {[ "all"%string := ["orch"; "vocals"]%string ]}) = Raise KeyError.
Proof.
  destruct (to_dict_plain_ok (sample_self true (Some 4%Z) 0 None)
              sample_estimates 3 2 [6] eq_refl) as [d0 Hd0].
  { vm_compute. lia. }
  apply (unknown_constituent_raises (sample_self true (Some 4%Z) 0 None)
           sample_estimates {[ "all"%string := ["orch"; "vocals"]%string ]}
           d0 "all"%string ["orch"; "vocals"]%string "vocals"%string Hd0).
  - apply lookup_singleton_eq.
  - compute_done.
  - destruct (d0 !! "vocals"%string) as [t|] eqn:E; [|reflexivity].
    exfalso.
    destruct (to_dict_plain_inv _ _ _ sample_self_NoDup Hd0) as (_ & _ & Hdom & _).
    destruct (proj1 (Hdom "vocals"%string)) as [Hin | [Heq _]].
    + rewrite E. eauto.
    + rewrite sample_self_keys in Hin. revert Hin. compute_done.
    + discriminate Heq.
Defined.

Lemma separate_runs_witness :
  ∃ st' d,
    separate sample_stft sample_istft sample_complexnorm sample_wiener
             scribbling_separator 0 sample_state = (st', Ok d) ∧
    ∀ name e, d !! name = Some e → shape e = [2; 6].
Proof.
  destruct (separate_runs sample_stft sample_istft sample_complexnorm sample_wiener
              scribbling_separator 0 (OpenUnmix.all_ones [1; 2; 6]) sample_state
              2 2 3 6 6 scribbling_shapes_fit eq_refl)
    as (st' & d & Hrun & _ & _ & Hshape).
  - vm_compute. discriminate.
  - intros [H _]. vm_compute in H. discriminate H.
  - intros ts Hts. unfold sample_istft. rewrite Hts. reflexivity.
  - exists st', d. split; [exact Hrun | exact Hshape].
Defined.

End UMXProps.
